(** * Knowledge Aligner: the real-time context pipeline

    A shallow embedding of the Python sources

    - [backend/realtime_entity_extraction.py] (module [Matcher]),
    - [backend/two_tier_orchestrator.py]      (modules [Worthy], [Orchestrator]),
    - [backend/redis_context_buffer.py]       (module [Buffer]),
    - [backend/hybrid_retrieval.py]           (module [Retrieval]),
    - [backend/pipelines/gap_detector.py]     (module [Gaps]),

    together with the properties the specification states about them.

    Conventions.  Python [str] is [string], the UTF-8 bytes of the text
    ([lower()] is modelled on the ASCII letters and leaves the others as
    they are; [strip()] knows all of Unicode's white space), a Python [set]
    of strings is a [gset string], a Python [dict] with string keys is a
    [gmap string _], a Python [float] is the rational [Q] it denotes
    (sums, dot products and quotients are exact; the one product that
    binary64 rounds and a theorem gives the value of, the topic score, is
    rounded as binary64 rounds it), and clock readings ([time.time()],
    [datetime]) are integers in a fixed unit that is passed explicitly to
    every operation that reads the clock. *)

From Stdlib Require Import ZArith QArith List String Ascii Lia Bool Sorting.Sorted.
From stdpp Require Import base gmap strings list sorting pretty.

Open Scope string_scope.

(** ** Shared data model *)

(** [ExtractedEntities] of [realtime_entity_extraction.py]. *)
Record ExtractedEntities := mkEntities {
  reqs : list string;
  components : list string;
  users_mentioned : list string;
  topics : list string;
  confidence : Q;
  extraction_time_ms : Q
}.

(** Python's [d.get(k, dflt)] on a dictionary with string keys. *)
Definition dict_get {V} (d : gmap string V) (k : string) (dflt : V) : V :=
  default dflt (d !! k).

(** Python's truth value of a set: non-empty. *)
Definition set_truthy (s : gset string) : bool := negb (bool_decide (s = ∅)).

(** Python's truth value of a list: non-empty. *)
Definition list_truthy {A} (l : list A) : bool :=
  match l with [] => false | _ :: _ => true end.

(** [len(s)] of a set, as the integer Python computes with. *)
Definition set_len (s : gset string) : Z := Z.of_nat (size s).

(** ** A float product that rounds *)

Module Float.

(** The binary64 number nearest to [m / 2^e] for a natural number [m], ties
    going to the even mantissa, as the rational it denotes.  (The numbers
    met here are far from the overflow and the subnormal ranges.) *)
Definition nearest (m : Z) (e : positive) : Q :=
  let bits := (Z.log2 m + 1)%Z in
  if (bits <=? 53)%Z then m # (2 ^ e)
  else
    let shift := (bits - 53)%Z in
    let mantissa := Z.shiftr m shift in
    let rest := Z.land m (Z.ones shift) in
    let half := Z.shiftl 1 (shift - 1) in
    let mantissa :=
      if (half <? rest)%Z || ((rest =? half)%Z && Z.odd mantissa)
      then (mantissa + 1)%Z else mantissa in
    Z.shiftl mantissa shift # (2 ^ e).

(** [n * 0.8] for an [int] [n]: the literal [0.8] is the binary64 number
    3602879701896397 / 2^52, [n] converts to itself, and the product is
    rounded. *)
Definition times_0_8 (n : Z) : Q := nearest (n * 3602879701896397) 52.

End Float.

(** ** [ContextMatcher] *)

Module Matcher.

(** [self.synonym_map]. *)
Definition synonym_map : gmap string (list string) :=
  {[ "thermal"  := ["heat"; "temperature"; "cooling"; "dissipation"];
     "power"    := ["supply"; "voltage"; "current"; "battery"; "electrical"];
     "motor"    := ["actuator"; "drive"; "stepper"; "servo"];
     "pcb"      := ["board"; "circuit"; "layout"];
     "firmware" := ["software"; "code"; "programming"];
     "testing"  := ["validation"; "qa"; "verification"] ]}.

(** Membership of a string in a Python list. *)
Definition str_in (x : string) (l : list string) : bool :=
  existsb (String.eqb x) l.

(** The body of the inner loop of [_calculate_synonym_overlap]: the credit
    one pair of components adds to [matches]. *)
Definition pair_credit (b_comp buf_comp : string) : Q :=
  if String.eqb b_comp buf_comp then 1
  else
    let b_synonyms := dict_get synonym_map b_comp [] in
    let buf_synonyms := dict_get synonym_map buf_comp [] in
    if str_in buf_comp b_synonyms
       || str_in b_comp buf_synonyms
       || set_truthy (list_to_set b_synonyms ∩ list_to_set buf_synonyms)
    then 7 # 10
    else 0.

(** [_calculate_synonym_overlap]: both loops, threading
    [(matches, total_comparisons)]. *)
Definition _calculate_synonym_overlap (b_components buffer_components : gset string) : Q :=
  let '(matches, total_comparisons) :=
    foldl (fun acc b_comp =>
             foldl (fun '(m, t) buf_comp => ((m + pair_credit b_comp buf_comp)%Q, (t + 1)%Z))
                   acc (elements buffer_components))
          (0%Q, 0%Z) (elements b_components) in
  (matches / inject_Z (Z.max total_comparisons 1))%Q.

(** The aggregation loop: the union of one field over the buffer. *)
Definition aggregate (field : ExtractedEntities -> list string)
    (buffer_entities : list ExtractedEntities) : gset string :=
  foldl (fun acc entities => acc ∪ list_to_set (field entities)) ∅ buffer_entities.

Definition core_components : gset string :=
  list_to_set ["motor"; "pcb"; "firmware"; "power_supply"].

(** [calculate_overlap_score]. *)
Definition calculate_overlap_score (b_entities : ExtractedEntities)
    (buffer_entities : list ExtractedEntities) : string * Q :=
  if negb (list_truthy buffer_entities) then ("none", 0%Q)
  else
    let all_buffer_reqs := aggregate reqs buffer_entities in
    let all_buffer_components := aggregate components buffer_entities in
    let all_buffer_topics := aggregate topics buffer_entities in
    let b_reqs : gset string := list_to_set (reqs b_entities) in
    let req_matches := set_len (b_reqs ∩ all_buffer_reqs) in
    if (req_matches >? 0)%Z then ("high", (inject_Z req_matches * 2)%Q)
    else
      let b_components : gset string := list_to_set (components b_entities) in
      let component_matches := set_len (b_components ∩ all_buffer_components) in
      if (component_matches >=? 2)%Z then ("high", (inject_Z component_matches * (15 # 10))%Q)
      else if (component_matches =? 1)%Z then
        if set_truthy (b_components ∩ core_components ∩ all_buffer_components)
        then ("high", 15 # 10)
        else ("medium", 1%Q)
      else
        let b_topics : gset string := list_to_set (topics b_entities) in
        let topic_matches := set_len (b_topics ∩ all_buffer_topics) in
        if (topic_matches >=? 2)%Z then ("medium", Float.times_0_8 topic_matches)
        else
          let synonym_score := _calculate_synonym_overlap b_components all_buffer_components in
          if Qle_bool (6 # 10) synonym_score then ("medium", synonym_score)
          else ("none", 0%Q).

Definition confidence_levels : gmap string Z :=
  {[ "high" := 3%Z; "medium" := 2%Z; "low" := 1%Z; "none" := 0%Z ]}.

Definition threshold_levels : gmap string Z :=
  {[ "high" := 3%Z; "medium" := 2%Z; "low" := 1%Z ]}.

(** Python's [0 < score] on the rational model of floats. *)
Definition Qpositive (q : Q) : bool := negb (Qle_bool q 0).

(** [should_inject_context], with the scorer it calls through [self] as a
    parameter. *)
Definition should_inject_context_with
    (scorer : ExtractedEntities -> list ExtractedEntities -> string * Q)
    (b_entities : ExtractedEntities) (buffer_entities : list ExtractedEntities)
    (confidence_threshold : string) : bool * string * Q :=
  if negb (list_truthy (reqs b_entities))
     && negb (list_truthy (components b_entities))
     && negb (list_truthy (topics b_entities))
  then (false, "none", 0%Q)
  else
    let '(confidence, score) := scorer b_entities buffer_entities in
    let required_level := dict_get threshold_levels confidence_threshold 2%Z in
    let actual_level := dict_get confidence_levels confidence 0%Z in
    let should_inject := (actual_level >=? required_level)%Z && Qpositive score in
    (should_inject, confidence, score).

Definition should_inject_context := should_inject_context_with calculate_overlap_score.

End Matcher.

(** ** Python string primitives *)

Module Py.

(** [c.lower()] for one character. *)
Definition lower_ascii (c : ascii) : ascii :=
  let n := nat_of_ascii c in
  if (65 <=? n)%nat && (n <=? 90)%nat then ascii_of_nat (n + 32) else c.

(** [s.lower()]. *)
Fixpoint lower (s : string) : string :=
  match s with
  | EmptyString => EmptyString
  | String c rest => String (lower_ascii c) (lower rest)
  end.

(** [needle in hay] on strings: [needle] occurs as a substring. *)
Fixpoint contains (needle hay : string) : bool :=
  String.prefix needle hay
  || match hay with
     | EmptyString => false
     | String _ rest => contains needle rest
     end.

(** The white space that [str.strip()] removes.  In ASCII: U+0009 to
    U+000D and U+001C to U+0020. *)
Definition is_space (c : ascii) : bool :=
  let n := nat_of_ascii c in
  ((9 <=? n)%nat && (n <=? 13)%nat) || ((28 <=? n)%nat && (n <=? 32)%nat).

(** Outside ASCII, as UTF-8 bytes: the two-byte U+0085 and U+00A0, *)
Definition is_space2 (b1 b2 : ascii) : bool :=
  (nat_of_ascii b1 =? 194)%nat
  && ((nat_of_ascii b2 =? 133)%nat || (nat_of_ascii b2 =? 160)%nat).

(** and the three-byte U+1680, U+2000 to U+200A, U+2028, U+2029, U+202F,
    U+205F and U+3000. *)
Definition is_space3 (b1 b2 b3 : ascii) : bool :=
  let x := nat_of_ascii b1 in
  let y := nat_of_ascii b2 in
  let z := nat_of_ascii b3 in
  ((x =? 225)%nat && (y =? 154)%nat && (z =? 128)%nat)
  || ((x =? 226)%nat && (y =? 128)%nat
      && (((128 <=? z)%nat && (z <=? 138)%nat)
          || (z =? 168)%nat || (z =? 169)%nat || (z =? 175)%nat))
  || ((x =? 226)%nat && (y =? 129)%nat && (z =? 159)%nat)
  || ((x =? 227)%nat && (y =? 128)%nat && (z =? 128)%nat).

(** [not s.strip()]: nothing but white space, of any of the three
    lengths. *)
Fixpoint blank (s : string) : bool :=
  match s with
  | EmptyString => true
  | String c rest =>
      if is_space c then blank rest
      else
        match rest with
        | EmptyString => false
        | String c2 rest2 =>
            if is_space2 c c2 then blank rest2
            else
              match rest2 with
              | EmptyString => false
              | String c3 rest3 => is_space3 c c2 c3 && blank rest3
              end
        end
  end.

(** [s.endswith(suffix)]. *)
Definition endswith (s suffix : string) : bool :=
  let n := String.length s in
  let k := String.length suffix in
  (k <=? n)%nat && String.eqb (String.substring (n - k) k s) suffix.

End Py.

(** ** Decision-worthiness ([TwoTierOrchestrator._is_decision_worthy]) *)

Module Worthy.

Definition decision_keywords : list string :=
  ["decision"; "decided"; "approved"; "selected"; "chose";
   "updated"; "changed"; "requirement"; "spec"; "requirement"].

Definition has_decision_keyword (message_text : string) : bool :=
  existsb (fun keyword => Py.contains keyword (Py.lower message_text)) decision_keywords.

Definition _is_decision_worthy (entities : ExtractedEntities) (message_text : string) : bool :=
  if list_truthy (reqs entities) then true
  else if (Z.of_nat (length (components entities)) >=? 2)%Z && has_decision_keyword message_text
  then true
  else if negb (Qle_bool (confidence entities) (8 # 10))
          && (Z.of_nat (length (topics entities)) >=? 2)%Z
  then true
  else false.

End Worthy.

(** ** Effects: state that survives an exception *)

Module Eff.

(** The result of running a block: it finished with a value, or an
    exception (its message) escaped it. *)
Inductive outcome (A : Type) : Type :=
| Done (a : A)
| Raised (e : string).
Arguments Done {A} a.
Arguments Raised {A} e.

(** A computation over a mutable world [S] that may raise: writes made
    before the exception are kept. *)
Definition M (S A : Type) : Type := S -> S * outcome A.

Definition ret {S A} (a : A) : M S A := fun s => (s, Done a).

Definition raise {S A} (e : string) : M S A := fun s => (s, Raised e).

Definition bind {S A B} (c : M S A) (k : A -> M S B) : M S B :=
  fun s =>
    match c s with
    | (s', Done a) => k a s'
    | (s', Raised e) => (s', Raised e)
    end.

Definition get {S} : M S S := fun s => (s, Done s).

Definition modify {S} (f : S -> S) : M S unit := fun s => (f s, Done tt).

(** [try: body except Exception as e: handler(e)]. *)
Definition try_except {S A} (body : M S A) (handler : string -> M S A) : M S A :=
  fun s =>
    match body s with
    | (s', Done a) => (s', Done a)
    | (s', Raised e) => handler e s'
    end.

(** An awaited call to an outside service: it raises when the service
    faults, otherwise it runs the command. *)
Definition call {S A} (fault : option string) (cmd : M S A) : M S A :=
  match fault with
  | Some e => raise e
  | None => cmd
  end.

End Eff.

Notation "'let*' x := c 'in' k" := (Eff.bind c (fun x => k))
  (at level 10, x pattern, c at level 100, k at level 200).

(** ** The Redis sorted-set commands the buffer uses *)

Module Redis.

(** One sorted-set entry: member and score. *)
Definition entry : Type := string * Z.

(** A key holding a sorted set, kept in rank order (ascending score, ties
    by member), with its expiry instant if it has one. *)
Record ZKey := mkZKey {
  zmembers : list entry;
  expires_at : option Z
}.

Abbreviation Store := (gmap string ZKey).

(** Rank order of two entries. *)
Definition entry_leb (a b : entry) : bool :=
  (snd a <? snd b)%Z || ((snd a =? snd b)%Z && String.leb (fst a) (fst b)).

Fixpoint zinsert (x : entry) (zs : list entry) : list entry :=
  match zs with
  | [] => [x]
  | y :: rest => if entry_leb x y then x :: y :: rest else y :: zinsert x rest
  end.

Definition zremove (member : string) (zs : list entry) : list entry :=
  List.filter (fun e => negb (String.eqb (fst e) member)) zs.

(** The key as a command issued at [now] sees it.  A key is gone once the
    clock has passed its expiry instant; at the instant itself it is still
    served. *)
Definition live (now : Z) (st : Store) (key : string) : option ZKey :=
  match st !! key with
  | Some k =>
      match expires_at k with
      | Some e => if (e <? now)%Z then None else Some k
      | None => Some k
      end
  | None => None
  end.

(** [ZADD key score member]: a member already present only moves; a fresh
    key has no expiry. *)
Definition zadd (now : Z) (key member : string) (score : Z) (st : Store) : Store :=
  match live now st key with
  | Some k => <[key := mkZKey (zinsert (member, score) (zremove member (zmembers k))) (expires_at k)]> st
  | None => <[key := mkZKey [(member, score)] None]> st
  end.

(** The inclusive rank range [start..stop] of a set of [len] entries after
    Redis's index rules, or [None] when it is empty. *)
Definition rank_range (len start stop : Z) : option (Z * Z) :=
  let start := if (start <? 0)%Z then (len + start)%Z else start in
  let stop := if (stop <? 0)%Z then (len + stop)%Z else stop in
  let start := if (start <? 0)%Z then 0%Z else start in
  if (start >? stop)%Z || (start >=? len)%Z then None
  else Some (start, if (stop >=? len)%Z then (len - 1)%Z else stop).

(** [ZREMRANGEBYRANK key start stop]; a set emptied by it is deleted. *)
Definition zremrangebyrank (now : Z) (key : string) (start stop : Z) (st : Store) : Store :=
  match live now st key with
  | Some k =>
      let zs := zmembers k in
      match rank_range (Z.of_nat (length zs)) start stop with
      | Some (lo, hi) =>
          let zs' := (firstn (Z.to_nat lo) zs ++ skipn (Z.to_nat (hi + 1)) zs)%list in
          match zs' with
          | [] => delete key st
          | _ => <[key := mkZKey zs' (expires_at k)]> st
          end
      | None => st
      end
  | None => st
  end.

(** [EXPIRE key seconds]. *)
Definition expire (now : Z) (key : string) (seconds : Z) (st : Store) : Store :=
  match live now st key with
  | Some k => <[key := mkZKey (zmembers k) (Some (now + seconds)%Z)]> st
  | None => st
  end.

(** [ZREVRANGE key start stop WITHSCORES]: ranks counted from the highest
    score. *)
Definition zrevrange (now : Z) (key : string) (start stop : Z) (st : Store) : list entry :=
  match live now st key with
  | Some k =>
      let zs := rev (zmembers k) in
      match rank_range (Z.of_nat (length zs)) start stop with
      | Some (lo, hi) => firstn (Z.to_nat (hi - lo + 1)) (skipn (Z.to_nat lo) zs)
      | None => []
      end
  | None => []
  end.

(** [TTL key]: -2 when there is no such key, -1 when the key has no expiry,
    otherwise the seconds it has left. *)
Definition ttl (now : Z) (key : string) (st : Store) : Z :=
  match live now st key with
  | Some k =>
      match expires_at k with
      | Some e => (e - now)%Z
      | None => (-1)%Z
      end
  | None => (-2)%Z
  end.

(** A glob pattern of literal characters and [*] against a key. *)
Fixpoint glob_match (pattern s : string) : bool :=
  match pattern with
  | EmptyString => match s with EmptyString => true | String _ _ => false end
  | String c pattern' =>
      if Ascii.eqb c "*" then
        (fix star (s : string) : bool :=
           glob_match pattern' s
           || match s with
              | EmptyString => false
              | String _ s' => star s'
              end) s
      else
        match s with
        | EmptyString => false
        | String d s' => Ascii.eqb c d && glob_match pattern' s'
        end
  end.

(** [KEYS pattern]: the keys that are there and match. *)
Definition keys (now : Z) (pattern : string) (st : Store) : list string :=
  List.filter (fun key => glob_match pattern key
                          && match live now st key with Some _ => true | None => false end)
              (map fst (map_to_list st)).

End Redis.

(** ** [RedisContextBuffer] *)

Module Buffer.

(** The [entities] dictionary of a buffered message: every key is optional
    (see the [.get(key, default)] reads of the orchestrator). *)
Record EntityDict := mkEntityDict {
  d_reqs : option (list string);
  d_components : option (list string);
  d_users_mentioned : option (list string);
  d_topics : option (list string);
  d_confidence : option Q
}.

Record LiveContextMessage := mkMessage {
  message_id : string;
  user_id : string;
  text : string;
  entities : EntityDict;
  decision_id : option string;
  timestamp : string;
  channel_id : string
}.

Definition BUFFER_TTL : Z := 7200.
Definition MAX_MESSAGES_PER_CHANNEL : Z := 30.

Definition _get_channel_key (channel_id : string) : string :=
  "channel:" +:+ channel_id +:+ ":context".

(** Which of the three awaited commands of [add_message] faults, if any. *)
Record AddFaults := mkAddFaults {
  zadd_fault : option string;
  zremrangebyrank_fault : option string;
  expire_fault : option string
}.

Definition no_faults : AddFaults := mkAddFaults None None None.

(** None of the three commands faults. *)
Definition faultless (faults : AddFaults) : bool :=
  match zadd_fault faults, zremrangebyrank_fault faults, expire_fault faults with
  | None, None, None => true
  | _, _, _ => false
  end.

(** What [LiveContextMessage.from_redis_json(raw_msg.decode())] does with a
    member of the set: it gives a message; it raises [json.JSONDecodeError]
    or [TypeError], the two exceptions that the reading loop catches; or it
    raises anything else (the [UnicodeDecodeError] of [decode] on bytes that
    are not UTF-8, say), which the reading loop does not catch. *)
Inductive Parse : Type :=
| Parsed (message : LiveContextMessage)
| Malformed
| Escapes (e : string).

Section Serialisation.

(** [to_redis_json] (json.dumps of the dataclass), and [from_redis_json]
    (json.loads into the dataclass) applied to the decoded member. *)
Variable to_redis_json : LiveContextMessage -> string.
Variable from_redis_json : string -> Parse.

(** [add_message], with [connected] for [self.redis_client] being set and
    [now] for the reading of [time.time()]. *)
Definition add_message (connected : bool) (faults : AddFaults) (now : Z)
    (channel_id : string) (message : LiveContextMessage) : Eff.M Redis.Store bool :=
  if negb connected then Eff.ret false
  else
    Eff.try_except
      (let key := _get_channel_key channel_id in
       let timestamp_score := now in
       let* _ := Eff.call (zadd_fault faults)
                   (Eff.modify (Redis.zadd now key (to_redis_json message) timestamp_score)) in
       let* _ := Eff.call (zremrangebyrank_fault faults)
                   (Eff.modify (Redis.zremrangebyrank now key 0 (- (MAX_MESSAGES_PER_CHANNEL + 1)))) in
       let* _ := Eff.call (expire_fault faults)
                   (Eff.modify (Redis.expire now key BUFFER_TTL)) in
       Eff.ret true)
      (fun _ => Eff.ret false).

(** The parsing loop of [get_recent_context]: entries at or after the cutoff
    are parsed; one that raises [JSONDecodeError] or [TypeError] is skipped,
    and any other exception ends the loop and escapes it. *)
Fixpoint parse_recent (cutoff_timestamp : Z) (raw_messages : list Redis.entry)
    : Eff.outcome (list LiveContextMessage) :=
  match raw_messages with
  | [] => Eff.Done []
  | (raw_msg, timestamp_score) :: rest =>
      if (timestamp_score >=? cutoff_timestamp)%Z then
        match from_redis_json raw_msg with
        | Parsed message =>
            match parse_recent cutoff_timestamp rest with
            | Eff.Done context_messages => Eff.Done (message :: context_messages)
            | Eff.Raised e => Eff.Raised e
            end
        | Malformed => parse_recent cutoff_timestamp rest
        | Escapes e => Eff.Raised e
        end
      else parse_recent cutoff_timestamp rest
  end.

(** [get_recent_context]. *)
Definition get_recent_context (connected : bool) (zrevrange_fault : option string) (now : Z)
    (channel_id : string) (max_messages max_age_minutes : Z)
    : Eff.M Redis.Store (list LiveContextMessage) :=
  if negb connected then Eff.ret []
  else
    Eff.try_except
      (let key := _get_channel_key channel_id in
       let* st := Eff.call zrevrange_fault Eff.get in
       let raw_messages := Redis.zrevrange now key 0 (max_messages - 1) st in
       if negb (list_truthy raw_messages) then Eff.ret []
       else
         let cutoff_timestamp := (now - max_age_minutes * 60)%Z in
         match parse_recent cutoff_timestamp raw_messages with
         | Eff.Done context_messages => Eff.ret context_messages
         | Eff.Raised e => Eff.raise e
         end)
      (fun _ => Eff.ret []).

(** A run of fault-free [add_message] calls on one channel of a connected
    buffer, each with the clock reading at which it happens. *)
Fixpoint add_all (channel_id : string) (adds : list (LiveContextMessage * Z))
    (st : Redis.Store) : Redis.Store :=
  match adds with
  | [] => st
  | (message, now) :: rest =>
      add_all channel_id rest (fst (add_message true no_faults now channel_id message st))
  end.

End Serialisation.

(** The counting loop of [cleanup_expired_channels]; the [TTL] of a key is
    asked at the instant [probe_time key]. *)
Fixpoint count_expired (ttl_fault : string -> option string) (probe_time : string -> Z)
    (channel_keys : list string) (cleaned_count : Z) : Eff.M Redis.Store Z :=
  match channel_keys with
  | [] => Eff.ret cleaned_count
  | key :: rest =>
      let* st := Eff.call (ttl_fault key) Eff.get in
      let ttl := Redis.ttl (probe_time key) key st in
      count_expired ttl_fault probe_time rest
                    (if (ttl =? -2)%Z then (cleaned_count + 1)%Z else cleaned_count)
  end.

(** [cleanup_expired_channels]: [KEYS] is issued at [now], the probes that
    follow at their own instants. *)
Definition cleanup_expired_channels (connected : bool) (keys_fault : option string)
    (ttl_fault : string -> option string) (now : Z) (probe_time : string -> Z)
    : Eff.M Redis.Store Z :=
  if negb connected then Eff.ret 0%Z
  else
    Eff.try_except
      (let* st := Eff.call keys_fault Eff.get in
       let channel_keys := Redis.keys now "channel:*:context" st in
       count_expired ttl_fault probe_time channel_keys 0)
      (fun _ => Eff.ret 0%Z).

(** The loop of [extend_ttl_for_active_channels] from position [i] of the
    list; the faults of the two commands are told by position. *)
Fixpoint extend_from (ttl_fault expire_fault : nat -> option string) (now : Z) (i : nat)
    (channel_ids : list string) (extended_count : Z) : Eff.M Redis.Store Z :=
  match channel_ids with
  | [] => Eff.ret extended_count
  | channel_id :: rest =>
      let* extended_count :=
        Eff.try_except
          (let key := _get_channel_key channel_id in
           let* st := Eff.call (ttl_fault i) Eff.get in
           let current_ttl := Redis.ttl now key st in
           if (current_ttl >? 0)%Z && (current_ttl <? 3600)%Z then
             let* _ := Eff.call (expire_fault i)
                         (Eff.modify (Redis.expire now key BUFFER_TTL)) in
             Eff.ret (extended_count + 1)%Z
           else Eff.ret extended_count)
          (fun _ => Eff.ret extended_count) in
      extend_from ttl_fault expire_fault now (S i) rest extended_count
  end.

(** [extend_ttl_for_active_channels]. *)
Definition extend_ttl_for_active_channels (connected : bool)
    (ttl_fault expire_fault : nat -> option string) (now : Z) (channel_ids : list string)
    : Eff.M Redis.Store Z :=
  if negb connected then Eff.ret 0%Z
  else extend_from ttl_fault expire_fault now 0 channel_ids 0.

End Buffer.

(** ** Python list primitives *)

Module PyList.

(** Insertion of [x], which stood before all of [l], into the sorted [l]:
    it passes exactly the elements that must strictly precede it. *)
Fixpoint insert_by {A} (precedes : A -> A -> bool) (x : A) (l : list A) : list A :=
  match l with
  | [] => [x]
  | y :: rest => if precedes y x then y :: insert_by precedes x rest else x :: y :: rest
  end.

(** A stable sort: [precedes y x] says that [y] sorts strictly before [x];
    elements neither of which precedes the other keep their order. *)
Definition stable_sort {A} (precedes : A -> A -> bool) (l : list A) : list A :=
  foldr (insert_by precedes) [] l.

(** [sorted(l, key=key)] for integer keys. *)
Definition sorted_asc {A} (key : A -> Z) : list A -> list A :=
  stable_sort (fun y x => (key y <? key x)%Z).

(** [l[:n]]: a negative [n] counts from the end. *)
Definition slice_to {A} (n : Z) (l : list A) : list A :=
  if (n <? 0)%Z then firstn (Z.to_nat (Z.of_nat (length l) + n)) l
  else firstn (Z.to_nat n) l.

End PyList.

(** ** [HybridRetrieval] *)

Module Retrieval.

(** A row of the [decisions] table, with the author columns the queries
    select.  [timestamp] is in microseconds. *)
Record DecisionRow := mkRow {
  decision_id : Z;
  decision_text : string;
  author_user_id : string;
  author_name : string;
  author_role : string;
  decision_type : string;
  affected_components : list string;
  referenced_reqs : list string;
  timestamp : Z;
  before_after : option (list (string * string));
  embedding : option (list Q);
  similarity_score : option Q;
  embedding_status : string
}.

Record RetrievalResult := mkResult {
  r_decision_id : Z;
  r_decision_text : string;
  r_author_name : string;
  r_author_role : string;
  r_affected_components : list string;
  r_referenced_reqs : list string;
  r_timestamp : Z;
  r_before_after : list (string * string);
  r_similarity_score : Q;
  r_embedding : option (list Q)
}.

Record RetrievalStats := mkStats {
  total_time_ms : Q;
  sql_filter_time_ms : Q;
  semantic_search_time_ms : Q;
  candidates_found : Z;
  final_results : Z;
  query_type : string
}.

(** A row of [user_profiles]. *)
Record UserProfile := mkProfile {
  p_user_id : string;
  owned_components : list string
}.

(** The two tables, and what the server does where SQL leaves it free:
    [ORDER BY timestamp DESC] says nothing about rows of equal timestamp,
    and [tie_rank] stands for the order the server gives them (the greater
    rank first; any function may stand here). *)
Record Database := mkDatabase {
  decisions : list DecisionRow;
  user_profiles : list UserProfile;
  tie_rank : DecisionRow -> Z
}.

Definition microseconds_per_day : Z := 86400 * 1000000.

(** Instants are counted in microseconds from 0001-01-01 00:00:00, the
    least [datetime]; the greatest is 9999-12-31 23:59:59.999999. *)
Definition datetime_max : Z := 3652059 * microseconds_per_day - 1.

(** [datetime.now() - timedelta(days=time_filter_days)]: a [timedelta]
    holds at most 999999999 days either way and the difference has to be a
    [datetime], or the expression raises [OverflowError]. *)
Definition days_ago (now time_filter_days : Z) : Eff.outcome Z :=
  if (999999999 <? Z.abs time_filter_days)%Z
  then Eff.Raised "days; must have magnitude <= 999999999"
  else
    let instant := (now - time_filter_days * microseconds_per_day)%Z in
    if (instant <? 0)%Z || (datetime_max <? instant)%Z
    then Eff.Raised "date value out of range"
    else Eff.Done instant.

(** PostgreSQL's array overlap [a && b]. *)
Definition overlaps (a b : list string) : bool :=
  existsb (fun x => Matcher.str_in x b) a.

(** Python's truth value of an optional string argument. *)
Definition str_given (s : option string) : bool :=
  match s with
  | Some (String _ _) => true
  | _ => false
  end.

(** The [WHERE] clause that [sql_filter] builds. *)
Definition where_clause (now : Z) (user_components : list string) (time_filter_days : Z)
    (author_filter decision_type_filter : option string) (row : DecisionRow) : bool :=
  String.eqb (embedding_status row) "embedded"
  && (if list_truthy user_components then overlaps (affected_components row) user_components
      else true)
  && (timestamp row >=? now - time_filter_days * microseconds_per_day)%Z
  && (if str_given author_filter
      then String.eqb (author_user_id row) (default "" author_filter) else true)
  && (if str_given decision_type_filter
      then String.eqb (decision_type row) (default "" decision_type_filter) else true).

(** [ORDER BY timestamp DESC], as the server of [d] carries it out: [y]
    comes before [x] when it is newer, or as old and of greater rank. *)
Definition order_by_timestamp_desc (d : Database) : list DecisionRow -> list DecisionRow :=
  PyList.stable_sort
    (fun y x => (timestamp x <? timestamp y)%Z
                || ((timestamp x =? timestamp y)%Z && (tie_rank d x <? tie_rank d y)%Z)).

(** [sql_filter]: the query of stage 1.  Without a pool the call raises; so
    does the time parameter when it is out of range; and the server rejects
    a negative [LIMIT]. *)
Definition sql_filter (db : option Database) (now : Z) (user_components : list string)
    (time_filter_days : Z) (author_filter decision_type_filter : option string) (limit : Z)
    : Eff.outcome (list DecisionRow) :=
  match db with
  | None => Eff.Raised "'NoneType' object has no attribute 'acquire'"
  | Some d =>
      match days_ago now time_filter_days with
      | Eff.Raised e => Eff.Raised e
      | Eff.Done _ =>
          if (limit <? 0)%Z then Eff.Raised "LIMIT must not be negative"
          else
            Eff.Done
              (firstn (Z.to_nat limit)
                 (order_by_timestamp_desc d
                    (List.filter (where_clause now user_components time_filter_days
                                          author_filter decision_type_filter)
                            (decisions d))))
      end
  end.

(** [get_user_components]. *)
Definition get_user_components (db : option Database) (user_id : string)
    : Eff.outcome (list string) :=
  match db with
  | None => Eff.Raised "'NoneType' object has no attribute 'acquire'"
  | Some d =>
      match find (fun p => String.eqb (p_user_id p) user_id) (user_profiles d) with
      | Some row => Eff.Done (owned_components row)
      | None => Eff.Done []
      end
  end.

(** The first step of [hybrid_search]: the components passed in, or the
    user's own when none are. *)
Definition resolve_components (db : option Database) (user_id : string)
    (user_components : option (list string)) : Eff.outcome (list string) :=
  match user_components with
  | None => get_user_components db user_id
  | Some cs => Eff.Done cs
  end.

(** [np.dot] of two vectors: a shape mismatch raises. *)
Fixpoint np_dot (u v : list Q) : Eff.outcome Q :=
  match u, v with
  | [], [] => Eff.Done 0%Q
  | x :: u', y :: v' =>
      match np_dot u' v' with
      | Eff.Done d => Eff.Done (x * y + d)%Q
      | Eff.Raised e => Eff.Raised e
      end
  | _, _ => Eff.Raised "shapes not aligned"
  end.

(** The [RetrievalResult] built from a candidate row. *)
Definition to_result (candidate : DecisionRow) (similarity : Q) (emb : option (list Q))
    : RetrievalResult :=
  mkResult (decision_id candidate) (decision_text candidate) (author_name candidate)
           (author_role candidate) (affected_components candidate)
           (referenced_reqs candidate) (timestamp candidate)
           (default [] (before_after candidate)) similarity emb.

(** A result that carries the columns of a candidate row. *)
Definition carries (r : RetrievalResult) (c : DecisionRow) : Prop :=
  r_decision_id r = decision_id c
  ∧ r_decision_text r = decision_text c
  ∧ r_author_name r = author_name c
  ∧ r_author_role r = author_role c
  ∧ r_affected_components r = affected_components c
  ∧ r_referenced_reqs r = referenced_reqs c
  ∧ r_timestamp r = timestamp c
  ∧ r_before_after r = default [] (before_after c).

Section Model.

(** The query encoder, [self.model.encode([query_text], ...)[0]]. *)
Variable encode : string -> list Q.

(** The similarity loop of [semantic_search]. *)
Fixpoint score_candidates (query_embedding : list Q) (candidates : list DecisionRow)
    : Eff.outcome (list RetrievalResult) :=
  match candidates with
  | [] => Eff.Done []
  | candidate :: rest =>
      let similarity :=
        match embedding candidate with
        | Some (x :: v) => np_dot query_embedding (x :: v)
        | _ => Eff.Done 0%Q
        end in
      match similarity with
      | Eff.Raised e => Eff.Raised e
      | Eff.Done sim =>
          match score_candidates query_embedding rest with
          | Eff.Raised e => Eff.Raised e
          | Eff.Done results =>
              Eff.Done (to_result candidate sim (embedding candidate) :: results)
          end
      end
  end.

(** [results.sort(key=lambda x: x.similarity_score, reverse=True)]. *)
Definition sort_by_similarity : list RetrievalResult -> list RetrievalResult :=
  PyList.stable_sort
    (fun y x => negb (Qle_bool (r_similarity_score y) (r_similarity_score x))).

(** [semantic_search]. *)
Definition semantic_search (query_text : string) (candidates : list DecisionRow) (limit : Z)
    : Eff.outcome (list RetrievalResult) :=
  if negb (list_truthy candidates) then Eff.Done []
  else
    let query_embedding := encode query_text in
    match score_candidates query_embedding candidates with
    | Eff.Raised e => Eff.Raised e
    | Eff.Done results => Eff.Done (PyList.slice_to limit (sort_by_similarity results))
    end.

(** The readings of [time.perf_counter()] during one [hybrid_search], in
    seconds, in the order they are taken. *)
Record Ticks := mkTicks {
  total_start : Q;
  sql_start : Q;
  sql_end : Q;
  semantic_start : Q;
  semantic_end : Q;
  total_end : Q
}.

(** [hybrid_search]. *)
Definition hybrid_search (db : option Database) (now : Z) (ticks : Ticks)
    (user_id : string) (query_text : string) (user_components : option (list string))
    (time_filter_days : Z) (limit : Z)
    : Eff.outcome (list RetrievalResult * RetrievalStats) :=
  match resolve_components db user_id user_components with
  | Eff.Raised e => Eff.Raised e
  | Eff.Done user_components =>
      match sql_filter db now user_components time_filter_days None None
                       (Z.min 100 (limit * 5)) with
      | Eff.Raised e => Eff.Raised e
      | Eff.Done candidates =>
          let sql_time_ms := ((sql_end ticks - sql_start ticks) * 1000)%Q in
          let stage2 :=
            if Py.blank query_text then
              Eff.Done
                (map (fun candidate =>
                        to_result candidate (default 0%Q (similarity_score candidate)) None)
                     (PyList.slice_to limit candidates),
                 0%Q, "sql_only")
            else
              match semantic_search query_text candidates limit with
              | Eff.Raised e => Eff.Raised e
              | Eff.Done results =>
                  Eff.Done (results,
                            ((semantic_end ticks - semantic_start ticks) * 1000)%Q,
                            "hybrid")
              end in
          match stage2 with
          | Eff.Raised e => Eff.Raised e
          | Eff.Done (results, semantic_time_ms, query_type) =>
              let total_time_ms := ((total_end ticks - total_start ticks) * 1000)%Q in
              Eff.Done (results,
                        mkStats total_time_ms sql_time_ms semantic_time_ms
                                (Z.of_nat (length candidates)) (Z.of_nat (length results))
                                query_type)
          end
      end
  end.

End Model.

End Retrieval.

(** ** [GapDetector] *)

Module Gaps.

(** A row of [_get_recent_decisions].  [timestamp] is in microseconds. *)
Record Decision := mkDecision {
  decision_id : Z;
  thread_id : string;
  timestamp : Z;
  author_user_id : string;
  decision_type : string;
  decision_text : string;
  affected_components : list string;
  referenced_reqs : list string;
  user_name : string;
  role : string
}.

(** A row of [user_profiles]. *)
Record User := mkUser {
  u_user_id : string;
  u_user_name : string;
  u_role : string;
  u_owned_components : list string
}.

(** What the cursor reads: the user profiles and the
    [(thread_id, user_id)] pairs of [slack_messages]. *)
Record Tables := mkTables {
  user_profiles : list User;
  slack_messages : list (string * string)
}.

(** One entry of a gap's [missing_stakeholders] list. *)
Record Missing := mkMissing {
  m_user_id : string;
  m_user_name : string;
  m_owned_component : string;
  m_role : string
}.

Record StakeholderGap := mkGap {
  g_decision_id : Z;
  g_decision_text : string;
  g_thread_id : string;
  g_timestamp : Z;
  g_author : string;
  g_affected_components : list string;
  g_missing_stakeholders : list Missing;
  g_severity : string;
  g_participants_count : Z;
  g_recommendation : string
}.

(** [d[key] = value] on a dictionary kept in insertion order. *)
Fixpoint dict_set {V} (key : string) (value : V) (d : list (string * V)) : list (string * V) :=
  match d with
  | [] => [(key, value)]
  | (k, v) :: rest =>
      if String.eqb k key then (k, value) :: rest else (k, v) :: dict_set key value rest
  end.

(** [d[key]], when present. *)
Definition dict_lookup {V} (key : string) (d : list (string * V)) : option V :=
  snd <$> find (fun kv => String.eqb (fst kv) key) d.

(** [{row['user_id']: dict(row) for row in rows}]. *)
Definition users_of (rows : list User) : list (string * User) :=
  foldl (fun d row => dict_set (u_user_id row) row d) [] rows.

(** [SELECT DISTINCT user_id FROM slack_messages WHERE thread_id = %s], as
    the set the code makes of it. *)
Definition participants_of (t : Tables) (thread : string) : gset string :=
  list_to_set (map snd (List.filter (fun row => String.eqb (fst row) thread) (slack_messages t))).

(** The [component_owners] loops. *)
Definition component_owners (users : list (string * User)) (affected : list string)
    : list (string * string * string) :=
  flat_map (fun component =>
              flat_map (fun '(user_id, user_data) =>
                          if Matcher.str_in component (u_owned_components user_data)
                          then [(user_id, u_user_name user_data, component)] else [])
                       users)
           affected.

(** The [missing] loop. *)
Definition missing_of (users : list (string * User)) (participants : gset string)
    (author : string) (owners : list (string * string * string)) : list Missing :=
  flat_map (fun '(user_id, user_name, component) =>
              if negb (bool_decide (user_id ∈ participants))
                 && negb (String.eqb user_id author)
              then [mkMissing user_id user_name component
                              (default "" (u_role <$> dict_lookup user_id users))]
              else [])
           owners.

(** [", ".join(parts)]. *)
Fixpoint join (sep : string) (parts : list string) : string :=
  match parts with
  | [] => ""
  | [p] => p
  | p :: rest => p +:+ sep +:+ join sep rest
  end.

(** [_generate_stakeholder_recommendation].  The roles are joined in the
    order in which the set of them is enumerated. *)
Definition _generate_stakeholder_recommendation (missing : list Missing)
    (components : list string) : string :=
  match missing with
  | [m] =>
      "Contact " +:+ m_user_name m +:+ " (" +:+ m_role m +:+ ") about "
      +:+ m_owned_component m +:+ " impact"
  | _ =>
      let roles := join ", " (elements (list_to_set (map m_role missing) : gset string)) in
      "Schedule review meeting with " +:+ roles +:+ " teams to discuss "
      +:+ join ", " components +:+ " changes"
  end.

(** The severity rule of [_detect_missing_stakeholders]. *)
Definition stakeholder_severity (users : list (string * User)) (missing : list Missing)
    : string :=
  if (Z.of_nat (length missing) >? 2)%Z
     || existsb (fun m => Py.endswith
                            (default "" (u_role <$> dict_lookup (m_user_id m) users)) "Lead")
                missing
  then "critical" else "warning".

(** [text[:100] + "..."]. *)
Definition excerpt (text : string) : string := String.substring 0 100 text +:+ "...".

(** The body of the loop over decisions: the gap of one decision, if any. *)
Definition decision_gap (t : Tables) (users : list (string * User)) (decision : Decision)
    : option StakeholderGap :=
  let owners := component_owners users (affected_components decision) in
  let participants := participants_of t (thread_id decision) in
  let missing := missing_of users participants (author_user_id decision) owners in
  if list_truthy missing then
    Some (mkGap (decision_id decision) (excerpt (decision_text decision))
                (thread_id decision) (timestamp decision) (user_name decision)
                (affected_components decision) missing
                (stakeholder_severity users missing)
                (set_len participants)
                (_generate_stakeholder_recommendation missing (affected_components decision)))
  else None.

(** The order of [key=lambda x: (x['severity'] == 'warning', x['timestamp'])]
    under [reverse=True]: [y] sorts strictly before [x] when its key is the
    greater one. *)
Definition key_greater (ky kx : bool * Z) : bool :=
  (negb (fst kx) && fst ky)
  || (Bool.eqb (fst kx) (fst ky) && (snd kx <? snd ky)%Z).

(** [_detect_missing_stakeholders]. *)
Definition _detect_missing_stakeholders (t : Tables) (decisions : list Decision)
    : list StakeholderGap :=
  let users := users_of (user_profiles t) in
  PyList.stable_sort
    (fun y x => key_greater (String.eqb (g_severity y) "warning", g_timestamp y)
                            (String.eqb (g_severity x) "warning", g_timestamp x))
    (omap (decision_gap t users) decisions).

(** [_format_decision_summary]; the instant is kept as it is rather than in
    its ISO rendering. *)
Record Summary := mkSummary {
  s_decision_id : Z;
  s_author : string;
  s_timestamp : Z;
  s_text : string;
  s_type : string
}.

Definition _format_decision_summary (decision : Decision) : Summary :=
  mkSummary (decision_id decision) (user_name decision) (timestamp decision)
            (excerpt (decision_text decision)) (decision_type decision).

(** A conflict dictionary; the keys that only some kinds carry are
    optional. *)
Record Conflict := mkConflict {
  c_type : string;
  c_component : option string;
  c_requirement : option string;
  c_conflict_description : string;
  c_decisions : list Summary;
  c_severity : string;
  c_timestamp : Z;
  c_resolution_needed : bool;
  c_recommendation : string;
  c_time_between_decisions : option string
}.

Definition microseconds_per_day : Z := 86400 * 1000000.

(** [timedelta.days] of a difference of instants. *)
Definition days (time_diff : Z) : Z := time_diff / microseconds_per_day.

Definition contradiction_patterns : list (string * string) :=
  [("increase", "decrease"); ("add", "remove"); ("enable", "disable");
   ("approve", "reject"); ("accept", "decline")].

(** The pairs [(sorted[i-1], sorted[i])] for [i] from 1. *)
Fixpoint consecutive {A} (l : list A) : list (A * A) :=
  match l with
  | previous :: ((current :: _) as rest) => (previous, current) :: consecutive rest
  | _ => []
  end.

(** The body of the loop over [contradiction_patterns] for one pair of
    decisions. *)
Definition contradictions (requirement : string) (previous current : Decision)
    : list Conflict :=
  let current_text := Py.lower (decision_text current) in
  let previous_text := Py.lower (decision_text previous) in
  flat_map (fun '(pos_word, neg_word) =>
              if (Py.contains pos_word current_text && Py.contains neg_word previous_text)
                 || (Py.contains neg_word current_text && Py.contains pos_word previous_text)
              then
                let time_diff := (timestamp current - timestamp previous)%Z in
                let severity := if (days time_diff <? 1)%Z then "critical" else "warning" in
                [mkConflict "requirement_conflict" None (Some requirement)
                            ("Contradictory decisions for " +:+ requirement)
                            [_format_decision_summary previous;
                             _format_decision_summary current]
                            severity (timestamp current) true
                            ("Resolve contradictory requirements for " +:+ requirement)
                            (Some (pretty (days time_diff) +:+ " days"))]
              else [])
           contradiction_patterns.

(** [_analyze_requirement_conflicts]. *)
Definition _analyze_requirement_conflicts (requirement : string) (decisions : list Decision)
    : list Conflict :=
  if (Z.of_nat (length decisions) <=? 1)%Z then []
  else
    let sorted_decisions := PyList.sorted_asc timestamp decisions in
    flat_map (fun '(previous, current) => contradictions requirement previous current)
             (consecutive sorted_decisions).

(** One extracted value change: the decision, [before] and [after] in lower
    case, and the decision's instant. *)
Record Change := mkChange {
  ch_decision : Decision;
  ch_before : string;
  ch_after : string;
  ch_timestamp : Z
}.

Section Patterns.

(** [re.findall] of the "X to Y" pattern over a decision text: the
    [(before, after)] groups of its matches, in order. *)
Variable findall_changes : string -> list (string * string).

Definition changes_of (decisions : list Decision) : list Change :=
  flat_map (fun decision =>
              map (fun '(before, after) =>
                     mkChange decision (Py.lower before) (Py.lower after) (timestamp decision))
                  (findall_changes (decision_text decision)))
           decisions.

Definition circular_conflict (change1 change2 : Change) : Conflict :=
  mkConflict "circular_change" None None
             ("Circular changes detected: " +:+ ch_before change1 +:+ " ↔ "
              +:+ ch_after change1)
             [_format_decision_summary (ch_decision change1);
              _format_decision_summary (ch_decision change2)]
             "critical" (Z.max (ch_timestamp change1) (ch_timestamp change2)) true
             "Clarify final value and reasoning for the change" None.

(** The nested loops over [changes] and [changes[i+1:]]. *)
Fixpoint circular_pairs (changes : list Change) : list Conflict :=
  match changes with
  | [] => []
  | change1 :: rest =>
      (flat_map (fun change2 =>
                   if String.eqb (ch_before change1) (ch_after change2)
                      && String.eqb (ch_after change1) (ch_before change2)
                   then [circular_conflict change1 change2] else [])
                rest
       ++ circular_pairs rest)%list
  end.

(** [_detect_before_after_conflicts]. *)
Definition _detect_before_after_conflicts (decisions : list Decision) : list Conflict :=
  let changes := changes_of decisions in
  if (Z.of_nat (length changes) >? 1)%Z then circular_pairs changes else [].

(** [max(timestamps)]; the callers pass at least one decision. *)
Definition max_timestamp (decisions : list Decision) : Z :=
  match decisions with
  | [] => 0%Z
  | d :: rest => foldl (fun m d' => Z.max m (timestamp d')) (timestamp d) rest
  end.

Definition set_component (component : string) (c : Conflict) : Conflict :=
  mkConflict (c_type c) (Some component) (c_requirement c) (c_conflict_description c)
             (c_decisions c) (c_severity c) (c_timestamp c) (c_resolution_needed c)
             (c_recommendation c) (c_time_between_decisions c).

(** [_analyze_component_conflicts]. *)
Definition _analyze_component_conflicts (component : string) (decisions : list Decision)
    : list Conflict :=
  let has_approval := existsb (fun d => Py.contains "approval" (decision_type d)) decisions in
  let has_rejection :=
    existsb (fun d => Py.contains "reject" (Py.lower (decision_text d))) decisions in
  let approval_conflicts :=
    if has_approval && has_rejection then
      [mkConflict "component_conflict" (Some component) None
                  ("Conflicting approval/rejection decisions for " +:+ component)
                  (map _format_decision_summary decisions)
                  "critical" (max_timestamp decisions) true
                  ("Clarify current status of " +:+ component +:+ " - approved or rejected?")
                  None]
    else [] in
  let before_after_conflicts :=
    map (set_component component) (_detect_before_after_conflicts decisions) in
  let duplicate_conflicts :=
    if (set_len (list_to_set (map decision_text decisions)) <? Z.of_nat (length decisions))%Z
    then
      let recent_window := (max_timestamp decisions - microseconds_per_day)%Z in
      let recent_decisions :=
        List.filter (fun d => (recent_window <? timestamp d)%Z) decisions in
      if (Z.of_nat (length recent_decisions) >? 1)%Z then
        [mkConflict "duplicate_decision" (Some component) None
                    ("Multiple recent decisions for " +:+ component
                     +:+ " may indicate confusion")
                    (map _format_decision_summary recent_decisions)
                    "warning" (max_timestamp decisions) false
                    ("Verify that latest decision for " +:+ component
                     +:+ " is understood by all stakeholders")
                    None]
      else []
    else [] in
  (approval_conflicts ++ before_after_conflicts ++ duplicate_conflicts)%list.

(** [d.setdefault(key, []).append(x)] on a dictionary kept in insertion
    order. *)
Fixpoint dict_append {V} (key : string) (x : V) (d : list (string * list V))
    : list (string * list V) :=
  match d with
  | [] => [(key, [x])]
  | (k, xs) :: rest =>
      if String.eqb k key then (k, (xs ++ [x])%list) :: rest
      else (k, xs) :: dict_append key x rest
  end.

(** The grouping loop of [_detect_conflicts] for one of its two
    dictionaries. *)
Definition group_by (keys : Decision -> list string) (decisions : list Decision)
    : list (string * list Decision) :=
  foldl (fun d decision => foldl (fun d key => dict_append key decision d) d (keys decision))
        [] decisions.


(** What the grouping loop files under [k]: each decision of [ds], in
    order, once for every time it lists [k]. *)
Definition filed_under (keys : Decision -> list string) (k : string) (ds : list Decision)
    : list Decision :=
  flat_map (fun d => flat_map (fun k' => if String.eqb k' k then [d] else []) (keys d)) ds.

(** The state of the grouping dictionary after the decisions [ds], with
    [extra] filed besides: no repeated key, no empty group. *)
Definition files (keys : Decision -> list string) (ds : list Decision)
    (extra : string -> list Decision) (groups : list (string * list Decision)) : Prop :=
  NoDup (map fst groups)
  ∧ ∀ k, dict_lookup k groups
         = match (filed_under keys k ds ++ extra k)%list with
           | [] => None
           | g => Some g
           end.

(** [_detect_conflicts]. *)
Definition _detect_conflicts (decisions : list Decision) : list Conflict :=
  let component_decisions := group_by affected_components decisions in
  let requirement_decisions := group_by referenced_reqs decisions in
  let component_conflicts :=
    flat_map (fun '(component, comp_decisions) =>
                if (Z.of_nat (length comp_decisions) >? 1)%Z
                then _analyze_component_conflicts component comp_decisions else [])
             component_decisions in
  let requirement_conflicts :=
    flat_map (fun '(req, req_decisions) =>
                if (Z.of_nat (length req_decisions) >? 1)%Z
                then _analyze_requirement_conflicts req req_decisions else [])
             requirement_decisions in
  PyList.stable_sort
    (fun y x => key_greater (String.eqb (c_severity y) "warning", c_timestamp y)
                            (String.eqb (c_severity x) "warning", c_timestamp x))
    (component_conflicts ++ requirement_conflicts)%list.

End Patterns.

(** [DecisionGraphBuilder.component_dependencies] of
    [pipelines/decision_graph.py]: a component and what it depends on, in
    insertion order. *)
Definition component_dependencies : list (string * list string) :=
  [("Motor-XYZ", ["Bracket-Assembly"; "Power-Supply-v2"]);
   ("PCB-Rev3", ["Power-Supply-v2"; "ESP32-Firmware"; "I2C-Interface"]);
   ("Power-Supply-v2", ["Thermal-Design"; "Schematic"]);
   ("ESP32-Firmware", ["Bootloader"; "Driver-Code"]);
   ("Enclosure", ["Thermal-Design"; "Assembly-Process"]);
   ("BOM", ["Vendor-Selection"; "DFM"]);
   ("Requirements", ["Schedule"]);
   ("Test-Fixtures", ["QA-Process"])].

(** One entry of a broken dependency's [missing_owners] list. *)
Record MissingOwner := mkMissingOwner {
  o_user_id : string;
  o_user_name : string;
  o_dependent_component : string
}.

Record BrokenDependency := mkBroken {
  b_decision_id : Z;
  b_decision_text : string;
  b_affected_component : string;
  b_dependent_components : list string;
  b_missing_owners : list MissingOwner;
  b_timestamp : Z;
  b_severity : string;
  b_recommendation : string
}.

(** The [dependents] loop: the components that depend on [component]. *)
Definition dependents_of (dependencies : list (string * list string)) (component : string)
    : list string :=
  flat_map (fun '(dependent, deps) => if Matcher.str_in component deps then [dependent] else [])
           dependencies.

(** The [missing_dependent_owners] loops. *)
Definition missing_dependent_owners (t : Tables) (participants : gset string)
    (dependents : list string) : list MissingOwner :=
  flat_map (fun user =>
              flat_map (fun dependent =>
                          if Matcher.str_in dependent (u_owned_components user)
                             && negb (bool_decide (u_user_id user ∈ participants))
                          then [mkMissingOwner (u_user_id user) (u_user_name user) dependent]
                          else [])
                       dependents)
           (user_profiles t).

(** [_detect_broken_dependencies], with the dependency table of the graph
    builder as a parameter. *)
Definition _detect_broken_dependencies (dependencies : list (string * list string))
    (t : Tables) (decisions : list Decision) : list BrokenDependency :=
  flat_map (fun decision =>
              flat_map (fun component =>
                          let dependents := dependents_of dependencies component in
                          if list_truthy dependents then
                            let participants := participants_of t (thread_id decision) in
                            let missing_owners :=
                              missing_dependent_owners t participants dependents in
                            if list_truthy missing_owners then
                              [mkBroken (decision_id decision)
                                        (excerpt (decision_text decision)) component
                                        dependents missing_owners (timestamp decision)
                                        "warning"
                                        ("Inform owners of " +:+ join ", " dependents
                                         +:+ " about changes to " +:+ component)]
                            else []
                          else [])
                       (affected_components decision))
           decisions.

End Gaps.

(** ** [RealtimeEntityExtractor] *)

Module Extractor.

(** [self.component_patterns] and [self.topic_patterns]: regular
    expression and the name it stands for, in insertion order. *)
Definition component_patterns : list (string * string) :=
  [("\b(?:motor|actuator|servo|stepper)\b", "motor");
   ("\b(?:pcb|circuit\s+board|board)\b", "pcb");
   ("\b(?:power\s+supply|psu|voltage|current)\b", "power_supply");
   ("\b(?:firmware|software|code)\b", "firmware");
   ("\b(?:thermal|heat|temperature|cooling)\b", "thermal");
   ("\b(?:mechanical|mounting|assembly)\b", "mechanical");
   ("\b(?:security|encryption|auth)\b", "security");
   ("\b(?:validation|testing|qa|test)\b", "testing");
   ("\b(?:architecture|system|integration)\b", "architecture");
   ("\b(?:protocol|communication|interface)\b", "protocol")].

Definition topic_patterns : list (string * string) :=
  [("\b(?:torque|force|power)\b", "mechanical_specs");
   ("\b(?:temperature|thermal|heat)\b", "thermal_management");
   ("\b(?:voltage|current|power)\b", "electrical_specs");
   ("\b(?:can\s+bus|i2c|spi|uart)\b", "communication_protocols");
   ("\b(?:stackup|layer|trace)\b", "pcb_design");
   ("\b(?:boot|secure|encryption)\b", "security_features")].

(** Which of the two clients [__init__] has set. *)
Record Clients := mkClients {
  anthropic_client : bool;
  openai_client : bool
}.

Section Regex.

(** The three uses of [re]: [re.findall(r'REQ-\d+', text, re.IGNORECASE)],
    [re.findall(r'@(\w+)', text)] and
    [re.search(pattern, text, re.IGNORECASE)] being a match. *)
Variable findall_reqs : string -> list string.
Variable findall_users : string -> list string.
Variable search : string -> string -> bool.

(** The names of the patterns found in a text, as the loops collect
    them. *)
Definition names_found (patterns : list (string * string)) (text : string) : list string :=
  flat_map (fun '(pattern, name) => if search pattern text then [name] else []) patterns.

(** [_extract_with_regex].  [list(set(...))] lists the names in the order
    in which the set of them is enumerated. *)
Definition _extract_with_regex (message_text : string) : ExtractedEntities :=
  let message_lower := Py.lower message_text in
  let reqs := findall_reqs message_text in
  let users_mentioned := map (fun m => "@" +:+ m) (findall_users message_text) in
  let components := names_found component_patterns message_lower in
  let topics := names_found topic_patterns message_lower in
  mkEntities reqs (elements (list_to_set components : gset string)) users_mentioned
             (elements (list_to_set topics : gset string)) (6 # 10) 0.

(** [entities.extraction_time_ms = ...]. *)
Definition timed (entities : ExtractedEntities) (extraction_time_ms : Q) : ExtractedEntities :=
  mkEntities (reqs entities) (components entities) (users_mentioned entities)
             (topics entities) (confidence entities) extraction_time_ms.

(** [extract_entities_fast]: [haiku] and [openai] are what
    [_extract_with_haiku] and [_extract_with_openai] do when called,
    [start_time] and [end_time] the two clock readings. *)
Definition extract_entities_fast (self : Clients)
    (haiku openai : Eff.outcome (option ExtractedEntities)) (start_time end_time : Q)
    (message_text user_id channel_id : string) : ExtractedEntities :=
  let elapsed := ((end_time - start_time) * 1000)%Q in
  let llm :=
    if anthropic_client self then haiku
    else if openai_client self then openai
    else Eff.Done None in
  match llm with
  | Eff.Done (Some entities) => timed entities elapsed
  | _ => timed (_extract_with_regex message_text) elapsed
  end.

End Regex.

End Extractor.

(** ** [TwoTierOrchestrator] *)

Module Orchestrator.

Import Eff.

(** A value of a result dictionary. *)
Inductive value : Type :=
| VNone
| VBool (b : bool)
| VInt (z : Z)
| VFloat (q : Q)
| VStr (s : string).

(** [self.stats]. *)
Record Stats := mkStats {
  messages_processed : Z;
  context_injections : Z;
  gaps_created : Z;
  avg_processing_time_ms : Q;
  redis_failures : Z;
  sql_failures : Z
}.

(** A [datetime], through the two renderings the orchestrator takes of it. *)
Record Datetime := mkDatetime {
  isoformat : string;
  strftime_ymd_hms : string
}.

(** A row inserted into [decisions]. *)
Record DecisionRecord := mkDecisionRecord {
  dr_decision_id : string;
  dr_thread_id : string;
  dr_timestamp : Datetime;
  dr_author_user_id : string;
  dr_decision_text : string;
  dr_affected_components : list string;
  dr_referenced_reqs : list string;
  dr_embedding_status : string
}.

(** A row inserted into [gaps]. *)
Record GapRecord := mkGapRecord {
  gr_gap_id : string;
  gr_type : string;
  gr_severity : string;
  gr_description : string;
  gr_assignee_id : string;
  gr_recommendation : string
}.

(** Everything one call can change: the Redis keys, the two tables and the
    counters. *)
Record World := mkWorld {
  store : Redis.Store;
  decisions_table : list DecisionRecord;
  gaps_table : list GapRecord;
  stats : Stats
}.

Definition set_store (f : Redis.Store -> Redis.Store) (w : World) : World :=
  mkWorld (f (store w)) (decisions_table w) (gaps_table w) (stats w).

Definition set_stats (f : Stats -> Stats) (w : World) : World :=
  mkWorld (store w) (decisions_table w) (gaps_table w) (f (stats w)).

(** A buffer operation run on the store of the world. *)
Definition on_store {A} (c : M Redis.Store A) : M World A :=
  fun w => let '(st, r) := c (store w) in (set_store (fun _ => st) w, r).

(** What the outside does during one call: the extractor's answer, the clock
    readings, and which awaited calls fault. *)
Record Env := mkEnv {
  extraction : outcome ExtractedEntities;
  datetime_now : Datetime;
  start_time : Q;
  end_time : Q;
  buffer_now : Z;
  insert_decision_fault : option string;
  add_faults : Buffer.AddFaults;
  zrevrange_fault : option string;
  gap_id_query : outcome Z;
  insert_gap_fault : option string;
  response : outcome string
}.

(** The orchestrator's connections: [self.redis_buffer.redis_client] and
    [self.db_pool] being set. *)
Record Connections := mkConnections {
  redis_connected : bool;
  db_pool : bool
}.

Section Pipeline.

Variable to_redis_json : Buffer.LiveContextMessage -> string.
Variable from_redis_json : string -> Buffer.Parse.

Variable self : Connections.
Variable env : Env.

(** [_create_decision_record]. *)
Definition _create_decision_record (message_id channel_id user_id message_text : string)
    (entities : ExtractedEntities) (timestamp : Datetime) : M World (option string) :=
  if negb (db_pool self) then ret None
  else
    try_except
      (let decision_id :=
         strftime_ymd_hms timestamp +:+ "_" +:+ String.substring 0 8 message_id in
       let* _ := call (insert_decision_fault env)
                   (modify (fun w =>
                      mkWorld (store w)
                              (decisions_table w ++
                               [mkDecisionRecord decision_id (channel_id +:+ "_" +:+ message_id)
                                                 timestamp user_id message_text
                                                 (components entities) (reqs entities)
                                                 "pending"])%list
                              (gaps_table w) (stats w))) in
       ret (Some decision_id))
      (fun _ =>
         let* _ := modify (set_stats (fun s =>
                     mkStats (messages_processed s) (context_injections s) (gaps_created s)
                             (avg_processing_time_ms s) (redis_failures s)
                             (sql_failures s + 1))) in
         ret None).

(** The [ExtractedEntities] rebuilt from a buffered message's dictionary. *)
Definition entities_of_message (msg : Buffer.LiveContextMessage) : ExtractedEntities :=
  let d := Buffer.entities msg in
  mkEntities (default [] (Buffer.d_reqs d)) (default [] (Buffer.d_components d))
             (default [] (Buffer.d_users_mentioned d)) (default [] (Buffer.d_topics d))
             (default (6 # 10) (Buffer.d_confidence d)) 0.

(** One entry of [matching_contexts]. *)
Record Matching := mkMatching {
  mc_message : Buffer.LiveContextMessage;
  mc_confidence : string;
  mc_score : Q
}.

(** [_generate_gap_id]. *)
Definition _generate_gap_id : string :=
  let fallback := "gap_" +:+ pretty (buffer_now env) in
  if negb (db_pool self) then fallback
  else
    match gap_id_query env with
    | Done result => pretty result
    | Raised _ => fallback
    end.

(** [_generate_gap_description]. *)
Definition _generate_gap_description (b_entities : ExtractedEntities)
    (matching_contexts : list Matching) (user_id : string) : string :=
  let overlapping (mine : list string) (theirs : Buffer.EntityDict -> option (list string))
      : gset string :=
    foldl (fun acc ctx =>
             acc ∪ (list_to_set mine
                    ∩ list_to_set (default [] (theirs (Buffer.entities (mc_message ctx))))))
          ∅ matching_contexts in
  let overlapping_components := overlapping (components b_entities) Buffer.d_components in
  let overlapping_reqs := overlapping (reqs b_entities) Buffer.d_reqs in
  let components_str := Gaps.join ", " (elements overlapping_components) in
  let reqs_str := Gaps.join ", " (elements overlapping_reqs) in
  let description_parts :=
    ((if set_truthy overlapping_reqs then ["Requirements " +:+ reqs_str +:+ " mentioned"]
      else [])
     ++ (if set_truthy overlapping_components
         then ["Components " +:+ components_str +:+ " discussed"] else []))%list in
  let context_info := Gaps.join " and " description_parts in
  "User " +:+ user_id +:+ " mentioned " +:+ context_info +:+ " that were previously "
  +:+ "discussed without their involvement. Consider including them "
  +:+ "in future related decisions.".

(** [_create_gap_if_needed]. *)
Definition _create_gap_if_needed (b_entities : ExtractedEntities)
    (matching_contexts : list Matching) (user_id : string) : M World (option string) :=
  if negb (db_pool self) then ret None
  else
    try_except
      (let user_was_mentioned :=
         existsb (fun ctx =>
                    Matcher.str_in ("@" +:+ user_id)
                      (default [] (Buffer.d_users_mentioned (Buffer.entities (mc_message ctx)))))
                 matching_contexts in
       if user_was_mentioned then ret None
       else
         let gap_id := _generate_gap_id in
         let description := _generate_gap_description b_entities matching_contexts user_id in
         let* _ := call (insert_gap_fault env)
                     (modify (fun w =>
                        mkWorld (store w) (decisions_table w)
                                (gaps_table w ++
                                 [mkGapRecord gap_id "missing_stakeholder" "warning" description
                                              user_id
                                              ("Include " +:+ user_id +:+
                                               " in future discussions about overlapping components")])%list
                                (stats w))) in
         ret (Some gap_id))
      (fun _ => ret None).

(** Python's [bool(s)] of an optional string. *)
Definition opt_truthy (s : option string) : bool := Retrieval.str_given s.

(** The three dictionaries [_check_context_injection] can return. *)
Definition none_found : gmap string value :=
  {[ "context_injected" := VBool false; "gap_created" := VBool false ]}.

Definition check_failed (e : string) : gmap string value :=
  <["error" := VStr e]> none_found.

Definition injected (gap_created : bool) (confidence : string) (score : Q)
    (matching_contexts_count : Z) (response_text : string) : gmap string value :=
  {[ "context_injected" := VBool true;
     "gap_created" := VBool gap_created;
     "confidence" := VStr confidence;
     "score" := VFloat score;
     "matching_contexts_count" := VInt matching_contexts_count;
     "response" := VStr response_text ]}.

(** [_check_context_injection]. *)
Definition _check_context_injection (channel_id : string) (b_entities : ExtractedEntities)
    (user_id message_id message_text : string) : M World (gmap string value) :=
  try_except
    (let* context_messages :=
       on_store (Buffer.get_recent_context from_redis_json (redis_connected self)
                   (zrevrange_fault env) (buffer_now env) channel_id 30 120) in
     if negb (list_truthy context_messages) then ret none_found
     else
       let buffer_entities := map entities_of_message context_messages in
       let '(should_inject, confidence, score) :=
         Matcher.should_inject_context b_entities buffer_entities "medium" in
       if negb should_inject then ret none_found
       else
         let matching_contexts :=
           flat_map (fun msg =>
                       let '(msg_confidence, msg_score) :=
                         Matcher.calculate_overlap_score b_entities [entities_of_message msg] in
                       if Matcher.str_in msg_confidence ["high"; "medium"]
                       then [mkMatching msg msg_confidence msg_score] else [])
                    context_messages in
         let* gap_id :=
           (if list_truthy matching_contexts
            then _create_gap_if_needed b_entities matching_contexts user_id
            else ret None) in
         let gap_created := opt_truthy gap_id in
         let* response_text := (fun w => (w, response env)) in
         ret (injected gap_created confidence score
                       (Z.of_nat (length matching_contexts)) response_text))
    (fun e => ret (check_failed e)).

Definition value_truthy (v : option value) : bool :=
  match v with
  | Some (VBool b) => b
  | Some (VInt z) => negb (z =? 0)%Z
  | Some (VFloat q) => negb (Qeq_bool q 0)
  | Some (VStr s) => opt_truthy (Some s)
  | Some VNone | None => false
  end.

(** The dictionary of the handler of [process_incoming_message]. *)
Definition ingest_failed (e : string) : gmap string value :=
  {[ "decision_created" := VBool false;
     "context_injected" := VBool false;
     "gap_created" := VBool false;
     "processing_time_ms" := VFloat ((end_time env - start_time env) * 1000)%Q;
     "error" := VStr e ]}.

(** Whether the insert of [_create_decision_record] is attempted and
    faults. *)
Definition decision_insert_fails (entities : ExtractedEntities) (message_text : string)
    : bool :=
  Worthy._is_decision_worthy entities message_text
  && db_pool self
  && match insert_decision_fault env with Some _ => true | None => false end.

(** [process_incoming_message]. *)
Definition process_incoming_message (message_id channel_id user_id message_text : string)
    (timestamp : option Datetime) : M World (gmap string value) :=
  let timestamp := default (datetime_now env) timestamp in
  try_except
    (let* entities := (fun w => (w, extraction env)) in
     let* decision_id :=
       (if Worthy._is_decision_worthy entities message_text
        then _create_decision_record message_id channel_id user_id message_text
                                     entities timestamp
        else ret None) in
     let context_message :=
       Buffer.mkMessage message_id user_id message_text
         (Buffer.mkEntityDict (Some (reqs entities)) (Some (components entities))
                              (Some (users_mentioned entities)) (Some (topics entities))
                              (Some (confidence entities)))
         decision_id (isoformat timestamp) channel_id in
     let* redis_success :=
       on_store (Buffer.add_message to_redis_json (redis_connected self) (add_faults env)
                   (buffer_now env) channel_id context_message) in
     let* _ :=
       (if negb redis_success
        then modify (set_stats (fun s =>
               mkStats (messages_processed s) (context_injections s) (gaps_created s)
                       (avg_processing_time_ms s) (redis_failures s + 1) (sql_failures s)))
        else ret tt) in
     let* context_result :=
       _check_context_injection channel_id entities user_id message_id message_text in
     let processing_time := ((end_time env - start_time env) * 1000)%Q in
     let* _ := modify (set_stats (fun s =>
                 let n := (messages_processed s + 1)%Z in
                 mkStats n
                         (context_injections s
                          + (if value_truthy (context_result !! "context_injected") then 1 else 0))
                         (gaps_created s
                          + (if value_truthy (context_result !! "gap_created") then 1 else 0))
                         ((avg_processing_time_ms s * inject_Z (n - 1) + processing_time)
                          / inject_Z n)%Q
                         (redis_failures s) (sql_failures s))) in
     ret (context_result ∪
          ({[ "decision_created" := VBool (opt_truthy decision_id);
              "decision_id" := match decision_id with Some d => VStr d | None => VNone end;
              "entities_extracted" :=
                VInt (Z.of_nat (length (reqs entities ++ components entities)%list));
              "extraction_time_ms" := VFloat (extraction_time_ms entities);
              "processing_time_ms" := VFloat processing_time ]} : gmap string value)))
    (fun e => ret (ingest_failed e)).

(** The row [_create_decision_record] inserts. *)
Definition decision_row (message_id channel_id user_id message_text : string)
    (entities : ExtractedEntities) (timestamp : Datetime) : DecisionRecord :=
  mkDecisionRecord (strftime_ymd_hms timestamp +:+ "_" +:+ String.substring 0 8 message_id)
                   (channel_id +:+ "_" +:+ message_id) timestamp user_id message_text
                   (components entities) (reqs entities) "pending".

(** Whether [process_incoming_message] inserts a decision row: the message
    is decision-worthy, there is a pool, and the insert does not fault. *)
Definition decision_recorded (entities : ExtractedEntities) (message_text : string) : bool :=
  Worthy._is_decision_worthy entities message_text && db_pool self
  && match insert_decision_fault env with None => true | Some _ => false end.

(** The row [_create_gap_if_needed] inserts. *)
Definition gap_row (b_entities : ExtractedEntities) (matching_contexts : list Matching)
    (user_id : string) : GapRecord :=
  mkGapRecord _generate_gap_id "missing_stakeholder" "warning"
              (_generate_gap_description b_entities matching_contexts user_id) user_id
              ("Include " +:+ user_id +:+ " in future discussions about overlapping components").

(** The test [user_was_mentioned] of [_create_gap_if_needed]. *)
Definition user_was_mentioned (matching_contexts : list Matching) (user_id : string) : bool :=
  existsb (fun ctx =>
             Matcher.str_in ("@" +:+ user_id)
               (default [] (Buffer.d_users_mentioned (Buffer.entities (mc_message ctx)))))
          matching_contexts.

End Pipeline.

End Orchestrator.

(** ** [ResponseCache] and [CachedContextResponder] *)

Module Responder.

Import Eff.

Record ContextualResponse := mkResponse {
  response_text : string;
  context_sources : list string;
  confidence : string;
  gap_created : bool;
  gap_id : option string;
  processing_time_ms : Q
}.

(** [self.cache]: key to (response, timestamp), in insertion order. *)
Definition Cache : Type := list (string * (ContextualResponse * Z)).

(** [del d[key]]. *)
Definition dict_del {V} (key : string) (d : list (string * V)) : list (string * V) :=
  List.filter (fun kv => negb (String.eqb (fst kv) key)) d.

(** [min(self.cache.keys(), key=lambda k: self.cache[k][1])]: the first key
    of least timestamp; there is none in an empty cache. *)
Definition oldest_key (cache : Cache) : option string :=
  match cache with
  | [] => None
  | (k, (_, ts)) :: rest =>
      Some (fst (foldl (fun best kv => if (snd (snd kv) <? snd best)%Z
                                       then (fst kv, snd (snd kv)) else best)
                       (k, ts) rest))
  end.

(** [sorted] on a list of strings. *)
Definition sorted_strings : list string -> list string :=
  PyList.stable_sort (fun y x => negb (String.leb x y)).

Section Cache.

(** Python's [hash] on strings, and the two settings of [__init__]. *)
Variable hash : string -> Z.
Variable max_size : Z.
Variable ttl_minutes : Z.

Definition ttl_seconds : Z := ttl_minutes * 60.

Definition _generate_key (user_message : string) (context_sources : list string) : string :=
  let context_key := Gaps.join "_" (sorted_strings context_sources) in
  pretty (hash user_message) +:+ "_" +:+ pretty (hash context_key).

(** [ResponseCache.get], at the clock reading [now]. *)
Definition get (now : Z) (user_message : string) (context_sources : list string)
    : M Cache (option ContextualResponse) :=
  let key := _generate_key user_message context_sources in
  let* cache := Eff.get in
  match Gaps.dict_lookup key cache with
  | Some (cached_response, timestamp) =>
      if (now - timestamp <? ttl_seconds)%Z then ret (Some cached_response)
      else
        let* _ := modify (dict_del key) in
        ret None
  | None => ret None
  end.

(** [ResponseCache.set], at the clock reading [now]. *)
Definition set (now : Z) (user_message : string) (context_sources : list string)
    (response : ContextualResponse) : M Cache unit :=
  let* cache := Eff.get in
  let* _ :=
    (if (Z.of_nat (length cache) >=? max_size)%Z then
       match oldest_key cache with
       | Some oldest => modify (dict_del oldest)
       | None => raise "min() arg is an empty sequence"
       end
     else ret tt) in
  let key := _generate_key user_message context_sources in
  modify (Gaps.dict_set key (response, now)).

(** [CachedContextResponder.generate_response]: [uncached] is what
    [ContextAwareResponder.generate_response] answers for the same
    arguments, [now_get] and [now_set] the clock readings of the two cache
    calls. *)
Definition generate_response (now_get now_set : Z) (uncached : ContextualResponse)
    (user_message : string) (matching_contexts : list Orchestrator.Matching)
    (gap_created : bool) : M Cache ContextualResponse :=
  let context_sources :=
    map (fun ctx => Buffer.message_id (Orchestrator.mc_message ctx)) matching_contexts in
  let* cached_response := get now_get user_message context_sources in
  match cached_response, gap_created with
  | Some cached_response, false => ret cached_response
  | _, _ =>
      let response := uncached in
      let* _ :=
        (if negb gap_created && Matcher.str_in (confidence response) ["high"; "medium"]
         then set now_set user_message context_sources response else ret tt) in
      ret response
  end.

End Cache.

End Responder.

(** ** The buffer against the history of its adds *)

Module BufferInv.

(** The entries of a key as a command issued at [now] sees them. *)
Definition members_at (now : Z) (st : Redis.Store) (key : string) : list Redis.entry :=
  match Redis.live now st key with Some k => Redis.zmembers k | None => [] end.

(** The expiry of a key as a command issued at [now] sees it. *)
Definition expiry_at (now : Z) (st : Redis.Store) (key : string) : option Z :=
  match Redis.live now st key with Some k => Redis.expires_at k | None => None end.

(** Entries in score order. *)
Definition by_score (a b : Redis.entry) : Prop := (snd a <= snd b)%Z.

(** Adds in clock order. *)
Definition by_time (a b : Buffer.LiveContextMessage * Z) : Prop := (snd a <= snd b)%Z.

(** Messages with their add times, newest first. *)
Definition newest_first (a b : Buffer.LiveContextMessage * Z) : Prop := (snd b <= snd a)%Z.

(** The set [zs] against the history [hj] of adds: it is in score order
    without repeated members, holds each of its members at the score of its
    latest add, and every added member it does not hold was last added no
    later than anything it holds. *)
Record buffer_inv (hj zs : list Redis.entry) : Prop := mkInv {
  inv_sorted : StronglySorted by_score zs;
  inv_nodup : NoDup (map fst zs);
  inv_latest : ∀ j s, (j, s) ∈ zs -> (j, s) ∈ hj ∧ ∀ s', (j, s') ∈ hj -> (s' <= s)%Z;
  inv_absent : ∀ j' s', (j', s') ∈ hj -> j' ∉ map fst zs ->
               ∀ j s, (j, s) ∈ zs -> (s' <= s)%Z
}.

(** The invariant on the key of a channel in the store. *)
Definition store_inv (hj : list Redis.entry) (st : Redis.Store) (key : string) : Prop :=
  ∀ k, st !! key = Some k ->
       buffer_inv hj (Redis.zmembers k) ∧ (length (Redis.zmembers k) <= 30)%nat.

Section Serialisation.

Variable to_redis_json : Buffer.LiveContextMessage -> string.
Variable from_redis_json : string -> Buffer.Parse.

(** What has been added so far, as sorted-set entries: serialised message
    and score. *)
Definition json_history (adds : list (Buffer.LiveContextMessage * Z)) : list Redis.entry :=
  map (fun a => (to_redis_json (fst a), snd a)) adds.

(** The entries a read parses, with their scores. *)
Definition tagged (cutoff : Z) (raw : list Redis.entry)
    : list (Buffer.LiveContextMessage * Z) :=
  omap (fun e => if (snd e >=? cutoff)%Z
                 then match from_redis_json (fst e) with
                      | Buffer.Parsed m => Some (m, snd e)
                      | _ => None
                      end
                 else None) raw.

(** What a read answers after its parsing loop: the messages the loop
    collected, or nothing when an exception escaped it. *)
Definition answered (r : Eff.outcome (list Buffer.LiveContextMessage))
    : list Buffer.LiveContextMessage :=
  match r with
  | Eff.Done context_messages => context_messages
  | Eff.Raised _ => []
  end.

(** No entry of [raw] at or after the cutoff makes the parser raise an
    exception that the loop does not catch. *)
Definition parses (cutoff : Z) (raw : list Redis.entry) : Prop :=
  ∀ j s e, (j, s) ∈ raw -> (cutoff <= s)%Z -> from_redis_json j ≠ Buffer.Escapes e.

(** The key of a channel whose adds [hist] all lie less than [BUFFER_TTL]
    back: it is there, expires [BUFFER_TTL] after one of the adds, and
    holds [min 30 (length hist)] of the added members. *)
Definition fresh_inv (hist : list (Buffer.LiveContextMessage * Z)) (st : Redis.Store)
    (key : string) : Prop :=
  match st !! key with
  | None => hist = []
  | Some k =>
      (∃ m t, (m, t) ∈ hist ∧ Redis.expires_at k = Some (t + Buffer.BUFFER_TTL)%Z)
      ∧ length (Redis.zmembers k) = Nat.min 30 (length hist)
      ∧ ∀ j, j ∈ map fst (Redis.zmembers k) -> j ∈ map fst (json_history hist)
  end.

End Serialisation.

(** What one call of [extend_ttl_for_active_channels] over [chs] can do to
    a key between [st] and [st']: nothing, or lift a time to live of less
    than an hour to [BUFFER_TTL]; the members stay. *)
Definition lifted (now : Z) (chs : list string) (st st' : Redis.Store) (key : string) : Prop :=
  Redis.zmembers <$> st' !! key = Redis.zmembers <$> st !! key
  ∧ (st' !! key = st !! key
     ∨ ((0 < Redis.ttl now key st < 3600)%Z
        ∧ Redis.ttl now key st' = Buffer.BUFFER_TTL
        ∧ ∃ ch, ch ∈ chs ∧ key = Buffer._get_channel_key ch)).

End BufferInv.

(** ** Sample data *)

Module Samples.

(** Three embedded decisions, the newest last in the table, made [ts]
    microseconds into 2024-01-15, on a server that returns rows of equal
    timestamp by descending id.  The searches below happen at [clock], a millisecond into
    the day. *)
Definition midnight : Z := 63840873600000000.

Definition clock : Z := midnight + 1000.

Definition row (id : Z) (text : string) (comps : list string) (ts : Z) : Retrieval.DecisionRow :=
  Retrieval.mkRow id text "alice" "Alice" "Hardware Lead" "design_decision" comps []
                  (midnight + ts) None (Some [1%Q; 0%Q]) None "embedded".

Definition database : Retrieval.Database :=
  Retrieval.mkDatabase
    [row 1 "motor torque raised" ["motor"] 100;
     row 2 "pcb stackup changed" ["pcb"] 200;
     row 3 "motor driver replaced" ["motor"; "firmware"] 300]
    [Retrieval.mkProfile "alice" ["motor"]]
    Retrieval.decision_id.

Definition encode (query_text : string) : list Q := [1%Q; 0%Q].

Definition ticks : Retrieval.Ticks := Retrieval.mkTicks 0 0 (1 # 100) (1 # 100) (2 # 100) (2 # 100).

(** The gap-detector scenario: bob, an engineer, owns the three components
    a decision of alice touches, and is not in its thread. *)
Definition bob : Gaps.User := Gaps.mkUser "bob" "Bob" "Firmware Engineer" ["motor"; "pcb"; "firmware"].
Definition alice : Gaps.User := Gaps.mkUser "alice" "Alice" "Hardware Lead" ["power_supply"].

Definition tables : Gaps.Tables :=
  Gaps.mkTables [alice; bob] [("thread-1", "alice")].

Definition drive_decision : Gaps.Decision :=
  Gaps.mkDecision 7 "thread-1" 1000 "alice" "design_decision" "Drive train redesign"
                  ["motor"; "pcb"; "firmware"] [] "Alice" "Hardware Lead".

(** Two decisions on one requirement that contradict each other within a
    day. *)
Definition raise_decision : Gaps.Decision :=
  Gaps.mkDecision 11 "thread-2" 5000 "alice" "requirement_change"
                  "Increase torque 2.0 to 2.5" ["motor"] ["REQ-245"] "Alice" "Hardware Lead".

Definition lower_decision : Gaps.Decision :=
  Gaps.mkDecision 12 "thread-3" 9000 "bob" "requirement_change"
                  "Decrease torque 2.5 to 2.0" ["motor"] ["REQ-245"] "Bob" "Firmware Engineer".

(** The second decision filed under another component: it then shares
    only the requirement with the first. *)
Definition lower_elsewhere : Gaps.Decision :=
  Gaps.mkDecision 12 "thread-3" 9000 "bob" "requirement_change"
                  "Decrease torque 2.5 to 2.0" ["gearbox"] ["REQ-245"] "Bob" "Firmware Engineer".

(** [re.findall] of the change pattern on the two texts.  The pattern asks
    for no space around "to", so it also finds "Increase" followed by the
    "to" of "torque". *)
Definition findall_changes (text : string) : list (string * string) :=
  if String.eqb text "Increase torque 2.0 to 2.5" then [("Increase", "rque"); ("2.0", "2.5")]
  else if String.eqb text "Decrease torque 2.5 to 2.0" then [("Decrease", "rque"); ("2.5", "2.0")]
  else [].

(** Buffer traffic: messages told apart by their id, serialised to it. *)
Definition plain (id : string) : Buffer.LiveContextMessage :=
  Buffer.mkMessage id "alice" "" (Buffer.mkEntityDict None None None None None)
                   None "" "hardware-team".

Definition to_json (m : Buffer.LiveContextMessage) : string := Buffer.message_id m.

Definition from_json (raw : string) : Buffer.Parse := Buffer.Parsed (plain raw).



(** [n] adds, message "i" at second [i], for [i] from 1. *)
Definition burst (n : nat) : list (Buffer.LiveContextMessage * Z) :=
  map (fun i => (plain (pretty i), Z.of_nat i)) (seq 1 n).

(** One ingest: alice's message about REQ-245, serialised to its id. *)
Definition req_entities : ExtractedEntities :=
  mkEntities ["REQ-245"] ["motor"] [] [] (9 # 10) 150.

Definition stamp : Orchestrator.Datetime :=
  Orchestrator.mkDatetime "2024-01-15T14:30:00" "20240115_143000".

Definition sent : Buffer.LiveContextMessage :=
  Buffer.mkMessage "msg_001" "alice" "Updated REQ-245 motor torque"
    (Buffer.mkEntityDict (Some ["REQ-245"]) (Some ["motor"]) (Some []) (Some [])
                         (Some (9 # 10)))
    None "2024-01-15T14:30:00" "hardware-team".

Definition sent_from_json (raw : string) : Buffer.Parse :=
  if String.eqb raw "msg_001" then Buffer.Parsed sent else Buffer.Malformed.

Definition world0 : Orchestrator.World :=
  Orchestrator.mkWorld ∅ [] [] (Orchestrator.mkStats 0 0 0 0 0 0).

(** The outside world when nothing faults, when the decision insert
    faults, and when the [EXPIRE] of the buffer add faults. *)
Definition calm : Orchestrator.Env :=
  Orchestrator.mkEnv (Eff.Done req_entities) stamp 0 (1 # 10) 1000 None Buffer.no_faults
                     None (Eff.Done 1%Z) None (Eff.Done "Related discussion found").

Definition sql_down : Orchestrator.Env :=
  Orchestrator.mkEnv (Eff.Done req_entities) stamp 0 (1 # 10) 1000
                     (Some "connection refused") Buffer.no_faults
                     None (Eff.Done 1%Z) None (Eff.Done "Related discussion found").

Definition expire_down : Orchestrator.Env :=
  Orchestrator.mkEnv (Eff.Done req_entities) stamp 0 (1 # 10) 1000 None
                     (Buffer.mkAddFaults None None (Some "timeout"))
                     None (Eff.Done 1%Z) None (Eff.Done "Related discussion found").

(** One ingest of alice's message. *)
Definition ingest (self : Orchestrator.Connections) (env : Orchestrator.Env)
    : Orchestrator.World * Eff.outcome (gmap string Orchestrator.value) :=
  Orchestrator.process_incoming_message to_json sent_from_json self env
    "msg_001" "hardware-team" "alice" "Updated REQ-245 motor torque" None world0.

(** A field of the dictionary an ingest returned. *)
Definition field (run : Orchestrator.World * Eff.outcome (gmap string Orchestrator.value))
    (key : string) : option Orchestrator.value :=
  match snd run with
  | Eff.Done d => d !! key
  | Eff.Raised _ => None
  end.


(** Alice's message with a decision link, and a serialisation that keeps
    the link. *)
Definition sent_linked (decision_id : option string) : Buffer.LiveContextMessage :=
  Buffer.mkMessage "msg_001" "alice" "Updated REQ-245 motor torque"
    (Buffer.mkEntityDict (Some ["REQ-245"]) (Some ["motor"]) (Some []) (Some [])
                         (Some (9 # 10)))
    decision_id "2024-01-15T14:30:00" "hardware-team".

Definition link_to_json (m : Buffer.LiveContextMessage) : string :=
  match Buffer.decision_id m with
  | Some d => "D" +:+ d
  | None => "N"
  end.

Definition link_from_json (raw : string) : Buffer.Parse :=
  match raw with
  | String "D" d => Buffer.Parsed (sent_linked (Some d))
  | _ => Buffer.Parsed (sent_linked None)
  end.

(** A stand-in for Python's [hash], and a response worth caching. *)
Definition str_hash (s : string) : Z := Z.of_nat (String.length s).

Definition answer : Responder.ContextualResponse :=
  Responder.mkResponse "Related discussion found" ["msg_001"] "high" false None 12.

(** A cache holding two answers, the older one stored at 20. *)
Definition full_cache : Responder.Cache :=
  [ (Responder._generate_key str_hash "gear ratio?" ["msg_001"], (answer, 50%Z));
    (Responder._generate_key str_hash "pcb rev?" ["msg_001"], (answer, 20%Z)) ].

(** What the three uses of [re] find in alice's message. *)
Definition findall_reqs (text : string) : list string :=
  if String.eqb text "Updated REQ-245 motor torque" then ["REQ-245"] else [].

Definition findall_users (text : string) : list string := [].

Definition search (pattern text : string) : bool :=
  String.eqb text "updated req-245 motor torque"
  && (String.eqb pattern "\b(?:motor|actuator|servo|stepper)\b"
      || String.eqb pattern "\b(?:torque|force|power)\b").

End Samples.

(** * Properties *)

(** ** The context matcher *)

Section MatcherFacts.

Import Matcher.

Lemma aggregate_from (field : ExtractedEntities -> list string) buf (acc : gset string) :
  foldl (fun acc entities => acc ∪ list_to_set (field entities)) acc buf
  = acc ∪ ⋃ (map (fun e => list_to_set (field e)) buf).
Proof.
  revert acc. induction buf as [|e buf IH]; intros acc; simpl.
  - set_solver.
  - rewrite IH. set_solver.
Qed.

(** The aggregation loop computes the union of the buffered sets. *)
Lemma aggregate_union field buf :
  aggregate field buf = ⋃ (map (fun e => list_to_set (field e)) buf).
Proof. unfold aggregate. rewrite aggregate_from. set_solver. Qed.

Lemma elem_of_aggregate field buf x :
  x ∈ aggregate field buf ↔ ∃ e, e ∈ buf ∧ x ∈ field e.
Proof.
  rewrite aggregate_union, elem_of_union_list. split.
  - intros (X & HX & Hx). apply list_elem_of_fmap in HX as (e & -> & He).
    exists e. split; [done|]. by apply elem_of_list_to_set in Hx.
  - intros (e & He & Hx). exists (list_to_set (field e)). split.
    + apply list_elem_of_fmap. by exists e.
    + by apply elem_of_list_to_set.
Qed.

Lemma set_len_pos (s : gset string) : s ≠ ∅ -> (set_len s >? 0)%Z = true.
Proof.
  intros Hs. unfold set_len. apply Z.gtb_lt.
  assert (size s ≠ 0%nat) by (intros H0; apply size_empty_inv in H0; set_solver).
  lia.
Qed.

Lemma set_len_empty (s : gset string) : s = ∅ -> set_len s = 0%Z.
Proof. intros ->. unfold set_len. by rewrite size_empty. Qed.

(** Without a requirement or component in common the tier is at most
    "medium". *)
Lemma topic_only_tier b buf :
  list_to_set (reqs b) ∩ aggregate reqs buf = (∅ : gset string) ->
  list_to_set (components b) ∩ aggregate components buf = (∅ : gset string) ->
  fst (calculate_overlap_score b buf) = "medium"
  ∨ fst (calculate_overlap_score b buf) = "none".
Proof.
  intros Hr Hc. unfold calculate_overlap_score.
  destruct buf as [|e buf]; simpl negb; cbv iota; [by right|].
  rewrite (set_len_empty _ Hr), (set_len_empty _ Hc). simpl.
  destruct (_ >=? 2)%Z; [by left|].
  destruct (Qle_bool _ _); [by left|by right].
Qed.

(** The threshold dictionary knows only three keys. *)
Lemma threshold_levels_unknown thr :
  thr ≠ "high" -> thr ≠ "medium" -> thr ≠ "low" ->
  dict_get threshold_levels thr 2%Z = 2%Z.
Proof.
  intros H1 H2 H3. unfold dict_get, threshold_levels.
  rewrite !lookup_insert_ne by done. by rewrite lookup_singleton_ne.
Qed.

End MatcherFacts.

(** C3.  When the message shares a requirement ID with the buffer, the
    overlap is tier "high" with score 2.0 times the number of shared IDs,
    whatever the components, topics and synonyms are; and any overlap
    without a shared requirement or component (a topic-only match) gets a
    tier of strictly lower rank. *)
Theorem requirement_match_dominates (b : ExtractedEntities) (buf : list ExtractedEntities) :
  let shared : gset string :=
    list_to_set (reqs b) ∩ ⋃ (map (fun e => list_to_set (reqs e)) buf) in
  shared ≠ ∅ ->
  Matcher.calculate_overlap_score b buf
    = ("high", (inject_Z (Z.of_nat (size shared)) * 2)%Q)
  ∧ ∀ b' buf',
      list_to_set (reqs b') ∩ ⋃ (map (fun e => list_to_set (reqs e)) buf') = (∅ : gset string) ->
      list_to_set (components b') ∩ ⋃ (map (fun e => list_to_set (components e)) buf')
        = (∅ : gset string) ->
      (dict_get Matcher.confidence_levels (fst (Matcher.calculate_overlap_score b' buf')) 0
       < dict_get Matcher.confidence_levels (fst (Matcher.calculate_overlap_score b buf)) 0)%Z.
Proof.
  intros shared Hshared.
  assert (Hhigh : Matcher.calculate_overlap_score b buf
                  = ("high", (inject_Z (Z.of_nat (size shared)) * 2)%Q)).
  { unfold Matcher.calculate_overlap_score.
    destruct buf as [|e buf].
    - exfalso. apply Hshared. unfold shared. simpl. set_solver.
    - simpl negb. cbv iota. rewrite aggregate_union.
      fold shared. rewrite (set_len_pos _ Hshared). reflexivity. }
  split; [exact Hhigh|].
  intros b' buf' Hr Hc. rewrite Hhigh.
  rewrite <- aggregate_union in Hr, Hc.
  destruct (topic_only_tier b' buf' Hr Hc) as [-> | ->]; vm_compute; reflexivity.
Qed.

Lemma requirement_match_dominates_witness :
  Matcher.calculate_overlap_score
    (mkEntities ["REQ-245"] ["motor"] [] ["torque_specs"] (9 # 10) 150)
    [mkEntities ["REQ-245"; "REQ-246"] ["motor"; "power_supply"] ["@alice"]
                ["torque_specs"; "power_requirements"] (8 # 10) 200]
  = ("high", (inject_Z 1 * 2)%Q).
Proof.
  refine (proj1 (requirement_match_dominates
            (mkEntities ["REQ-245"] ["motor"] [] ["torque_specs"] (9 # 10) 150)
            [mkEntities ["REQ-245"; "REQ-246"] ["motor"; "power_supply"] ["@alice"]
                        ["torque_specs"; "power_requirements"] (8 # 10) 200] _)).
  vm_compute. discriminate.
Defined.

(** C4.  With no requirement ID, component or topic in the new message the
    gate answers [False] (tier "none", score 0) for every buffer and every
    threshold, and it does so without consulting the scorer: the answer is
    the same whatever scorer is plugged in. *)
Theorem empty_entities_never_inject
    (scorer : ExtractedEntities -> list ExtractedEntities -> string * Q)
    (b : ExtractedEntities) (buf : list ExtractedEntities) (threshold : string) :
  reqs b = [] -> components b = [] -> topics b = [] ->
  Matcher.should_inject_context_with scorer b buf threshold = (false, "none", 0%Q)
  ∧ Matcher.should_inject_context b buf threshold = (false, "none", 0%Q).
Proof.
  intros Hr Hc Ht. unfold Matcher.should_inject_context, Matcher.should_inject_context_with.
  rewrite Hr, Hc, Ht. simpl. split; reflexivity.
Qed.

Lemma empty_entities_never_inject_witness :
  Matcher.should_inject_context
    (mkEntities [] [] ["@bob"] [] (6 # 10) 0)
    [mkEntities ["REQ-1"] ["motor"] [] ["thermal_management"] (9 # 10) 0] "low"
  = (false, "none", 0%Q).
Proof.
  exact (proj2 (empty_entities_never_inject Matcher.calculate_overlap_score
                  (mkEntities [] [] ["@bob"] [] (6 # 10) 0)
                  [mkEntities ["REQ-1"] ["motor"] [] ["thermal_management"] (9 # 10) 0]
                  "low" eq_refl eq_refl eq_refl)).
Defined.

(** C10.  A threshold string other than "high", "medium" and "low" is
    treated as "medium": the whole answer of the gate is the one it gives
    for "medium" on the same entities and buffer. *)
Theorem unknown_threshold_is_medium (b : ExtractedEntities) (buf : list ExtractedEntities)
    (threshold : string) :
  threshold ≠ "high" -> threshold ≠ "medium" -> threshold ≠ "low" ->
  Matcher.should_inject_context b buf threshold
  = Matcher.should_inject_context b buf "medium"
  ∧ dict_get Matcher.threshold_levels threshold 2%Z = 2%Z.
Proof.
  intros H1 H2 H3.
  pose proof (threshold_levels_unknown threshold H1 H2 H3) as Hlvl.
  split; [|exact Hlvl].
  unfold Matcher.should_inject_context, Matcher.should_inject_context_with.
  destruct (_ && _); [reflexivity|].
  destruct (Matcher.calculate_overlap_score b buf) as [c s].
  rewrite Hlvl. reflexivity.
Qed.

Lemma unknown_threshold_is_medium_witness :
  Matcher.should_inject_context
    (mkEntities [] ["motor"] [] [] (6 # 10) 0)
    [mkEntities [] ["motor"] [] [] (6 # 10) 0] "urgent"
  = Matcher.should_inject_context
    (mkEntities [] ["motor"] [] [] (6 # 10) 0)
    [mkEntities [] ["motor"] [] [] (6 # 10) 0] "medium".
Proof.
  refine (proj1 (unknown_threshold_is_medium
                   (mkEntities [] ["motor"] [] [] (6 # 10) 0)
                   [mkEntities [] ["motor"] [] [] (6 # 10) 0] "urgent" _ _ _));
    discriminate.
Defined.

(** ** Strings *)

Lemma app_nil_string (s : string) : "" +:+ s = s.
Proof. reflexivity. Qed.

Lemma app_cons_string (c : ascii) (s t : string) : String c s +:+ t = String c (s +:+ t).
Proof. reflexivity. Qed.




(** ** Decision-worthiness *)


(** ** Sorting *)

Section SortFacts.

Context {A : Type}.

Lemma insert_by_elem (precedes : A -> A -> bool) (x z : A) (l : list A) :
  z ∈ PyList.insert_by precedes x l ↔ z = x ∨ z ∈ l.
Proof.
  induction l as [|y l IH]; simpl.
  - set_solver.
  - destruct (precedes y x); set_solver.
Qed.

(** A stable sort keeps exactly the elements it is given. *)
Lemma stable_sort_elem (precedes : A -> A -> bool) (z : A) (l : list A) :
  z ∈ PyList.stable_sort precedes l ↔ z ∈ l.
Proof.
  unfold PyList.stable_sort. induction l as [|x l IH]; simpl.
  - done.
  - rewrite insert_by_elem, IH. set_solver.
Qed.

Lemma insert_by_length (precedes : A -> A -> bool) (x : A) (l : list A) :
  length (PyList.insert_by precedes x l) = S (length l).
Proof. induction l as [|y l IH]; simpl; [done|]. destruct (precedes y x); simpl; lia. Qed.

Lemma stable_sort_length (precedes : A -> A -> bool) (l : list A) :
  length (PyList.stable_sort precedes l) = length l.
Proof.
  unfold PyList.stable_sort. induction l as [|x l IH]; simpl; [done|].
  by rewrite insert_by_length, IH.
Qed.

(** Sorting only rearranges. *)
Lemma insert_by_perm (precedes : A -> A -> bool) (x : A) (l : list A) :
  PyList.insert_by precedes x l ≡ₚ x :: l.
Proof.
  induction l as [|y l IH]; cbn [PyList.insert_by]; [done|].
  destruct (precedes y x); [|done]. rewrite IH. apply Permutation_swap.
Qed.

Lemma stable_sort_perm (precedes : A -> A -> bool) (l : list A) :
  PyList.stable_sort precedes l ≡ₚ l.
Proof.
  unfold PyList.stable_sort. induction l as [|x l IH]; cbn [foldr]; [done|].
  by rewrite insert_by_perm, IH.
Qed.

Variable key : A -> Z.

(** A sort by an order that puts the greater key first, whatever it does
    with equal keys, leaves the keys in descending order. *)
Lemma insert_refined_sorted (precedes : A -> A -> bool) (x : A) (l : list A) :
  (∀ y x, if precedes y x then (key x <= key y)%Z else (key y <= key x)%Z) ->
  StronglySorted (fun a b => (key b <= key a)%Z) l ->
  StronglySorted (fun a b => (key b <= key a)%Z) (PyList.insert_by precedes x l).
Proof.
  intros Hp. induction l as [|y l IH]; intros Hs; cbn [PyList.insert_by].
  - repeat constructor.
  - apply StronglySorted_inv in Hs as [Hl Hy].
    pose proof (Hp y x) as Hyx. destruct (precedes y x).
    + constructor; [by apply IH|].
      apply Forall_forall. intros z Hz. apply insert_by_elem in Hz as [->|Hz].
      * done.
      * by apply (proj1 (Forall_forall _ _) Hy).
    + constructor; [by constructor|].
      constructor; [done|].
      eapply Forall_impl; [exact Hy|]. cbn beta. intros z Hz. lia.
Qed.

Lemma stable_sort_refined_sorted (precedes : A -> A -> bool) (l : list A) :
  (∀ y x, if precedes y x then (key x <= key y)%Z else (key y <= key x)%Z) ->
  StronglySorted (fun a b => (key b <= key a)%Z) (PyList.stable_sort precedes l).
Proof.
  intros Hp. unfold PyList.stable_sort. induction l as [|x l IH]; cbn [foldr].
  - constructor.
  - by apply insert_refined_sorted.
Qed.

Lemma insert_asc_sorted (x : A) (l : list A) :
  StronglySorted (fun a b => (key a <= key b)%Z) l ->
  StronglySorted (fun a b => (key a <= key b)%Z)
                 (PyList.insert_by (fun y x => (key y <? key x)%Z) x l).
Proof.
  induction l as [|y l IH]; intros Hs; simpl.
  - repeat constructor.
  - apply StronglySorted_inv in Hs as [Hl Hy].
    destruct (key y <? key x)%Z eqn:Hlt.
    + constructor; [by apply IH|].
      apply Forall_forall. intros z Hz. apply insert_by_elem in Hz as [->|Hz].
      * lia.
      * by apply (proj1 (Forall_forall _ _) Hy).
    + constructor; [by constructor|].
      constructor; [lia|].
      eapply Forall_impl; [exact Hy|]. simpl. intros z Hz. lia.
Qed.

(** [sorted(l, key=key)] leaves the keys in ascending order. *)
Lemma sorted_asc_sorted (l : list A) :
  StronglySorted (fun a b => (key a <= key b)%Z) (PyList.sorted_asc key l).
Proof.
  unfold PyList.sorted_asc, PyList.stable_sort. induction l as [|x l IH]; simpl.
  - constructor.
  - by apply insert_asc_sorted.
Qed.

Lemma StronglySorted_take (R : A -> A -> Prop) (n : nat) (l : list A) :
  StronglySorted R l -> StronglySorted R (take n l).
Proof.
  intros Hs. rewrite <- (take_drop n l) in Hs. by apply StronglySorted_app_1_l in Hs.
Qed.

Lemma StronglySorted_drop (R : A -> A -> Prop) (n : nat) (l : list A) :
  StronglySorted R l -> StronglySorted R (drop n l).
Proof.
  intros Hs. rewrite <- (take_drop n l) in Hs. by apply StronglySorted_app_1_r in Hs.
Qed.

End SortFacts.

(** ** Hybrid retrieval *)

Section RetrievalFacts.

Import Retrieval.

Variable encode : string -> list Q.


(** Every result of the similarity loop is built from one of the
    candidates. *)
Lemma score_candidates_elem (q : list Q) (cs : list DecisionRow) (rs : list RetrievalResult) :
  score_candidates q cs = Eff.Done rs ->
  ∀ r, r ∈ rs -> ∃ c, c ∈ cs ∧ r = to_result c (r_similarity_score r) (r_embedding r).
Proof.
  revert rs. induction cs as [|c cs IH]; intros rs Hrs r Hr; simpl in Hrs.
  - injection Hrs as <-. by apply elem_of_nil in Hr.
  - destruct (match embedding c with
              | Some (x :: v) => np_dot q (x :: v)
              | _ => Eff.Done 0%Q
              end) as [sim|e]; [|discriminate].
    destruct (score_candidates q cs) as [rs'|e]; [|discriminate].
    injection Hrs as <-. apply elem_of_cons in Hr as [->|Hr].
    + exists c. split; [left|reflexivity].
    + destruct (IH rs' eq_refl r Hr) as (c' & Hc' & Hre). exists c'. split; [by right|done].
Qed.

(** [ORDER BY timestamp DESC] leaves the rows newest first, whatever the
    server does with ties. *)
Lemma order_by_sorted (d : Database) (l : list DecisionRow) :
  StronglySorted (fun a b => (timestamp b <= timestamp a)%Z) (order_by_timestamp_desc d l).
Proof.
  apply stable_sort_refined_sorted. intros y x.
  destruct (Z.ltb_spec (timestamp x) (timestamp y)); cbn [orb]; [lia|].
  destruct (Z.eqb_spec (timestamp x) (timestamp y)); cbn [andb]; [|lia].
  destruct (_ <? _)%Z; lia.
Qed.

(** A stage-1 query that succeeds was given a non-negative limit and
    returns its rows newest first. *)
Lemma sql_filter_done db now uc days author dtype limit candidates :
  sql_filter db now uc days author dtype limit = Eff.Done candidates ->
  (0 <= limit)%Z
  ∧ StronglySorted (fun a b => (timestamp b <= timestamp a)%Z) candidates.
Proof.
  unfold sql_filter. destruct db as [d|]; [|discriminate].
  destruct (days_ago now days) as [cutoff|e]; [|discriminate].
  destruct (limit <? 0)%Z eqn:Hlim; [discriminate|].
  intros [= <-]. split; [lia|].
  apply StronglySorted_take, order_by_sorted.
Qed.

Lemma to_result_carries (c : DecisionRow) (sim : Q) (emb : option (list Q)) :
  carries (to_result c sim emb) c.
Proof. by repeat split. Qed.

(** The similarity loop builds one result from each candidate, in order. *)
Lemma score_candidates_carries (q : list Q) (cs : list DecisionRow) (rs : list RetrievalResult) :
  score_candidates q cs = Eff.Done rs -> Forall2 carries rs cs.
Proof.
  revert rs. induction cs as [|c cs IH]; intros rs Hrs; cbn [score_candidates] in Hrs.
  - injection Hrs as <-. constructor.
  - destruct (match embedding c with
              | Some (x :: v) => np_dot q (x :: v)
              | _ => Eff.Done 0%Q
              end) as [sim|e]; [|discriminate].
    destruct (score_candidates q cs) as [rs'|e]; [|discriminate].
    injection Hrs as <-. constructor; [apply to_result_carries|by apply IH].
Qed.

End RetrievalFacts.

(** A pairing of two lists follows a rearrangement of the first. *)
Lemma Forall2_perm_l {A B} (R : A -> B -> Prop) (l l' : list A) (k : list B) :
  l ≡ₚ l' -> Forall2 R l k -> ∃ k', k ≡ₚ k' ∧ Forall2 R l' k'.
Proof.
  intros Hp. revert k.
  induction Hp as [|x l l' Hp IH|x y l|l l' l'' Hp1 IH1 Hp2 IH2]; intros k Hk.
  - apply Forall2_nil_inv_l in Hk as ->. by exists [].
  - apply Forall2_cons_inv_l in Hk as (b & k0 & Hb & Hk0 & ->).
    destruct (IH k0 Hk0) as (k' & Hk' & HF). exists (b :: k').
    split; [by constructor|by constructor].
  - apply Forall2_cons_inv_l in Hk as (b & k0 & Hb & Hk0 & ->).
    apply Forall2_cons_inv_l in Hk0 as (b' & k1 & Hb' & Hk1 & ->).
    exists (b' :: b :: k1). split; [apply Permutation_swap|by repeat constructor].
  - destruct (IH1 k Hk) as (k' & Hk' & HF'). destruct (IH2 k' HF') as (k'' & Hk'' & HF'').
    exists k''. split; [by etrans|done].
Qed.

(** C6.  Whenever stage 1 yields candidates, the final results of
    [hybrid_search] carry the columns of as many of them, no candidate
    serving twice; and with a blank query (nothing but white space, of
    Unicode's as well) the search succeeds with the first [limit]
    candidates, column by column, in the recency order of stage 1, with
    the row's stored similarity or 0.0 and no embedding, reporting no
    stage-2 time and the query type "sql_only". *)
Theorem hybrid_results_from_candidates
    (encode : string -> list Q) (db : option Retrieval.Database) (now : Z)
    (ticks : Retrieval.Ticks) (user_id query_text : string)
    (user_components : option (list string)) (time_filter_days limit : Z)
    (components : list string) (candidates : list Retrieval.DecisionRow) :
  Retrieval.resolve_components db user_id user_components = Eff.Done components ->
  Retrieval.sql_filter db now components time_filter_days None None (Z.min 100 (limit * 5))
    = Eff.Done candidates ->
  (∀ results stats,
      Retrieval.hybrid_search encode db now ticks user_id query_text user_components
                              time_filter_days limit = Eff.Done (results, stats) ->
      ∃ chosen, chosen ⊆+ candidates ∧ Forall2 Retrieval.carries results chosen)
  ∧ (Py.blank query_text = true ->
      ∃ stats,
        Retrieval.hybrid_search encode db now ticks user_id query_text user_components
                                time_filter_days limit
        = Eff.Done
            (map (fun c =>
                    Retrieval.mkResult
                      (Retrieval.decision_id c) (Retrieval.decision_text c)
                      (Retrieval.author_name c) (Retrieval.author_role c)
                      (Retrieval.affected_components c) (Retrieval.referenced_reqs c)
                      (Retrieval.timestamp c) (default [] (Retrieval.before_after c))
                      (default 0%Q (Retrieval.similarity_score c)) None)
                 (take (Z.to_nat limit) candidates),
             stats)
        ∧ Retrieval.semantic_search_time_ms stats = 0%Q
        ∧ Retrieval.query_type stats = "sql_only"
        ∧ StronglySorted (fun a b => (Retrieval.timestamp b <= Retrieval.timestamp a)%Z)
                         (take (Z.to_nat limit) candidates)).
Proof.
  intros Hcomp Hsql.
  destruct (sql_filter_done _ _ _ _ _ _ _ _ Hsql) as [Hlim Hsorted].
  assert (Hslice : ∀ A (l : list A), PyList.slice_to limit l = take (Z.to_nat limit) l).
  { intros A l. unfold PyList.slice_to. destruct (limit <? 0)%Z eqn:Hneg; [lia|done]. }
  unfold Retrieval.hybrid_search. rewrite Hcomp, Hsql. split.
  - intros results stats Hrun.
    destruct (Py.blank query_text).
    + injection Hrun as <- _. rewrite Hslice.
      exists (take (Z.to_nat limit) candidates).
      split; [apply sublist_submseteq, sublist_take|].
      apply Forall2_fmap_l, Forall_Forall2_diag, Forall_forall. intros c _.
      apply to_result_carries.
    + unfold Retrieval.semantic_search in Hrun.
      destruct (negb (list_truthy candidates)).
      * injection Hrun as <- _. exists []. split; [apply submseteq_nil_l|constructor].
      * destruct (Retrieval.score_candidates (encode query_text) candidates)
          as [scored|e] eqn:Hscored; [|discriminate].
        injection Hrun as <- _. rewrite Hslice.
        apply score_candidates_carries in Hscored.
        destruct (Forall2_perm_l Retrieval.carries scored
                    (Retrieval.sort_by_similarity scored) candidates)
          as (ranked & Hperm & Hranked); [symmetry; apply stable_sort_perm|done|].
        exists (take (Z.to_nat limit) ranked). split; [|by apply Forall2_take].
        rewrite Hperm. apply sublist_submseteq, sublist_take.
  - intros ->. rewrite Hslice. eexists. split; [reflexivity|]. simpl.
    repeat split. by apply StronglySorted_take.
Qed.

(** A query of a no-break space and a space is blank. *)
Lemma hybrid_results_from_candidates_witness :
  ∃ stats,
    Retrieval.hybrid_search Samples.encode (Some Samples.database) Samples.clock Samples.ticks
                            "alice" (String "194" (String "160" " ")) None 30 1
    = Eff.Done
        ([Retrieval.mkResult 3 "motor driver replaced" "Alice" "Hardware Lead"
                             ["motor"; "firmware"] [] (Samples.midnight + 300) [] 0%Q None],
         stats)
    ∧ Retrieval.semantic_search_time_ms stats = 0%Q
    ∧ Retrieval.query_type stats = "sql_only"
    ∧ StronglySorted (fun a b => (Retrieval.timestamp b <= Retrieval.timestamp a)%Z)
                     [Samples.row 3 "motor driver replaced" ["motor"; "firmware"] 300].
Proof.
  exact (proj2 (hybrid_results_from_candidates Samples.encode (Some Samples.database)
                  Samples.clock Samples.ticks "alice" (String "194" (String "160" " ")) None
                  30 1 ["motor"]
                  [Samples.row 3 "motor driver replaced" ["motor"; "firmware"] 300;
                   Samples.row 1 "motor torque raised" ["motor"] 100]
                  eq_refl eq_refl)
               eq_refl).
Defined.

(** ** Missing stakeholders *)

Section StakeholderFacts.

Import Gaps.

(** The users named in [missing] are the owners of an affected component
    who are neither thread participants nor the author. *)
Lemma missing_users (users : list (string * User)) (participants : gset string)
    (author : string) (affected : list string) (x : string) :
  x ∈ map m_user_id (missing_of users participants author (component_owners users affected))
  ↔ (∃ component data, component ∈ affected ∧ (x, data) ∈ users
                        ∧ component ∈ u_owned_components data)
    ∧ (x ∉ participants) ∧ x ≠ author.
Proof.
  unfold missing_of, component_owners. rewrite list_elem_of_fmap. split.
  - intros (m & -> & Hm).
    apply list_elem_of_In, in_flat_map in Hm as ([[uid uname] comp] & Hown & Hm).
    apply in_flat_map in Hown as (component & Hcomp & Hown).
    apply in_flat_map in Hown as ([uid' data] & Hdata & Hown).
    destruct (Matcher.str_in component (u_owned_components data)) eqn:Hin; [|done].
    destruct Hown as [[= <- <- <-]|[]].
    destruct (negb (bool_decide (uid' ∈ participants)) && negb (uid' =? author)%string)
      eqn:Hcond; [|done].
    destruct Hm as [<-|[]]. simpl.
    apply andb_true_iff in Hcond as [Hp Ha].
    apply negb_true_iff, bool_decide_eq_false in Hp.
    apply negb_true_iff, String.eqb_neq in Ha.
    split; [|done]. exists component, data. repeat split; try by apply list_elem_of_In.
    apply existsb_exists in Hin as (y & Hy & Heq). apply String.eqb_eq in Heq as ->.
    by apply list_elem_of_In.
  - intros ((component & data & Hcomp & Hdata & Hown) & Hp & Ha).
    exists (mkMissing x (u_user_name data) component
                      (default "" (u_role <$> dict_lookup x users))).
    split; [done|].
    apply list_elem_of_In, in_flat_map. exists (x, u_user_name data, component). split.
    + apply in_flat_map. exists component. split; [by apply list_elem_of_In|].
      apply in_flat_map. exists (x, data). split; [by apply list_elem_of_In|].
      assert (Matcher.str_in component (u_owned_components data) = true) as ->.
      { apply existsb_exists. exists component. split; [by apply list_elem_of_In|].
        apply String.eqb_refl. }
      by left.
    + assert (negb (bool_decide (x ∈ participants)) && negb (x =? author)%string = true) as ->.
      { apply andb_true_iff. split; apply negb_true_iff.
        - by apply bool_decide_eq_false.
        - by apply String.eqb_neq. }
      by left.
Qed.

(** The severity is decided by the number of entries of [missing], one per
    owner and owned component. *)
Lemma stakeholder_severity_entries (users : list (string * User)) (missing : list Missing) :
  stakeholder_severity users missing = "critical"
  ↔ (2 < length missing)%nat
    ∨ ∃ m, m ∈ missing
           ∧ Py.endswith (default "" (u_role <$> dict_lookup (m_user_id m) users)) "Lead" = true.
Proof.
  unfold stakeholder_severity.
  destruct (Z.of_nat (length missing) >? 2)%Z eqn:Hlen; simpl.
  - split; [intros _; left; lia|done].
  - destruct (existsb _ missing) eqn:Hlead.
    + split; [intros _; right|done].
      apply existsb_exists in Hlead as (m & Hm & Hl). exists m.
      split; [by apply list_elem_of_In|done].
    + split; [done|]. intros [Hgt|(m & Hm & Hl)]; [lia|].
      assert (existsb (fun m => Py.endswith
                (default "" (u_role <$> dict_lookup (m_user_id m) users)) "Lead") missing = true)
        as Hex by (apply existsb_exists; exists m; split; [by apply list_elem_of_In|done]).
      congruence.
Qed.

End StakeholderFacts.

(** C7 on the code.  One engineer who owns the three affected components
    and is outside the thread is a single missing stakeholder without a lead
    role, yet the gap is "critical": the rule counts the three entries of
    the [missing] list. *)
Theorem one_missing_owner_is_critical :
  let gaps := Gaps._detect_missing_stakeholders Samples.tables [Samples.drive_decision] in
  map Gaps.g_severity gaps = ["critical"]
  ∧ map (fun g => list_to_set (map Gaps.m_user_id (Gaps.g_missing_stakeholders g))) gaps
    = [({["bob"]} : gset string)]
  ∧ map (fun g => map Gaps.m_role (Gaps.g_missing_stakeholders g)) gaps
    = [["Firmware Engineer"; "Firmware Engineer"; "Firmware Engineer"]].
Proof. vm_compute. repeat split. Qed.

(** ** The grouping loop *)

Section GroupingFacts.

Import Gaps.

Lemma dict_lookup_cons {V} (k k' : string) (v : V) (d : list (string * V)) :
  dict_lookup k ((k', v) :: d) = if String.eqb k' k then Some v else dict_lookup k d.
Proof. unfold dict_lookup. cbn [find fst]. by destruct (String.eqb k' k). Qed.

Lemma dict_lookup_append {V} (key : string) (x : V) (d : list (string * list V)) (k : string) :
  dict_lookup k (dict_append key x d)
  = if String.eqb key k then Some (default [] (dict_lookup key d) ++ [x])%list
    else dict_lookup k d.
Proof.
  induction d as [|[k' xs] d IH]; cbn [dict_append].
  - rewrite dict_lookup_cons. by destruct (String.eqb key k).
  - destruct (String.eqb_spec k' key) as [->|Hne].
    + rewrite !dict_lookup_cons, String.eqb_refl. by destruct (String.eqb key k).
    + rewrite !dict_lookup_cons, IH.
      destruct (String.eqb_spec k' k) as [->|Hne'].
      * destruct (String.eqb_spec key k) as [->|_]; [done|done].
      * destruct (String.eqb_spec k' key) as [->|_]; [done|]. done.
Qed.

Lemma dict_append_keys {V} (key : string) (x : V) (d : list (string * list V)) :
  NoDup (map fst d) ->
  NoDup (map fst (dict_append key x d))
  ∧ ∀ k, k ∈ map fst (dict_append key x d) -> k = key ∨ k ∈ map fst d.
Proof.
  induction d as [|[k' xs] d IH]; cbn [dict_append map fst].
  - intros _. split; [apply NoDup_singleton|]. intros k ->%list_elem_of_singleton. by left.
  - intros [Hk' Hd]%NoDup_cons. destruct (String.eqb_spec k' key) as [->|Hne]; cbn [map fst].
    + split; [by apply NoDup_cons|]. intros k Hk. by right.
    + destruct (IH Hd) as [Hnd Hsub]. split.
      * apply NoDup_cons. split; [|done]. intros Hin. destruct (Hsub k' Hin); [done|done].
      * intros k [->|Hk]%elem_of_cons; [right; by left|].
        destruct (Hsub k Hk); [by left|right; by right].
Qed.

Lemma dict_lookup_elem {V} (d : list (string * V)) (k : string) (v : V) :
  NoDup (map fst d) -> ((k, v) ∈ d ↔ dict_lookup k d = Some v).
Proof.
  induction d as [|[k' v'] d IH]; [intros _; split; [by intros ?%elem_of_nil|done]|].
  cbn [map fst]. intros [Hk' Hd]%NoDup_cons. rewrite dict_lookup_cons, elem_of_cons.
  destruct (String.eqb_spec k' k) as [->|Hne].
  - split; [|intros [= ->]; by left].
    intros [[= ->]|Hin]; [done|]. destruct Hk'. apply list_elem_of_fmap. by exists (k, v).
  - rewrite <- IH by done. split; [intros [[= -> _]|?]; done|by right].
Qed.

Lemma files_inner (keys : Decision -> list string) (seen : list Decision) (x : Decision)
    (ks : list string) :
  ∀ (filed : list string) (groups : list (string * list Decision)),
    files keys seen (fun k => flat_map (fun k' => if String.eqb k' k then [x] else []) filed)
          groups ->
    files keys seen
          (fun k => flat_map (fun k' => if String.eqb k' k then [x] else []) (filed ++ ks))
          (foldl (fun d key => dict_append key x d) groups ks).
Proof.
  induction ks as [|key ks IH]; intros filed groups Hg; cbn [foldl].
  - by rewrite app_nil_r.
  - replace (filed ++ key :: ks)%list with ((filed ++ [key]) ++ ks)%list
      by (by rewrite <- app_assoc).
    apply IH. destruct Hg as [Hnd Hlook]. split; [by apply dict_append_keys|].
    intros k. rewrite dict_lookup_append, flat_map_app. cbn [flat_map]. rewrite app_nil_r.
    destruct (String.eqb_spec key k) as [->|Hne].
    + rewrite Hlook, app_assoc.
      destruct (filed_under keys k seen ++ flat_map _ filed)%list as [|g0 gs];
        cbn [default app]; done.
    + rewrite app_nil_r. apply Hlook.
Qed.

Lemma files_outer (keys : Decision -> list string) (todo : list Decision) :
  ∀ (seen : list Decision) (groups : list (string * list Decision)),
    files keys seen (fun _ => []) groups ->
    files keys (seen ++ todo) (fun _ => [])
          (foldl (fun d decision =>
                    foldl (fun d key => dict_append key decision d) d (keys decision))
                 groups todo).
Proof.
  induction todo as [|x todo IH]; intros seen groups Hg; cbn [foldl].
  - by rewrite app_nil_r.
  - replace (seen ++ x :: todo)%list with ((seen ++ [x]) ++ todo)%list
      by (by rewrite <- app_assoc).
    apply IH.
    pose proof (files_inner keys seen x (keys x) [] groups Hg) as [Hnd Hlook].
    split; [done|]. intros k. rewrite Hlook. cbn [app].
    unfold filed_under. rewrite flat_map_app. cbn [flat_map]. by rewrite !app_nil_r.
Qed.





Lemma filed_under_elem (keys : Decision -> list string) (k : string) (ds : list Decision)
    (d : Decision) :
  d ∈ filed_under keys k ds ↔ d ∈ ds ∧ k ∈ keys d.
Proof.
  unfold filed_under. rewrite list_elem_of_In, in_flat_map. split.
  - intros (d' & Hd' & Hin). apply in_flat_map in Hin as (k' & Hk' & Hin).
    destruct (String.eqb_spec k' k) as [->|]; [|done]. destruct Hin as [<-|[]].
    split; by apply list_elem_of_In.
  - intros [Hd Hk]. exists d. split; [by apply list_elem_of_In|].
    apply in_flat_map. exists k. split; [by apply list_elem_of_In|].
    rewrite String.eqb_refl. by left.
Qed.

End GroupingFacts.

(** ** Conflicts *)

Section ConflictFacts.

Import Gaps.

Lemma consecutive_elem {A} (l : list A) (p c : A) :
  (p, c) ∈ consecutive l -> ∃ l1 l2, l = (l1 ++ p :: c :: l2)%list.
Proof.
  induction l as [|x l IH]; simpl; [by intros ?%elem_of_nil|].
  destruct l as [|y l]; [by intros ?%elem_of_nil|].
  intros [[= -> ->]|Hin]%elem_of_cons.
  - by exists [], l.
  - destruct (IH Hin) as (l1 & l2 & ->). by exists (x :: l1), l2.
Qed.






Variable findall_changes : string -> list (string * string).


Lemma circular_pairs_critical (l : list Change) (c : Conflict) :
  c ∈ circular_pairs l -> c_severity c = "critical" ∧ c_type c = "circular_change".
Proof.
  induction l as [|x l IH]; simpl; [by intros ?%elem_of_nil|].
  intros [Hc|Hc]%elem_of_app; [|by apply IH].
  apply list_elem_of_In, in_flat_map in Hc as (y & _ & Hc).
  destruct (_ && _); [|done]. by destruct Hc as [<-|[]].
Qed.












End ConflictFacts.



(** C8 as stated fails: the two sample decisions filed under different
    components share REQ-245, and one changes 2.0 to 2.5 where the other
    changes 2.5 to 2.0; the antonyms are reported, the circular change is
    not. *)
Lemma circular_change_goes_unreported :
  "REQ-245" ∈ Gaps.referenced_reqs Samples.raise_decision
  ∧ "REQ-245" ∈ Gaps.referenced_reqs Samples.lower_elsewhere
  ∧ ("2.0", "2.5") ∈ Samples.findall_changes (Gaps.decision_text Samples.raise_decision)
  ∧ ("2.5", "2.0") ∈ Samples.findall_changes (Gaps.decision_text Samples.lower_elsewhere)
  ∧ map Gaps.c_type
        (Gaps._detect_conflicts Samples.findall_changes
           [Samples.raise_decision; Samples.lower_elsewhere])
    = ["requirement_conflict"].
Proof.
  split; [vm_compute; left|]. split; [vm_compute; left|].
  split; [vm_compute; right; left|]. split; [vm_compute; right; left|].
  vm_compute. reflexivity.
Qed.

(** ** The live buffer *)

Section BufferFacts.

Import BufferInv.
Variable to_json : Buffer.LiveContextMessage -> string.
Variable from_json : string -> Buffer.Parse.

#[local] Abbreviation json_history := (BufferInv.json_history to_json).
#[local] Abbreviation tagged := (BufferInv.tagged from_json).
#[local] Abbreviation parses := (BufferInv.parses from_json).
#[local] Abbreviation fresh_inv := (BufferInv.fresh_inv to_json).

Lemma rank_range_trim (len : Z) :
  (0 <= len)%Z ->
  Redis.rank_range len 0 (- (Buffer.MAX_MESSAGES_PER_CHANNEL + 1))
  = if (len <=? 30)%Z then None else Some (0, len - 31)%Z.
Proof.
  intros Hlen. unfold Redis.rank_range, Buffer.MAX_MESSAGES_PER_CHANNEL.
  rewrite !Z.gtb_ltb, !Z.geb_leb.
  repeat match goal with
         | |- context [(?a <? ?b)%Z] => destruct (Z.ltb_spec a b)
         | |- context [(?a <=? ?b)%Z] => destruct (Z.leb_spec a b)
         end; simpl; try lia; try reflexivity; do 2 f_equal; lia.
Qed.

Lemma live_expiry (now : Z) (st : Redis.Store) (key : string) (e : Z) :
  expiry_at now st key = Some e -> (now <= e)%Z.
Proof.
  unfold expiry_at, Redis.live. destruct (st !! key) as [k|]; [|done].
  destruct (Redis.expires_at k) as [e'|] eqn:He; [|by rewrite He].
  destruct (Z.ltb_spec e' now); [done|]. rewrite He. intros [= ->]. done.
Qed.

Lemma live_insert (now : Z) (st : Redis.Store) (key : string) (k : Redis.ZKey) :
  (∀ e, Redis.expires_at k = Some e -> (now <= e)%Z) ->
  Redis.live now (<[key := k]> st) key = Some k.
Proof.
  intros Hk. unfold Redis.live. rewrite lookup_insert_eq.
  destruct (Redis.expires_at k) as [e|]; [|done].
  specialize (Hk e eq_refl). destruct (Z.ltb_spec e now); [lia|done].
Qed.

Lemma zadd_store (now : Z) (key member : string) (score : Z) (st : Redis.Store) :
  Redis.zadd now key member score st
  = <[key := Redis.mkZKey
               (Redis.zinsert (member, score) (Redis.zremove member (members_at now st key)))
               (expiry_at now st key)]> st.
Proof. unfold Redis.zadd, members_at, expiry_at. by destruct (Redis.live now st key). Qed.

Lemma zinsert_length (x : Redis.entry) (zs : list Redis.entry) :
  length (Redis.zinsert x zs) = S (length zs).
Proof. induction zs as [|y zs IH]; simpl; [done|]. destruct (Redis.entry_leb x y); simpl; lia. Qed.

(** The trim of [add_message] keeps the 30 highest ranks. *)
Lemma trim_store (now : Z) (key : string) (st : Redis.Store) (zs : list Redis.entry)
    (exp : option Z) :
  (∀ e, exp = Some e -> (now <= e)%Z) -> zs ≠ [] ->
  Redis.zremrangebyrank now key 0 (- (Buffer.MAX_MESSAGES_PER_CHANNEL + 1))
    (<[key := Redis.mkZKey zs exp]> st)
  = <[key := Redis.mkZKey (drop (length zs - 30) zs) exp]> st.
Proof.
  intros Hexp Hzs. unfold Redis.zremrangebyrank.
  rewrite live_insert by done. cbn [Redis.zmembers Redis.expires_at].
  rewrite rank_range_trim by lia.
  destruct (Z.leb_spec (Z.of_nat (length zs)) 30) as [Hle|Hgt].
  - replace (length zs - 30)%nat with 0%nat by lia. done.
  - cbn [take app]. replace (Z.to_nat (Z.of_nat (length zs) - 31 + 1)) with (length zs - 30)%nat by lia.
    destruct (drop (length zs - 30) zs) as [|z zs'] eqn:Hdrop.
    + apply (f_equal length) in Hdrop. rewrite length_drop in Hdrop. simpl in Hdrop. lia.
    + by rewrite insert_insert_eq.
Qed.

Lemma expire_store (now : Z) (key : string) (seconds : Z) (st : Redis.Store)
    (zs : list Redis.entry) (exp : option Z) :
  (∀ e, exp = Some e -> (now <= e)%Z) ->
  Redis.expire now key seconds (<[key := Redis.mkZKey zs exp]> st)
  = <[key := Redis.mkZKey zs (Some (now + seconds)%Z)]> st.
Proof.
  intros Hexp. unfold Redis.expire. rewrite live_insert by done.
  by rewrite insert_insert_eq.
Qed.

(** A fault-free add on a connected buffer: the member is (re)inserted at
    its rank, the set is trimmed to its 30 highest ranks, and the key
    expires [BUFFER_TTL] from now. *)
Lemma add_message_store (st : Redis.Store) (now : Z) (ch : string) (m : Buffer.LiveContextMessage) :
  let key := Buffer._get_channel_key ch in
  let zs1 := Redis.zinsert (to_json m, now) (Redis.zremove (to_json m) (members_at now st key)) in
  Buffer.add_message to_json true Buffer.no_faults now ch m st
  = (<[key := Redis.mkZKey (drop (length zs1 - 30) zs1) (Some (now + Buffer.BUFFER_TTL)%Z)]> st,
     Eff.Done true).
Proof.
  intros key zs1. unfold Buffer.add_message. simpl negb. cbv iota.
  unfold Eff.try_except, Eff.bind, Eff.call, Eff.modify, Eff.ret. simpl.
  fold key. f_equal.
  rewrite zadd_store. fold zs1.
  assert (Hexp : ∀ e, expiry_at now st key = Some e -> (now <= e)%Z)
    by (intros e; apply live_expiry).
  rewrite trim_store; [|done|].
  - by rewrite expire_store.
  - intros Hnil. apply (f_equal length) in Hnil. unfold zs1 in Hnil.
    rewrite zinsert_length in Hnil. done.
Qed.

(** *** The sorted set *)

Lemma zremove_elem (member : string) (zs : list Redis.entry) (e : Redis.entry) :
  e ∈ Redis.zremove member zs ↔ e ∈ zs ∧ fst e ≠ member.
Proof.
  unfold Redis.zremove. rewrite !list_elem_of_In, filter_In, negb_true_iff, String.eqb_neq.
  done.
Qed.

Lemma zinsert_elem (x e : Redis.entry) (zs : list Redis.entry) :
  e ∈ Redis.zinsert x zs ↔ e = x ∨ e ∈ zs.
Proof.
  induction zs as [|y zs IH]; simpl; [set_solver|].
  destruct (Redis.entry_leb x y); set_solver.
Qed.

Lemma entry_leb_true (a b : Redis.entry) : Redis.entry_leb a b = true -> by_score a b.
Proof.
  unfold Redis.entry_leb, by_score. intros [H|H]%orb_true_iff; [lia|].
  apply andb_true_iff in H as [H _]. lia.
Qed.

Lemma entry_leb_false (a b : Redis.entry) : Redis.entry_leb a b = false -> by_score b a.
Proof.
  unfold Redis.entry_leb, by_score. intros [H _]%orb_false_iff. lia.
Qed.

Lemma zremove_sorted (member : string) (zs : list Redis.entry) :
  StronglySorted by_score zs -> StronglySorted by_score (Redis.zremove member zs).
Proof.
  induction 1 as [|a l Hl IH Ha]; simpl; [constructor|].
  destruct (negb _); [|done]. constructor; [done|].
  apply Forall_forall. intros e He. apply zremove_elem in He as [He _].
  by apply (proj1 (Forall_forall _ _) Ha).
Qed.

Lemma zinsert_sorted (x : Redis.entry) (zs : list Redis.entry) :
  StronglySorted by_score zs -> StronglySorted by_score (Redis.zinsert x zs).
Proof.
  induction 1 as [|a l Hl IH Ha]; simpl; [repeat constructor|].
  destruct (Redis.entry_leb x a) eqn:Hxa.
  - apply entry_leb_true in Hxa. constructor; [by constructor|].
    constructor; [done|]. eapply Forall_impl; [exact Ha|].
    unfold by_score in *. simpl. intros; lia.
  - apply entry_leb_false in Hxa. constructor; [done|].
    apply Forall_forall. intros e He. apply zinsert_elem in He as [->|He]; [done|].
    by apply (proj1 (Forall_forall _ _) Ha).
Qed.

Lemma zremove_members (member : string) (zs : list Redis.entry) :
  NoDup (map fst zs) -> NoDup (map fst (Redis.zremove member zs)) ∧ member ∉ map fst (Redis.zremove member zs).
Proof.
  intros Hnd. split.
  - unfold Redis.zremove. induction zs as [|a l IH]; simpl; [constructor|].
    apply NoDup_cons in Hnd as [Ha Hl]. destruct (negb _); [|by apply IH].
    simpl. apply NoDup_cons. split; [|by apply IH].
    intros (e & He1 & He2)%list_elem_of_fmap. apply Ha. apply list_elem_of_fmap.
    exists e. split; [done|]. apply list_elem_of_In, filter_In in He2 as [He2 _].
    by apply list_elem_of_In.
  - intros (e & -> & He)%list_elem_of_fmap. by apply zremove_elem in He as [_ He].
Qed.

Lemma zinsert_members (x : Redis.entry) (zs : list Redis.entry) :
  NoDup (map fst zs) -> fst x ∉ map fst zs -> NoDup (map fst (Redis.zinsert x zs)).
Proof.
  induction zs as [|a l IH]; simpl; intros Hnd Hx.
  - apply NoDup_singleton.
  - destruct (Redis.entry_leb x a); simpl.
    + apply NoDup_cons. split; [done|done].
    + apply NoDup_cons in Hnd as [Ha Hl]. apply NoDup_cons. split.
      * intros (e & He1 & He2)%list_elem_of_fmap. apply zinsert_elem in He2 as [->|He2].
        -- apply Hx. rewrite He1. left.
        -- apply Ha. apply list_elem_of_fmap. by exists e.
      * apply IH; [done|]. intros Hin. apply Hx. by right.
Qed.


(** *** The buffer invariant *)

Lemma inv_nil (hj : list Redis.entry) : buffer_inv hj [].
Proof.
  split; [constructor|constructor| |]; intros; exfalso; eapply elem_of_nil; eassumption.
Qed.

Lemma member_elem (zs : list Redis.entry) (j : string) :
  j ∈ map fst zs ↔ ∃ s, (j, s) ∈ zs.
Proof.
  rewrite list_elem_of_fmap. split.
  - intros ([j' s] & -> & He). by exists s.
  - intros (s & Hs). by exists (j, s).
Qed.

Lemma inv_insert (hj zs : list Redis.entry) (j : string) (t : Z) :
  buffer_inv hj zs ->
  (∀ j' s', (j', s') ∈ hj -> (s' <= t)%Z) ->
  buffer_inv (hj ++ [(j, t)]) (Redis.zinsert (j, t) (Redis.zremove j zs)).
Proof.
  intros [Hs Hn Hl Ha] Ht.
  destruct (zremove_members j zs Hn) as [Hn' Hj].
  split.
  - by apply zinsert_sorted, zremove_sorted.
  - by apply zinsert_members.
  - intros j1 s1 [[= -> ->]|[He Hne]%zremove_elem]%zinsert_elem.
    + split; [set_solver|]. intros s' [Hin|Hin]%elem_of_app.
      * by eapply Ht.
      * apply list_elem_of_singleton in Hin as [= ->]. lia.
    + simpl in Hne. destruct (Hl _ _ He) as [Hin Hmax]. split; [set_solver|].
      intros s' [Hin'|Hin']%elem_of_app; [by apply Hmax|].
      apply list_elem_of_singleton in Hin' as [= -> ->]. done.
  - intros j' s' Hin Hnot j1 s1 He.
    assert (Hne : j' ≠ j).
    { intros ->. apply Hnot, member_elem. exists t. apply zinsert_elem. by left. }
    apply elem_of_app in Hin as [Hin|Hin];
      [|apply list_elem_of_singleton in Hin as [= -> ->]; done].
    apply zinsert_elem in He as [[= -> ->]|[He _]%zremove_elem]; [by eapply Ht|].
    eapply Ha; [exact Hin| |exact He].
    intros (sx & Hsx)%member_elem. apply Hnot, member_elem. exists sx.
    apply zinsert_elem. right. apply zremove_elem. done.
Qed.

Lemma inv_drop (hj zs : list Redis.entry) (n : nat) :
  buffer_inv hj zs -> buffer_inv hj (drop n zs).
Proof.
  intros [Hs Hn Hl Ha].
  assert (Hsub : ∀ e, e ∈ drop n zs -> e ∈ zs).
  { intros e He. rewrite <- (take_drop n zs). apply elem_of_app. by right. }
  split.
  - by apply StronglySorted_drop.
  - rewrite <- (take_drop n zs), map_app in Hn. by apply NoDup_app in Hn as (_ & _ & Hn).
  - intros j s He. apply Hl. by apply Hsub.
  - intros j' s' Hin Hnot j s He.
    destruct (decide (j' ∈ map fst zs)) as [Hmem|Hmem].
    + apply member_elem in Hmem as (sx & Hsx).
      destruct (Hl _ _ Hsx) as [_ Hmax]. specialize (Hmax _ Hin).
      rewrite <- (take_drop n zs) in Hsx, Hs.
      apply elem_of_app in Hsx as [Hsx|Hsx].
      * pose proof (StronglySorted_app_1_elem_of _ _ _ _ _ Hs Hsx He) as Hle.
        unfold by_score in Hle. simpl in Hle. lia.
      * exfalso. apply Hnot, member_elem. by exists sx.
    + eapply Ha; [exact Hin|exact Hmem|]. by apply Hsub.
Qed.

Lemma members_at_inv (hj : list Redis.entry) (st : Redis.Store) (key : string) (now : Z) :
  store_inv hj st key -> buffer_inv hj (members_at now st key).
Proof.
  intros Hst. unfold members_at, Redis.live.
  destruct (st !! key) as [k|] eqn:Hk; [|apply inv_nil].
  destruct (Hst k Hk) as [Hinv _].
  destruct (Redis.expires_at k) as [e|]; [|done].
  destruct (e <? now)%Z; [apply inv_nil|done].
Qed.

Lemma members_at_length (hj : list Redis.entry) (st : Redis.Store) (key : string) (now : Z) :
  store_inv hj st key -> (length (members_at now st key) <= 30)%nat.
Proof.
  intros Hst. unfold members_at, Redis.live.
  destruct (st !! key) as [k|] eqn:Hk; [|simpl; lia].
  destruct (Hst k Hk) as [_ Hlen].
  destruct (Redis.expires_at k) as [e|]; [|done].
  destruct (e <? now)%Z; [simpl; lia|done].
Qed.

(** Adds made in clock order keep the invariant. *)
Lemma add_all_inv (ch : string) (adds hist : list (Buffer.LiveContextMessage * Z))
    (st : Redis.Store) :
  store_inv (json_history hist) st (Buffer._get_channel_key ch) ->
  StronglySorted by_time (hist ++ adds) ->
  store_inv (json_history (hist ++ adds)) (Buffer.add_all to_json ch adds st)
            (Buffer._get_channel_key ch).
Proof.
  revert hist st. induction adds as [|[m t] adds IH]; intros hist st Hst Hsorted.
  - by rewrite app_nil_r.
  - cbn [Buffer.add_all]. rewrite add_message_store. cbn [fst].
    replace (hist ++ (m, t) :: adds)%list with ((hist ++ [(m, t)]) ++ adds)%list
      by (by rewrite <- app_assoc).
    apply IH; [|by rewrite <- app_assoc].
    intros k Hk. rewrite lookup_insert_eq in Hk. injection Hk as <-.
    cbn [Redis.zmembers]. split; [|rewrite length_drop; lia].
    apply inv_drop. unfold json_history. rewrite map_app. simpl.
    apply inv_insert; [by apply members_at_inv|].
    intros j' s' ([m' t'] & [= -> ->] & Hin)%list_elem_of_fmap. simpl.
    assert ((m, t) ∈ (m, t) :: adds) as Hmt by left.
    exact (StronglySorted_app_1_elem_of _ _ _ _ _ Hsorted Hin Hmt).
Qed.


(** *** Reading the buffer *)

Lemma get_recent_context_run (st : Redis.Store) (now : Z) (ch : string) (maxm maxage : Z) :
  Buffer.get_recent_context from_json true None now ch maxm maxage st
  = (st, Eff.Done (answered (Buffer.parse_recent from_json (now - maxage * 60)
                               (Redis.zrevrange now (Buffer._get_channel_key ch) 0
                                                (maxm - 1) st)))).
Proof.
  unfold Buffer.get_recent_context, Eff.try_except, Eff.bind, Eff.call, Eff.get, Eff.ret,
    Eff.raise.
  cbn [negb]. destruct (Redis.zrevrange _ _ _ _ _) as [|e raw]; [done|].
  cbn [list_truthy negb]. by destruct (Buffer.parse_recent _ _ _).
Qed.

(** A reverse range from rank 0 is a prefix of the set read from its
    highest score down. *)
Lemma zrevrange_prefix (now : Z) (key : string) (stop : Z) (st : Redis.Store) :
  ∃ n, Redis.zrevrange now key 0 stop st = take n (rev (members_at now st key)).
Proof.
  unfold Redis.zrevrange, members_at. destruct (Redis.live now st key) as [k|]; [|by exists 0%nat].
  unfold Redis.rank_range. change (0 <? 0)%Z with false. cbv iota.
  destruct (_ || _); [by exists 0%nat|]. by eexists.
Qed.

(** The loop either collects what parses, or an entry inside the window
    makes an exception escape. *)
Lemma parse_recent_cases (cutoff : Z) (raw : list Redis.entry) :
  Buffer.parse_recent from_json cutoff raw = Eff.Done (map fst (tagged cutoff raw))
  ∨ ∃ j s e, (j, s) ∈ raw ∧ (cutoff <= s)%Z ∧ from_json j = Buffer.Escapes e
             ∧ Buffer.parse_recent from_json cutoff raw = Eff.Raised e.
Proof.
  induction raw as [|[j s] raw IH]; [by left|].
  cbn [Buffer.parse_recent]. unfold tagged. cbn [omap list_omap fst snd].
  fold (tagged cutoff raw).
  assert (Hrest : (∃ j' s' e, (j', s') ∈ raw ∧ (cutoff <= s')%Z
                              ∧ from_json j' = Buffer.Escapes e
                              ∧ Buffer.parse_recent from_json cutoff raw = Eff.Raised e) ->
                  ∀ r, r = Buffer.parse_recent from_json cutoff raw ->
                  ∃ j' s' e, (j', s') ∈ (j, s) :: raw ∧ (cutoff <= s')%Z
                             ∧ from_json j' = Buffer.Escapes e ∧ r = Eff.Raised e).
  { intros (j' & s' & e & Hin & Hc & He & Hr) r ->. exists j', s', e.
    split; [by right|]. by rewrite Hr. }
  destruct (Z.geb_spec s cutoff) as [Hc|Hc].
  - destruct (from_json j) as [m| |e] eqn:Hj.
    + destruct IH as [->|IH]; [by left|]. right.
      destruct IH as (j' & s' & e & Hin & Hc' & He & Hr). exists j', s', e.
      split; [by right|]. by rewrite Hr.
    + destruct IH as [->|IH]; [by left|]. right. by apply Hrest.
    + right. exists j, s, e. split; [by left|]. split; [lia|done].
  - destruct IH as [->|IH]; [by left|]. right. by apply Hrest.
Qed.

Lemma parse_recent_tagged (cutoff : Z) (raw : list Redis.entry) :
  parses cutoff raw ->
  Buffer.parse_recent from_json cutoff raw = Eff.Done (map fst (tagged cutoff raw)).
Proof.
  intros Hp. destruct (parse_recent_cases cutoff raw)
    as [H|(j & s & e & Hin & Hc & He & _)]; [done|].
  by destruct (Hp j s e).
Qed.


Lemma tagged_elem (cutoff : Z) (raw : list Redis.entry) (m : Buffer.LiveContextMessage) (s : Z) :
  (m, s) ∈ tagged cutoff raw
  ↔ ∃ j, (j, s) ∈ raw ∧ (cutoff <= s)%Z ∧ from_json j = Buffer.Parsed m.
Proof.
  unfold tagged. rewrite list_elem_of_omap. split.
  - intros ([j s'] & He & Hf). simpl in Hf. destruct (Z.geb_spec s' cutoff); [|done].
    destruct (from_json j) as [m'| |] eqn:Hj; [|done|done]. injection Hf as <- <-. by exists j.
  - intros (j & He & Hc & Hj). exists (j, s). split; [done|]. simpl.
    destruct (Z.geb_spec s cutoff); [|lia]. by rewrite Hj.
Qed.

Lemma tagged_sorted (cutoff : Z) (raw : list Redis.entry) :
  StronglySorted (flip by_score) raw -> StronglySorted newest_first (tagged cutoff raw).
Proof.
  induction 1 as [|[j s] raw Hraw IH Hall]; [constructor|].
  unfold tagged. cbn [omap list_omap fst snd]. fold (tagged cutoff raw).
  destruct (s >=? cutoff)%Z; [|done]. destruct (from_json j) as [m| |]; [|done|done].
  simpl. constructor; [done|]. apply Forall_forall. intros [m' s'] (j' & He & _ & _)%tagged_elem.
  exact (proj1 (Forall_forall _ _) Hall _ He).
Qed.

Lemma tagged_length (cutoff : Z) (raw : list Redis.entry) :
  (length (tagged cutoff raw) <= length raw)%nat.
Proof.
  induction raw as [|[j s] raw IH]; simpl; [done|].
  destruct (s >=? cutoff)%Z; [|lia]. destruct (from_json j); simpl; lia.
Qed.

Lemma tagged_all (cutoff : Z) (raw : list Redis.entry) :
  (∀ j s, (j, s) ∈ raw -> (cutoff <= s)%Z ∧ ∃ m, from_json j = Buffer.Parsed m) ->
  length (tagged cutoff raw) = length raw.
Proof.
  induction raw as [|[j s] raw IH]; intros Hall; simpl; [done|].
  destruct (Hall j s) as [Hc [m Hm]]; [left|].
  destruct (Z.geb_spec s cutoff); [|lia]. rewrite Hm. simpl. f_equal. apply IH.
  intros j' s' Hin. apply Hall. by right.
Qed.

Lemma elem_of_rev {A} (x : A) (l : list A) : x ∈ rev l ↔ x ∈ l.
Proof. rewrite !list_elem_of_In. symmetry. apply in_rev. Qed.

Lemma StronglySorted_rev {A} (R : A -> A -> Prop) (l : list A) :
  StronglySorted R l -> StronglySorted (flip R) (rev l).
Proof.
  induction 1 as [|a l Hl IH Ha]; simpl; [constructor|].
  apply StronglySorted_app. split; [|split].
  - intros x y Hx Hy. apply list_elem_of_singleton in Hy. subst y. unfold flip.
    apply (proj1 (Forall_forall _ _) Ha). exact (proj1 (elem_of_rev _ _) Hx).
  - done.
  - repeat constructor.
Qed.


(** *** A buffer that never went cold *)

Lemma zremove_absent (member : string) (zs : list Redis.entry) :
  member ∉ map fst zs -> Redis.zremove member zs = zs.
Proof.
  induction zs as [|[j s] zs IH]; simpl; intros Hj; [done|].
  destruct (String.eqb_spec j member) as [->|Hne]; simpl.
  - exfalso. apply Hj. left.
  - f_equal. apply IH. intros Hin. apply Hj. by right.
Qed.

Lemma fresh_members (hist : list (Buffer.LiveContextMessage * Z)) (st : Redis.Store)
    (key : string) (t now : Z) :
  fresh_inv hist st key ->
  (t <= now)%Z ->
  (∀ m' t', (m', t') ∈ hist -> (now <= t' + Buffer.BUFFER_TTL)%Z) ->
  length (members_at t st key) = Nat.min 30 (length hist)
  ∧ ∀ j, j ∈ map fst (members_at t st key) -> j ∈ map fst (json_history hist).
Proof.
  unfold fresh_inv, members_at, Redis.live. intros Hf Ht Hlive.
  destruct (st !! key) as [k|]; [|subst hist; split; [done|by intros j ?%elem_of_nil]].
  destruct Hf as ((m & tp & Hin & ->) & Hlen & Hmem).
  specialize (Hlive _ _ Hin). destruct (Z.ltb_spec (tp + Buffer.BUFFER_TTL) t); [lia|done].
Qed.

Lemma add_all_fresh (ch : string) (now : Z) (adds hist : list (Buffer.LiveContextMessage * Z))
    (st : Redis.Store) :
  fresh_inv hist st (Buffer._get_channel_key ch) ->
  NoDup (map fst (json_history (hist ++ adds))) ->
  (∀ m t, (m, t) ∈ (hist ++ adds)%list -> (t <= now <= t + Buffer.BUFFER_TTL)%Z) ->
  fresh_inv (hist ++ adds) (Buffer.add_all to_json ch adds st) (Buffer._get_channel_key ch).
Proof.
  revert hist st. induction adds as [|[m t] adds IH]; intros hist st Hf Hnd Hwin.
  - by rewrite app_nil_r.
  - cbn [Buffer.add_all]. rewrite add_message_store. cbn [fst].
    replace (hist ++ (m, t) :: adds)%list with ((hist ++ [(m, t)]) ++ adds)%list in *
      by (by rewrite <- app_assoc).
    apply IH; [|done|done].
    destruct (fresh_members hist st (Buffer._get_channel_key ch) t now Hf) as [Hlen Hmem].
    { apply (Hwin m t). set_solver. }
    { intros m' t' Hin. apply (Hwin m' t'). set_solver. }
    assert (Hj : to_json m ∉ map fst (members_at t st (Buffer._get_channel_key ch))).
    { intros Hin%Hmem. unfold json_history in Hnd.
      rewrite !map_app, map_map in Hnd. simpl in Hnd.
      apply NoDup_app in Hnd as (Hnd & _ & _). apply NoDup_app in Hnd as (_ & Hnd & _).
      apply (Hnd (to_json m)); [|left].
      unfold json_history in Hin. by rewrite map_map in Hin. }
    rewrite (zremove_absent _ _ Hj).
    unfold fresh_inv. rewrite lookup_insert_eq. cbn [Redis.zmembers Redis.expires_at].
    split; [exists m, t; split; [set_solver|done]|]. split.
    + rewrite length_drop, zinsert_length, length_app. cbn [length]. lia.
    + intros j (s & Hs)%member_elem.
      assert ((j, s) ∈ Redis.zinsert (to_json m, t)
                          (members_at t st (Buffer._get_channel_key ch))) as He.
      { rewrite <- (take_drop (length (Redis.zinsert (to_json m, t)
                      (members_at t st (Buffer._get_channel_key ch))) - 30)).
        apply elem_of_app. by right. }
      unfold json_history. rewrite map_app, map_app. apply elem_of_app.
      apply zinsert_elem in He as [[= -> ->]|He]; [right; left|left].
      apply Hmem, member_elem. by exists s.
Qed.


Lemma rank_range_all (len stop : Z) :
  (0 < len)%Z -> (len <= stop + 1)%Z ->
  ∃ hi, Redis.rank_range len 0 stop = Some (0%Z, hi) ∧ (len <= hi + 1)%Z.
Proof.
  intros Hpos Hstop. unfold Redis.rank_range. cbv zeta.
  change (0 <? 0)%Z with false. cbv iota. change (0 <? 0)%Z with false. cbv iota.
  destruct (Z.ltb_spec stop 0); [lia|].
  destruct (Z.gtb_spec 0 stop); [lia|].
  destruct (Z.geb_spec 0 len); [lia|]. cbn [orb].
  eexists. split; [reflexivity|]. destruct (stop >=? len)%Z; lia.
Qed.

Lemma zrevrange_all (now : Z) (key : string) (stop : Z) (st : Redis.Store) :
  (Z.of_nat (length (members_at now st key)) <= stop + 1)%Z ->
  Redis.zrevrange now key 0 stop st = rev (members_at now st key).
Proof.
  unfold Redis.zrevrange, members_at. destruct (Redis.live now st key) as [k|]; [|done].
  intros Hlen. rewrite <- length_rev in Hlen. set (zs := rev (Redis.zmembers k)) in *.
  destruct zs as [|z zs'] eqn:Hzs.
  - destruct (Redis.rank_range _ _ _) as [[lo hi]|]; [|done]. by rewrite drop_nil, take_nil.
  - rewrite <- Hzs in *.
    destruct (rank_range_all (Z.of_nat (length zs)) stop) as (hi & -> & Hhi); [rewrite Hzs; simpl; lia|done|].
    cbn [drop]. apply firstn_all2. lia.
Qed.

Lemma roundtrip_nodup (adds : list (Buffer.LiveContextMessage * Z)) :
  (∀ m t, (m, t) ∈ adds -> from_json (to_json m) = Buffer.Parsed m) ->
  NoDup (map fst adds) -> NoDup (map fst (json_history adds)).
Proof.
  intros Hrt Hnd. unfold json_history. rewrite map_map. simpl.
  rewrite <- (map_map fst to_json).
  apply (NoDup_fmap_2_strong to_json); [|done].
  intros x y ([x' tx] & -> & Hx)%list_elem_of_fmap ([y' ty] & -> & Hy)%list_elem_of_fmap Heq.
  simpl in *. apply Hrt in Hx, Hy. rewrite Heq in Hx. congruence.
Qed.

(** C1.  After any run of fault-free adds to one channel, made in clock
    order from an absent key, a read returns at most 30 messages, newest
    first, each at the time of its latest add, and every added message it
    leaves out was last added no later than any it returns; when more than
    30 distinct messages were added within the TTL and the age window and at
    least 30 are asked for, it returns exactly 30. *)
Theorem buffer_returns_most_recent (ch : string)
    (adds : list (Buffer.LiveContextMessage * Z)) (st0 : Redis.Store)
    (now max_messages max_age_minutes : Z) :
  st0 !! Buffer._get_channel_key ch = None ->
  StronglySorted by_time adds ->
  (∀ m t, (m, t) ∈ adds -> from_json (to_json m) = Buffer.Parsed m) ->
  ∃ scored : list (Buffer.LiveContextMessage * Z),
    Buffer.get_recent_context from_json true None now ch max_messages max_age_minutes
                              (Buffer.add_all to_json ch adds st0)
    = (Buffer.add_all to_json ch adds st0, Eff.Done (map fst scored))
    ∧ (length scored <= 30)%nat
    ∧ StronglySorted newest_first scored
    ∧ (∀ m s, (m, s) ∈ scored -> (m, s) ∈ adds ∧ ∀ s', (m, s') ∈ adds -> (s' <= s)%Z)
    ∧ (∀ m' s', (m', s') ∈ adds -> m' ∉ map fst scored ->
                ∀ m s, (m, s) ∈ scored -> (s' <= s)%Z)
    ∧ ((30 < length adds)%nat -> NoDup (map fst adds) -> (30 <= max_messages)%Z ->
       (∀ m t, (m, t) ∈ adds ->
               (t <= now <= t + Buffer.BUFFER_TTL)%Z ∧ (now - max_age_minutes * 60 <= t)%Z) ->
       length scored = 30%nat).
Proof.
  intros Hfresh Hsorted Hrt.
  set (key := Buffer._get_channel_key ch).
  set (st := Buffer.add_all to_json ch adds st0).
  set (cutoff := (now - max_age_minutes * 60)%Z).
  set (raw := Redis.zrevrange now key 0 (max_messages - 1) st).
  assert (Hst : store_inv (json_history adds) st key).
  { apply (add_all_inv ch adds [] st0); [|done]. intros k Hk. simpl in Hk. congruence. }
  pose proof (members_at_inv _ _ _ now Hst) as [Hs Hn Hl Ha].
  pose proof (members_at_length _ _ _ now Hst) as Hlen.
  destruct (zrevrange_prefix now key (max_messages - 1) st) as [n Hraw].
  fold raw in Hraw.
  remember (members_at now st key) as zs eqn:Hzs_def.
  assert (Hsub : ∀ e, e ∈ raw -> e ∈ zs).
  { intros e He. rewrite Hraw in He. apply (proj1 (elem_of_rev _ _)).
    rewrite <- (take_drop n (rev zs)). apply elem_of_app. by left. }
  assert (Hhist : ∀ j s, (j, s) ∈ json_history adds -> ∃ m, (m, s) ∈ adds ∧ to_json m = j).
  { intros j s ([m t] & [= -> ->] & Hin)%list_elem_of_fmap. by exists m. }
  assert (Hjh : ∀ m s, (m, s) ∈ adds -> (to_json m, s) ∈ json_history adds).
  { intros m s Hin. apply list_elem_of_fmap. by exists (m, s). }
  exists (tagged cutoff raw). split; [|split; [|split; [|split; [|split]]]].
  - assert (Hp : parses cutoff raw).
    { intros j s e He _ Hesc. destruct (Hl _ _ (Hsub _ He)) as [Hin _].
      destruct (Hhist _ _ Hin) as (m & Hm & <-). by rewrite (Hrt _ _ Hm) in Hesc. }
    pose proof (parse_recent_tagged _ _ Hp) as Ht. clear -Ht.
    unfold raw, cutoff, st, key in *. by rewrite get_recent_context_run, Ht.
  - pose proof (tagged_length cutoff raw) as Ht.
    assert (length raw <= length zs)%nat; [|lia].
    rewrite Hraw, length_take, length_rev. lia.
  - apply tagged_sorted. rewrite Hraw. by apply StronglySorted_take, StronglySorted_rev.
  - intros m s (j & He & _ & Hj)%tagged_elem.
    destruct (Hl _ _ (Hsub _ He)) as [Hin Hmax].
    destruct (Hhist _ _ Hin) as (m0 & Hm0 & <-).
    rewrite (Hrt _ _ Hm0) in Hj. injection Hj as <-.
    split; [done|]. intros s' Hs'. by apply Hmax, Hjh.
  - intros m' s' Hin Hnot m s (j & He & Hc & Hj)%tagged_elem.
    destruct (decide (to_json m' ∈ map fst zs)) as [Hmem|Hmem].
    + apply member_elem in Hmem as (sx & Hsx).
      destruct (Hl _ _ Hsx) as [_ Hmax]. specialize (Hmax _ (Hjh _ _ Hin)).
      destruct (decide ((to_json m', sx) ∈ raw)) as [Hr|Hr].
      * destruct (Z.le_gt_cases cutoff sx) as [Hge|Hlt]; [|lia].
        exfalso. apply Hnot. apply list_elem_of_fmap. exists (m', sx). split; [done|].
        apply tagged_elem. exists (to_json m'). split; [done|]. split; [done|].
        by apply (Hrt m' s').
      * assert (Hsplit : (to_json m', sx) ∈ (take n (rev zs) ++ drop n (rev zs))%list).
        { rewrite take_drop. by apply (proj2 (elem_of_rev _ _)). }
        rewrite <- Hraw in Hsplit. clear Hsx.
        apply elem_of_app in Hsplit as [Hsx|Hsx]; [done|].
        apply StronglySorted_rev in Hs. rewrite <- (take_drop n (rev zs)) in Hs.
        rewrite Hraw in He.
        pose proof (StronglySorted_app_1_elem_of _ _ _ _ _ Hs He Hsx) as Hle.
        unfold flip, by_score in Hle. simpl in Hle. lia.
    + eapply Ha; [by apply Hjh|exact Hmem|]. by apply Hsub.
  - intros Hmany Hnd Hmax Hwin.
    assert (Hf : fresh_inv adds st key).
    { apply (add_all_fresh ch now adds [] st0).
      - unfold fresh_inv. by rewrite Hfresh.
      - by apply roundtrip_nodup.
      - intros m t Hin. by apply (Hwin m t). }
    unfold fresh_inv in Hf. destruct (st !! key) as [k|] eqn:Hk;
      [|subst adds; simpl in Hmany; lia].
    destruct Hf as ((m0 & t0 & Hin0 & Hexp) & Hklen & _).
    assert (Hzs : zs = Redis.zmembers k).
    { rewrite Hzs_def. unfold members_at, Redis.live. rewrite Hk, Hexp.
      destruct (Hwin _ _ Hin0) as [Hw _].
      destruct (Z.ltb_spec (t0 + Buffer.BUFFER_TTL) now); [lia|done]. }
    assert (Hzlen : length zs = 30%nat) by (rewrite Hzs, Hklen; lia).
    assert (Hall : raw = rev zs).
    { unfold raw. rewrite Hzs_def. apply zrevrange_all. rewrite <- Hzs_def. lia. }
    rewrite tagged_all; [by rewrite Hall, length_rev|].
    intros j s He. destruct (Hl _ _ (Hsub _ He)) as [Hin _].
    destruct (Hhist _ _ Hin) as (m & Hm & <-). split.
    + by apply (Hwin m s).
    + rewrite (Hrt _ _ Hm). by eexists.
Qed.

Lemma live_some (now : Z) (st : Redis.Store) (key : string) (k : Redis.ZKey) :
  Redis.live now st key = Some k ->
  st !! key = Some k ∧ ∀ e, Redis.expires_at k = Some e -> (now <= e)%Z.
Proof.
  unfold Redis.live. destruct (st !! key) as [k'|]; [|done].
  destruct (Redis.expires_at k') as [e|] eqn:He.
  - destruct (Z.ltb_spec e now); [done|]. intros [= <-]. split; [done|].
    intros e' He'. rewrite He in He'. injection He' as <-. done.
  - intros [= <-]. split; [done|]. intros e' He'. congruence.
Qed.



End BufferFacts.

(** Thirty-two adds, one per second, then a read with the default
    arguments: the thirty newest come back, newest first. *)
Example burst_of_thirty_two :
  map Buffer.message_id
      (match snd (Buffer.get_recent_context Samples.from_json true None 40 "hardware-team" 30 120
                    (Buffer.add_all Samples.to_json "hardware-team" (Samples.burst 32) ∅)) with
       | Eff.Done msgs => msgs
       | Eff.Raised _ => []
       end)
  = map pretty (rev (seq 3 30)).
Proof. vm_compute. reflexivity. Qed.

(** The sample traffic: [burst n] is [n] distinct messages in clock order,
    each of which survives the sample serialisation. *)
Lemma burst_elem (n : nat) (m : Buffer.LiveContextMessage) (t : Z) :
  (m, t) ∈ Samples.burst n ->
  ∃ i, m = Samples.plain (pretty i) ∧ t = Z.of_nat i ∧ (1 <= i <= n)%nat.
Proof.
  intros (i & [= -> ->] & Hi%elem_of_seq)%list_elem_of_fmap. exists i. repeat split; lia.
Qed.

Lemma burst_sorted (n : nat) : StronglySorted BufferInv.by_time (Samples.burst n).
Proof.
  unfold Samples.burst. generalize 1%nat as a.
  induction n as [|n IH]; intros a; cbn [seq map]; constructor; [apply IH|].
  apply Forall_forall. intros [m t] (i & [= -> ->] & Hi%elem_of_seq)%list_elem_of_fmap.
  unfold BufferInv.by_time. cbn [snd]. lia.
Qed.

Lemma burst_nodup (n : nat) : NoDup (map fst (Samples.burst n)).
Proof.
  unfold Samples.burst. rewrite map_map. cbn [fst].
  apply (NoDup_fmap_2_strong (fun i => Samples.plain (pretty i))); [|apply NoDup_seq].
  intros i j _ _ [= Heq]. by apply (inj pretty).
Qed.

Lemma buffer_returns_most_recent_witness :
  ∃ scored : list (Buffer.LiveContextMessage * Z),
    Buffer.get_recent_context Samples.from_json true None 40 "hardware-team" 30 120
                              (Buffer.add_all Samples.to_json "hardware-team" (Samples.burst 32) ∅)
    = (Buffer.add_all Samples.to_json "hardware-team" (Samples.burst 32) ∅,
       Eff.Done (map fst scored))
    ∧ length scored = 30%nat
    ∧ StronglySorted BufferInv.newest_first scored
    ∧ (∀ m s, (m, s) ∈ scored ->
              (m, s) ∈ Samples.burst 32 ∧ ∀ s', (m, s') ∈ Samples.burst 32 -> (s' <= s)%Z)
    ∧ (∀ m' s', (m', s') ∈ Samples.burst 32 -> m' ∉ map fst scored ->
                ∀ m s, (m, s) ∈ scored -> (s' <= s)%Z).
Proof.
  destruct (buffer_returns_most_recent Samples.to_json Samples.from_json "hardware-team"
              (Samples.burst 32) ∅ 40 30 120)
    as (scored & Hrun & _ & Hsorted & Hin & Hout & Hfull).
  - apply lookup_empty.
  - apply burst_sorted.
  - intros m t (i & -> & _)%burst_elem. reflexivity.
  - exists scored. split; [exact Hrun|].
    split; [|split; [exact Hsorted|split; [exact Hin|exact Hout]]].
    apply Hfull.
    + unfold Samples.burst. rewrite length_map, length_seq. lia.
    + apply burst_nodup.
    + lia.
    + intros m t (i & -> & -> & Hi)%burst_elem. unfold Buffer.BUFFER_TTL. lia.
Defined.



(** ** The ingest pipeline *)

Section OrchestratorFacts.

Import Orchestrator.

Variable to_json : Buffer.LiveContextMessage -> string.
Variable from_json : string -> Buffer.Parse.
Variable self : Connections.
Variable env : Env.

(** [add_message] always answers, and with [True] exactly when the buffer
    is connected and no command faults. *)
Lemma add_message_answers (connected : bool) (faults : Buffer.AddFaults) (now : Z)
    (ch : string) (m : Buffer.LiveContextMessage) (st : Redis.Store) :
  ∃ st', Buffer.add_message to_json connected faults now ch m st
         = (st', Eff.Done (connected && Buffer.faultless faults)).
Proof.
  unfold Buffer.add_message, Buffer.faultless.
  destruct connected; [|by eexists].
  unfold Eff.try_except, Eff.bind, Eff.call, Eff.modify, Eff.ret, Eff.raise. cbn [negb andb].
  destruct faults as [[e1|] [e2|] [e3|]]; cbn; by eexists.
Qed.

(** A disconnected buffer reads as empty. *)
Lemma get_recent_context_disconnected (fault : option string) (now : Z) (ch : string)
    (maxm maxage : Z) (st : Redis.Store) :
  Buffer.get_recent_context from_json false fault now ch maxm maxage st = (st, Eff.Done []).
Proof. reflexivity. Qed.

(** [get_recent_context] always answers and leaves the store alone. *)
Lemma get_recent_context_answers (connected : bool) (fault : option string) (now : Z)
    (ch : string) (maxm maxage : Z) (st : Redis.Store) :
  ∃ msgs, Buffer.get_recent_context from_json connected fault now ch maxm maxage st
          = (st, Eff.Done msgs).
Proof.
  unfold Buffer.get_recent_context. destruct connected; [|by eexists].
  unfold Eff.try_except, Eff.bind, Eff.call, Eff.get, Eff.ret, Eff.raise. cbn [negb].
  destruct fault as [e|]; [by eexists|].
  destruct (Redis.zrevrange _ _ _ _ _); cbn [list_truthy negb]; [by eexists|].
  destruct (Buffer.parse_recent _ _ _); by eexists.
Qed.

Lemma create_decision_answers (mid ch uid text : string) (entities : ExtractedEntities)
    (ts : Datetime) (w : World) :
  ∃ w1 r,
    _create_decision_record self env mid ch uid text entities ts w = (w1, Eff.Done r)
    ∧ store w1 = store w
    ∧ messages_processed (stats w1) = messages_processed (stats w)
    ∧ redis_failures (stats w1) = redis_failures (stats w)
    ∧ sql_failures (stats w1)
      = (sql_failures (stats w)
         + if db_pool self && match insert_decision_fault env with Some _ => true | None => false end
           then 1 else 0)%Z
    ∧ (insert_decision_fault env ≠ None -> r = None)
    ∧ (db_pool self = false -> r = None).
Proof.
  unfold _create_decision_record.
  destruct (db_pool self); cbn [negb andb].
  - unfold Eff.try_except, Eff.bind, Eff.call, Eff.modify, Eff.ret, Eff.raise.
    destruct (insert_decision_fault env) as [e|]; cbn.
    + eexists _, _. split; [reflexivity|]. repeat split; try done.
    + eexists _, _. split; [reflexivity|]. repeat split; try done; cbn; lia.
  - eexists _, _. split; [reflexivity|]. repeat split; try done; lia.
Qed.

Lemma create_gap_answers (b : ExtractedEntities) (mcs : list Matching) (uid : string)
    (w : World) :
  ∃ w1 r, _create_gap_if_needed self env b mcs uid w = (w1, Eff.Done r)
          ∧ store w1 = store w ∧ stats w1 = stats w.
Proof.
  unfold _create_gap_if_needed.
  destruct (db_pool self); cbn [negb]; [|by eexists _, _].
  unfold Eff.try_except, Eff.bind, Eff.call, Eff.modify, Eff.ret, Eff.raise.
  destruct (existsb _ mcs); [by eexists _, _|].
  destruct (insert_gap_fault env) as [e|]; cbn; by eexists _, _.
Qed.

(** The context check always answers, with one of its three dictionaries,
    and touches neither the store nor the counters. *)
Lemma check_context_answers (ch : string) (b : ExtractedEntities) (uid mid text : string)
    (w : World) :
  ∃ w1 ctx,
    _check_context_injection from_json self env ch b uid mid text w = (w1, Eff.Done ctx)
    ∧ store w1 = store w ∧ stats w1 = stats w
    ∧ (ctx = none_found
       ∨ (∃ e, ctx = check_failed e)
       ∨ (∃ g c s n r, ctx = injected g c s n r))
    ∧ (redis_connected self = false -> ctx = none_found).
Proof.
  unfold _check_context_injection, on_store.
  unfold Eff.try_except at 1. unfold Eff.bind at 1.
  destruct (get_recent_context_answers (redis_connected self) (zrevrange_fault env)
              (buffer_now env) ch 30 120 (store w)) as [msgs Hget].
  rewrite Hget.
  assert (Hw : set_store (fun _ => store w) w = w) by (by destruct w).
  rewrite Hw.
  assert (Hdis : redis_connected self = false -> msgs = []).
  { intros Hc. rewrite Hc, get_recent_context_disconnected in Hget. congruence. }
  destruct msgs as [|msg msgs]; cbn [list_truthy negb].
  { eexists _, _. split; [reflexivity|]. repeat split; auto. }
  destruct (Matcher.should_inject_context b _ "medium") as [[should c] s].
  destruct should; cbn [negb].
  2: { eexists _, _. split; [reflexivity|]. repeat split; auto. }
  set (mcs := flat_map _ (msg :: msgs)).
  unfold Eff.bind.
  assert (Hgap : ∃ w1 r,
            (if list_truthy mcs then _create_gap_if_needed self env b mcs uid
             else Eff.ret None) w = (w1, Eff.Done r)
            ∧ store w1 = store w ∧ stats w1 = stats w).
  { destruct (list_truthy mcs); [apply create_gap_answers|by eexists _, _]. }
  destruct Hgap as (w1 & r & -> & Hs1 & Hst1).
  destruct (response env) as [txt|e]; cbn.
  - eexists _, _. split; [reflexivity|]. repeat split; auto.
    + right; right. by eexists _, _, _, _, _.
    + intros Hc. by specialize (Hdis Hc).
  - eexists _, _. split; [reflexivity|]. repeat split; auto.
    + right; left. by eexists.
    + intros Hc. by specialize (Hdis Hc).
Qed.


Lemma union_lookup_base (ctx base : gmap string value) (k : string) :
  ctx !! k = None -> (ctx ∪ base) !! k = base !! k.
Proof. intros Hk. by apply lookup_union_r. Qed.

Lemma union_lookup_ctx (ctx base : gmap string value) (k : string) (v : value) :
  ctx !! k = Some v -> (ctx ∪ base) !! k = Some v.
Proof. intros Hk. by apply lookup_union_Some_l. Qed.

(** C9, as the code has it.  Processing a message always returns a
    dictionary.  When extraction raises, it is the dictionary of the outer
    handler, with the error, and nothing else has changed.  Otherwise the
    message is counted as processed; a failed buffer add is counted in
    [redis_failures] and a failed decision insert in [sql_failures], the
    latter leaving [decision_created] false; with the buffer disconnected the
    result says that no context was found, without an error field; and a
    result with an error field says that no context was injected. *)
Theorem ingest_never_raises (mid ch uid text : string) (ts : option Datetime) (w : World) :
  ∃ w' d,
    process_incoming_message to_json from_json self env mid ch uid text ts w
    = (w', Eff.Done d)
    ∧ match extraction env with
      | Eff.Raised e => d = ingest_failed env e ∧ w' = w
      | Eff.Done entities =>
          messages_processed (stats w') = (messages_processed (stats w) + 1)%Z
          ∧ redis_failures (stats w')
            = (redis_failures (stats w)
               + if redis_connected self && Buffer.faultless (add_faults env) then 0 else 1)%Z
          ∧ sql_failures (stats w')
            = (sql_failures (stats w)
               + if decision_insert_fails self env entities text then 1 else 0)%Z
          ∧ (decision_insert_fails self env entities text = true ->
             d !! "decision_created" = Some (VBool false)
             ∧ d !! "decision_id" = Some VNone)
          ∧ (redis_connected self = false ->
             d !! "context_injected" = Some (VBool false)
             ∧ d !! "gap_created" = Some (VBool false)
             ∧ d !! "error" = None)
          ∧ (is_Some (d !! "error") ->
             d !! "context_injected" = Some (VBool false)
             ∧ d !! "gap_created" = Some (VBool false))
      end.
Proof.
  unfold process_incoming_message.
  unfold Eff.try_except at 1. unfold Eff.bind at 1.
  destruct (extraction env) as [entities|e].
  2: { eexists _, _. split; [reflexivity|]. done. }
  unfold Eff.bind at 1.
  assert (Hcreate : ∃ w1 r,
            (if Worthy._is_decision_worthy entities text
             then _create_decision_record self env mid ch uid text entities
                    (default (datetime_now env) ts)
             else Eff.ret None) w = (w1, Eff.Done r)
            ∧ store w1 = store w
            ∧ messages_processed (stats w1) = messages_processed (stats w)
            ∧ redis_failures (stats w1) = redis_failures (stats w)
            ∧ sql_failures (stats w1)
              = (sql_failures (stats w)
                 + if decision_insert_fails self env entities text then 1 else 0)%Z
            ∧ (decision_insert_fails self env entities text = true -> r = None)).
  { unfold decision_insert_fails. destruct (Worthy._is_decision_worthy entities text).
    - destruct (create_decision_answers mid ch uid text entities
                  (default (datetime_now env) ts) w)
        as (w1 & r & Hrun & Hs & Hm & Hr & Hq & Hf & _).
      exists w1, r. repeat split; try done. cbn [andb]. intros Hfail.
      apply Hf. destruct (insert_decision_fault env); [done|].
      by rewrite andb_false_r in Hfail.
    - exists w, None. repeat split; try done. cbn. lia. }
  destruct Hcreate as (w1 & r & -> & Hs1 & Hm1 & Hr1 & Hq1 & Hf1).
  unfold Eff.bind at 1. unfold on_store at 1.
  destruct (add_message_answers (redis_connected self) (add_faults env) (buffer_now env) ch
              (Buffer.mkMessage mid uid text
                 (Buffer.mkEntityDict (Some (reqs entities)) (Some (components entities))
                    (Some (users_mentioned entities)) (Some (topics entities))
                    (Some (confidence entities)))
                 r (isoformat (default (datetime_now env) ts)) ch)
              (store w1)) as [st2 ->].
  set (ok := redis_connected self && Buffer.faultless (add_faults env)).
  unfold Eff.bind at 1.
  set (w2 := set_store (fun _ => st2) w1).
  assert (Hcount : ∃ w3,
            (if negb ok
             then Eff.modify (set_stats (fun s =>
                    mkStats (messages_processed s) (context_injections s) (gaps_created s)
                            (avg_processing_time_ms s) (redis_failures s + 1) (sql_failures s)))
             else Eff.ret tt) w2 = (w3, Eff.Done tt)
            ∧ messages_processed (stats w3) = messages_processed (stats w)
            ∧ redis_failures (stats w3) = (redis_failures (stats w) + if ok then 0 else 1)%Z
            ∧ sql_failures (stats w3) = sql_failures (stats w1)).
  { destruct ok; cbn [negb]; eexists; (split; [reflexivity|]); cbn; repeat split; try done; lia. }
  destruct Hcount as (w3 & -> & Hm3 & Hr3 & Hq3).
  unfold Eff.bind at 1.
  destruct (check_context_answers ch entities uid mid text w3)
    as (w4 & ctx & -> & Hs4 & Hst4 & Hshape & Hdis).
  unfold Eff.bind, Eff.modify, Eff.ret.
  eexists _, _. split; [reflexivity|]. cbn [stats set_stats messages_processed redis_failures
                                           sql_failures].
  rewrite Hst4. split; [lia|]. split; [done|]. split; [lia|].
  split; [|split].
  - intros Hfail. rewrite (Hf1 Hfail).
    destruct Hshape as [->|[[e ->]|(g & c & s & n & t & ->)]]; by vm_compute.
  - intros Hc. rewrite (Hdis Hc). by vm_compute.
  - destruct Hshape as [->|[[e ->]|(g & c & s & n & t & ->)]]; vm_compute; intros [v Hv];
      try done.
Qed.

End OrchestratorFacts.

Lemma ingest_never_raises_witness :
  ∃ w' d,
    Samples.ingest (Orchestrator.mkConnections false false) Samples.calm = (w', Eff.Done d)
    ∧ Orchestrator.messages_processed (Orchestrator.stats w') = (0 + 1)%Z
    ∧ Orchestrator.redis_failures (Orchestrator.stats w') = (0 + 1)%Z
    ∧ Orchestrator.sql_failures (Orchestrator.stats w') = (0 + 0)%Z
    ∧ (false = true ->
       d !! "decision_created" = Some (Orchestrator.VBool false)
       ∧ d !! "decision_id" = Some Orchestrator.VNone)
    ∧ (false = false ->
       d !! "context_injected" = Some (Orchestrator.VBool false)
       ∧ d !! "gap_created" = Some (Orchestrator.VBool false)
       ∧ d !! "error" = None)
    ∧ (is_Some (d !! "error") ->
       d !! "context_injected" = Some (Orchestrator.VBool false)
       ∧ d !! "gap_created" = Some (Orchestrator.VBool false)).
Proof.
  exact (ingest_never_raises Samples.to_json Samples.sent_from_json
           (Orchestrator.mkConnections false false) Samples.calm
           "msg_001" "hardware-team" "alice" "Updated REQ-245 motor torque" None
           Samples.world0).
Defined.

(** C9 as stated fails twice.  A decision insert that faults is counted in
    [sql_failures] and the result carries no error field; and a buffer add
    whose [EXPIRE] faults is counted as failed although the message is in
    the buffer, so the context check that follows finds it and injects. *)
Lemma swallowed_faults :
  (Samples.field (Samples.ingest (Orchestrator.mkConnections true true) Samples.sql_down)
                 "error" = None
   ∧ Samples.field (Samples.ingest (Orchestrator.mkConnections true true) Samples.sql_down)
                   "decision_created" = Some (Orchestrator.VBool false)
   ∧ Orchestrator.sql_failures
       (Orchestrator.stats
          (fst (Samples.ingest (Orchestrator.mkConnections true true) Samples.sql_down)))
     = 1%Z)
  ∧ (Samples.field (Samples.ingest (Orchestrator.mkConnections true false) Samples.expire_down)
                   "context_injected" = Some (Orchestrator.VBool true)
     ∧ Orchestrator.redis_failures
         (Orchestrator.stats
            (fst (Samples.ingest (Orchestrator.mkConnections true false) Samples.expire_down)))
       = 1%Z).
Proof. vm_compute. repeat split. Qed.

(** ** Worked examples *)

(** The matcher's self-test: a shared requirement ID. *)
Example shared_requirement_injects :
  Matcher.should_inject_context
    (mkEntities ["REQ-245"] ["motor"] [] ["torque_specs"] (9 # 10) 150)
    [mkEntities ["REQ-245"; "REQ-246"] ["motor"; "power_supply"] ["@alice"]
                ["torque_specs"; "power_requirements"] (8 # 10) 200]
    "medium"
  = (true, "high", (inject_Z 1 * 2)%Q).
Proof. vm_compute. reflexivity. Qed.

(** A question about the motor after a decision on it: one shared core
    component is enough. *)
Example motor_question_injects :
  Matcher.should_inject_context
    (mkEntities [] ["motor"] [] ["electrical_specs"] (6 # 10) 0)
    [mkEntities ["REQ-245"] ["motor"] [] ["mechanical_specs"] (6 # 10) 0]
    "medium"
  = (true, "high", 15 # 10).
Proof. vm_compute. reflexivity. Qed.

(** A synonym pair alone reaches "medium" with score 0.7. *)
Example synonym_pair_is_medium :
  Matcher.calculate_overlap_score
    (mkEntities [] ["thermal"] [] [] (6 # 10) 0)
    [mkEntities [] ["heat"] [] [] (6 # 10) 0]
  = ("medium", ((0 + (7 # 10)) / inject_Z 1)%Q).
Proof. vm_compute. reflexivity. Qed.

(** Two components and a keyword make a decision; two components alone do
    not. *)
Example keyword_decides :
  Worthy._is_decision_worthy (mkEntities [] ["motor"; "pcb"] [] [] (6 # 10) 0)
                             "We Decided to move the motor driver onto the PCB" = true
  ∧ Worthy._is_decision_worthy (mkEntities [] ["motor"; "pcb"] [] [] (6 # 10) 0)
                               "is the motor driver on the pcb?" = false.
Proof. split; reflexivity. Qed.

(** The hybrid branch ranks the candidates by similarity to the query. *)
Example hybrid_branch_ranks :
  match Retrieval.hybrid_search Samples.encode (Some Samples.database) Samples.clock Samples.ticks
                                "alice" "motor torque" (Some ["motor"; "pcb"]) 30 2 with
  | Eff.Done (results, stats) =>
      (map Retrieval.r_decision_id results, Retrieval.query_type stats,
       Retrieval.candidates_found stats)
  | Eff.Raised _ => ([], "", 0%Z)
  end
  = ([3%Z; 2%Z], "hybrid", 3%Z).
Proof. vm_compute. reflexivity. Qed.

(** The two sample decisions on REQ-245 contradict each other within a
    day. *)
Example contradiction_within_a_day :
  map (fun c => (Gaps.c_type c, Gaps.c_severity c, Gaps.c_time_between_decisions c))
      (Gaps._analyze_requirement_conflicts
         "REQ-245" [Samples.lower_decision; Samples.raise_decision])
  = [("requirement_conflict", "critical", Some "0 days")].
Proof. vm_compute. reflexivity. Qed.

(** * Further properties *)

(** ** The tiers of the matcher *)

Section MoreMatcher.
Import Matcher.

Lemma set_len_nonneg (s : gset string) : (0 <= set_len s)%Z.
Proof. unfold set_len. lia. Qed.

Lemma nearest_pos (m : Z) (e : positive) : (0 < m)%Z -> (0 < Float.nearest m e)%Q.
Proof.
  intros Hm. unfold Float.nearest. cbv zeta.
  destruct (Z.leb_spec (Z.log2 m + 1) 53) as [Hle|Hgt]; [unfold Qlt; cbn [Qnum Qden]; lia|].
  set (shift := (Z.log2 m + 1 - 53)%Z).
  assert (0 < Z.shiftr m shift)%Z as Hq.
  { rewrite Z.shiftr_div_pow2 by lia. apply Z.div_str_pos. split.
    - apply Z.pow_pos_nonneg; lia.
    - transitivity (2 ^ Z.log2 m)%Z; [apply Z.pow_le_mono_r; lia|apply Z.log2_spec; lia]. }
  unfold Qlt. cbn [Qnum Qden]. rewrite Z.shiftl_mul_pow2 by lia.
  assert (0 < 2 ^ shift)%Z by (apply Z.pow_pos_nonneg; lia).
  destruct (_ || _); nia.
Qed.

(** The rounded topic score of at least one topic is positive. *)
Lemma times_0_8_positive (n : Z) : (0 < n)%Z -> Qpositive (Float.times_0_8 n) = true.
Proof.
  intros Hn. unfold Qpositive. apply negb_true_iff.
  destruct (Qle_bool _ _) eqn:Hle; [|done]. apply Qle_bool_iff in Hle.
  exfalso. apply (Qlt_not_le 0 (Float.times_0_8 n)); [|done]. apply nearest_pos. lia.
Qed.

Lemma Qpositive_scaled (n : Z) (q : Q) :
  (0 < n)%Z -> (0 < q)%Q -> Qpositive (inject_Z n * q) = true.
Proof.
  intros Hn Hq. unfold Qpositive. apply negb_true_iff.
  destruct (Qle_bool _ _) eqn:Hle; [|done]. apply Qle_bool_iff in Hle.
  exfalso. apply (Qlt_not_le 0 (inject_Z n * q)); [|done].
  apply Qmult_lt_0_compat; [|done]. change 0%Q with (inject_Z 0). by rewrite <- Zlt_Qlt.
Qed.

(** The scorer answers "high", "medium" or "none", never "low", and its
    score is positive exactly when the tier is not "none". *)
Lemma overlap_tier_cases (b : ExtractedEntities) (buf : list ExtractedEntities) :
  (fst (calculate_overlap_score b buf) = "high"
   ∧ Qpositive (snd (calculate_overlap_score b buf)) = true)
  ∨ (fst (calculate_overlap_score b buf) = "medium"
     ∧ Qpositive (snd (calculate_overlap_score b buf)) = true)
  ∨ calculate_overlap_score b buf = ("none", 0%Q).
Proof.
  unfold calculate_overlap_score.
  destruct buf as [|e buf]; cbn [list_truthy negb]; [by right; right|].
  set (rs := set_len _). pose proof (set_len_nonneg (list_to_set (reqs b) ∩ aggregate reqs (e :: buf))) as Hrs.
  fold rs in Hrs.
  destruct (Z.gtb_spec rs 0).
  { left. split; [done|]. cbn [snd]. by apply Qpositive_scaled. }
  set (cs := set_len _).
  destruct (Z.geb_spec cs 2).
  { left. split; [done|]. cbn [snd]. apply Qpositive_scaled; [lia|done]. }
  destruct (Z.eqb_spec cs 1).
  { destruct (set_truthy _); [left|right; left]; split; done. }
  set (ts := set_len _).
  destruct (Z.geb_spec ts 2).
  { right; left. split; [done|]. cbn [snd]. apply times_0_8_positive. lia. }
  destruct (Qle_bool (6 # 10) _) eqn:Hs; [|by right; right].
  right; left. split; [done|]. cbn [snd]. unfold Qpositive. apply negb_true_iff.
  destruct (Qle_bool _ 0) eqn:Hle; [|done].
  apply Qle_bool_iff in Hs, Hle. exfalso.
  assert (6 # 10 <= 0)%Q as Habs by (eapply Qle_trans; eassumption). by vm_compute in Habs.
Qed.


Lemma level_of_tier (b : ExtractedEntities) (buf : list ExtractedEntities) :
  let r := calculate_overlap_score b buf in
  (fst r = "high" ∧ dict_get confidence_levels (fst r) 0%Z = 3%Z ∧ Qpositive (snd r) = true)
  ∨ (fst r = "medium" ∧ dict_get confidence_levels (fst r) 0%Z = 2%Z ∧ Qpositive (snd r) = true)
  ∨ (fst r = "none" ∧ dict_get confidence_levels (fst r) 0%Z = 0%Z ∧ Qpositive (snd r) = false).
Proof.
  intros r. unfold r.
  destruct (overlap_tier_cases b buf) as [[H1 H2]|[[H1 H2]|H]].
  - left. rewrite H1. done.
  - right; left. rewrite H1. done.
  - right; right. rewrite H. done.
Qed.

Lemma should_inject_unfold (b : ExtractedEntities) (buf : list ExtractedEntities) (thr : string) :
  list_truthy (reqs b) || list_truthy (components b) || list_truthy (topics b) = true ->
  should_inject_context b buf thr
  = ((dict_get confidence_levels (fst (calculate_overlap_score b buf)) 0%Z
      >=? dict_get threshold_levels thr 2%Z)%Z
     && Qpositive (snd (calculate_overlap_score b buf)),
     fst (calculate_overlap_score b buf), snd (calculate_overlap_score b buf)).
Proof.
  intros Hne. unfold should_inject_context, should_inject_context_with.
  destruct (reqs b), (components b), (topics b); try done;
    by destruct (calculate_overlap_score _ _).
Qed.

End MoreMatcher.

(** X1.  The thresholds "low" and "medium" gate alike: the scorer never
    answers "low", so whatever reaches level 1 reaches level 2. *)
Theorem low_threshold_same_as_medium (b : ExtractedEntities) (buf : list ExtractedEntities) :
  Matcher.should_inject_context b buf "low" = Matcher.should_inject_context b buf "medium".
Proof.
  unfold Matcher.should_inject_context, Matcher.should_inject_context_with.
  destruct (_ && _); [done|].
  destruct (level_of_tier b buf) as [(H1 & H2 & H3)|[(H1 & H2 & H3)|(H1 & H2 & H3)]];
    destruct (Matcher.calculate_overlap_score b buf) as [c s]; cbn [fst snd] in *;
    rewrite H2, H3; done.
Qed.

(** X2.  For a message with some entity, the gate injects at threshold
    "high" exactly on tier "high" and at "medium" exactly on tiers "high"
    and "medium" (the score test never vetoes); without any entity it never
    injects; so an injection at "high" is an injection at "medium". *)
Theorem injection_follows_tier (b : ExtractedEntities) (buf : list ExtractedEntities) :
  let tier := fst (Matcher.calculate_overlap_score b buf) in
  let some_entity :=
    list_truthy (reqs b) || list_truthy (components b) || list_truthy (topics b) in
  (fst (fst (Matcher.should_inject_context b buf "high")) = true
   ↔ some_entity = true ∧ tier = "high")
  ∧ (fst (fst (Matcher.should_inject_context b buf "medium")) = true
     ↔ some_entity = true ∧ (tier = "high" ∨ tier = "medium"))
  ∧ (fst (fst (Matcher.should_inject_context b buf "high")) = true ->
     fst (fst (Matcher.should_inject_context b buf "medium")) = true).
Proof.
  intros tier some_entity.
  assert (Hempty : some_entity = false ->
            ∀ thr, Matcher.should_inject_context b buf thr = (false, "none", 0%Q)).
  { unfold some_entity. intros He thr.
    apply orb_false_iff in He as [He Ht]. apply orb_false_iff in He as [Hr Hc].
    unfold Matcher.should_inject_context, Matcher.should_inject_context_with.
    by destruct (reqs b), (components b), (topics b). }
  destruct some_entity eqn:Hsome.
  - rewrite !(should_inject_unfold b buf _ Hsome). cbn [fst].
    unfold tier.
    destruct (level_of_tier b buf) as [(H1 & H2 & H3)|[(H1 & H2 & H3)|(H1 & H2 & H3)]];
      rewrite H2, H3, H1; vm_compute; intuition congruence.
  - rewrite !(Hempty eq_refl). cbn. intuition congruence.
Qed.

Section MoreMatcher2.
Import Matcher.

Lemma set_len_zero (s : gset string) : s = ∅ -> (set_len s >? 0)%Z = false.
Proof. intros ->. done. Qed.

Lemma set_truthy_spec (s : gset string) : set_truthy s = true ↔ s ≠ ∅.
Proof.
  unfold set_truthy. rewrite negb_true_iff, bool_decide_eq_false. done.
Qed.

Lemma pair_credit_bounds (x y : string) : (0 <= pair_credit x y)%Q ∧ (pair_credit x y <= 1)%Q.
Proof.
  unfold pair_credit. destruct (x =? y)%string; [done|].
  destruct (_ || _); done.
Qed.

Lemma synonym_inner (x : string) (ys : list string) (m : Q) (t : Z) :
  (0 <= m)%Q -> (m <= inject_Z t)%Q -> (0 <= t)%Z ->
  let '(m', t') := foldl (fun '(m, t) y => ((m + pair_credit x y)%Q, (t + 1)%Z)) (m, t) ys in
  (0 <= m')%Q ∧ (m' <= inject_Z t')%Q ∧ (0 <= t')%Z.
Proof.
  revert m t. induction ys as [|y ys IH]; intros m t Hm Hmt Ht; simpl; [done|].
  destruct (pair_credit_bounds x y) as [H0 H1].
  apply IH.
  - rewrite <- (Qplus_0_l 0). by apply Qplus_le_compat.
  - rewrite inject_Z_plus. by apply Qplus_le_compat.
  - lia.
Qed.

Lemma synonym_outer (xs ys : list string) (m : Q) (t : Z) :
  (0 <= m)%Q -> (m <= inject_Z t)%Q -> (0 <= t)%Z ->
  let '(m', t') :=
    foldl (fun acc x => foldl (fun '(m, t) y => ((m + pair_credit x y)%Q, (t + 1)%Z)) acc ys)
          (m, t) xs in
  (0 <= m')%Q ∧ (m' <= inject_Z t')%Q ∧ (0 <= t')%Z.
Proof.
  revert m t. induction xs as [|x xs IH]; intros m t Hm Hmt Ht; simpl; [done|].
  pose proof (synonym_inner x ys m t Hm Hmt Ht) as Hin.
  destruct (foldl _ (m, t) ys) as [m1 t1]. destruct Hin as (H1 & H2 & H3). by apply IH.
Qed.

End MoreMatcher2.

(** X3.  The synonym similarity lies between 0 and 1. *)
Theorem synonym_overlap_bounds (b_components buffer_components : gset string) :
  (0 <= Matcher._calculate_synonym_overlap b_components buffer_components)%Q
  ∧ (Matcher._calculate_synonym_overlap b_components buffer_components <= 1)%Q.
Proof.
  unfold Matcher._calculate_synonym_overlap.
  pose proof (synonym_outer (elements b_components) (elements buffer_components) 0 0) as H.
  destruct (foldl _ (0%Q, 0%Z) (elements b_components)) as [m t].
  destruct H as (H0 & H1 & Ht); [done|done|done|].
  assert (Hpos : (0 < inject_Z (Z.max t 1))%Q).
  { change 0%Q with (inject_Z 0). rewrite <- Zlt_Qlt. lia. }
  split.
  - apply Qle_shift_div_l; [done|]. by rewrite Qmult_0_l.
  - apply Qle_shift_div_r; [done|]. rewrite Qmult_1_l.
    eapply Qle_trans; [exact H1|]. rewrite <- Zle_Qle. lia.
Qed.

(** Without a shared requirement ID, the shared components decide:
    two or more give tier "high" with 1.5 per component; exactly one gives
    "high" with 1.5 when it is a core component and "medium" with 1.0 when
    it is not. *)
Lemma component_tier_cases (b : ExtractedEntities) (buf : list ExtractedEntities) :
  let shared_reqs : gset string :=
    list_to_set (reqs b) ∩ ⋃ (map (fun e => list_to_set (reqs e)) buf) in
  let shared : gset string :=
    list_to_set (components b) ∩ ⋃ (map (fun e => list_to_set (components e)) buf) in
  shared_reqs = ∅ ->
  ((2 <= size shared)%nat ->
   Matcher.calculate_overlap_score b buf
   = ("high", (inject_Z (Z.of_nat (size shared)) * (15 # 10))%Q))
  ∧ (size shared = 1%nat -> shared ∩ Matcher.core_components ≠ ∅ ->
     Matcher.calculate_overlap_score b buf = ("high", 15 # 10))
  ∧ (size shared = 1%nat -> shared ∩ Matcher.core_components = ∅ ->
     Matcher.calculate_overlap_score b buf = ("medium", 1%Q)).
Proof.
  intros shared_reqs shared Hreqs.
  assert (Hbuf : (1 <= size shared)%nat -> buf ≠ []).
  { intros Hs ->. unfold shared in Hs. simpl in Hs.
    rewrite intersection_empty_r_L, size_empty in Hs. lia. }
  assert (Hcore : list_to_set (components b) ∩ Matcher.core_components
                  ∩ Matcher.aggregate components buf = shared ∩ Matcher.core_components).
  { unfold shared. rewrite aggregate_union. set_solver. }
  assert (Hrun : buf ≠ [] -> ∃ lower_tiers,
            Matcher.calculate_overlap_score b buf
            = if (set_len shared >=? 2)%Z
              then ("high", (inject_Z (set_len shared) * (15 # 10))%Q)
              else if (set_len shared =? 1)%Z
                   then if set_truthy (shared ∩ Matcher.core_components)
                        then ("high", 15 # 10) else ("medium", 1%Q)
                   else lower_tiers).
  { intros Hne. unfold Matcher.calculate_overlap_score.
    destruct buf as [|e buf]; [done|]. cbn [list_truthy negb].
    rewrite !aggregate_union. fold shared_reqs shared.
    rewrite (set_len_zero _ Hreqs). rewrite <- aggregate_union, Hcore.
    eexists. reflexivity. }
  unfold set_len in Hrun. split; [|split].
  - intros H2. destruct Hrun as [rest ->]; [apply Hbuf; lia|].
    by destruct (Z.geb_spec (Z.of_nat (size shared)) 2); [|lia].
  - intros H1 Hc. destruct Hrun as [rest ->]; [apply Hbuf; lia|]. rewrite H1.
    change (Z.of_nat 1 >=? 2)%Z with false. change (Z.of_nat 1 =? 1)%Z with true. cbv iota.
    by apply set_truthy_spec in Hc as ->.
  - intros H1 Hc. destruct Hrun as [rest ->]; [apply Hbuf; lia|]. rewrite H1.
    change (Z.of_nat 1 >=? 2)%Z with false. change (Z.of_nat 1 =? 1)%Z with true. cbv iota.
    unfold set_truthy. by rewrite Hc.
Qed.

(** Without a shared requirement ID or component, two or more shared
    topics give tier "medium" with the rounded product of their number and
    0.8. *)
Lemma topic_tier_case (b : ExtractedEntities) (buf : list ExtractedEntities) :
  let shared_topics : gset string :=
    list_to_set (topics b) ∩ ⋃ (map (fun e => list_to_set (topics e)) buf) in
  list_to_set (reqs b) ∩ ⋃ (map (fun e => list_to_set (reqs e)) buf) = (∅ : gset string) ->
  list_to_set (components b) ∩ ⋃ (map (fun e => list_to_set (components e)) buf)
    = (∅ : gset string) ->
  (2 <= size shared_topics)%nat ->
  Matcher.calculate_overlap_score b buf
  = ("medium", Float.times_0_8 (Z.of_nat (size shared_topics))).
Proof.
  intros shared_topics Hr Hc Ht.
  unfold Matcher.calculate_overlap_score.
  destruct buf as [|e buf].
  { unfold shared_topics in Ht. simpl in Ht.
    rewrite intersection_empty_r_L, size_empty in Ht. lia. }
  cbn [list_truthy negb]. rewrite !aggregate_union, Hr, Hc. fold shared_topics.
  unfold set_len. rewrite size_empty.
  change (Z.of_nat 0 >? 0)%Z with false. change (Z.of_nat 0 >=? 2)%Z with false.
  change (Z.of_nat 0 =? 1)%Z with false. cbv iota.
  by destruct (Z.geb_spec (Z.of_nat (size shared_topics)) 2); [|lia].
Qed.

(** X4.  The tiers below a shared requirement ID.  When the message
    shares no requirement ID with the buffer: two or more shared components
    give tier "high" with 1.5 per component; exactly one shared component
    gives "high" with 1.5 when it is a core component and "medium" with 1.0
    when it is not; and with no shared component, two or more shared topics
    give "medium" with the binary64 product of their number and 0.8 (for
    three topics 2.4000000000000004, not 2.4). *)
Theorem tiers_below_requirements (b : ExtractedEntities) (buf : list ExtractedEntities) :
  let shared (field : ExtractedEntities -> list string) : gset string :=
    list_to_set (field b) ∩ ⋃ (map (fun e => list_to_set (field e)) buf) in
  shared reqs = ∅ ->
  ((2 <= size (shared components))%nat ->
   Matcher.calculate_overlap_score b buf
   = ("high", (inject_Z (Z.of_nat (size (shared components))) * (15 # 10))%Q))
  ∧ (size (shared components) = 1%nat -> shared components ∩ Matcher.core_components ≠ ∅ ->
     Matcher.calculate_overlap_score b buf = ("high", 15 # 10))
  ∧ (size (shared components) = 1%nat -> shared components ∩ Matcher.core_components = ∅ ->
     Matcher.calculate_overlap_score b buf = ("medium", 1%Q))
  ∧ (shared components = ∅ -> (2 <= size (shared topics))%nat ->
     Matcher.calculate_overlap_score b buf
     = ("medium", Float.times_0_8 (Z.of_nat (size (shared topics)))))
  ∧ Float.times_0_8 3 = 10808639105689192 # 4503599627370496.
Proof.
  intros shared Hreqs.
  destruct (component_tier_cases b buf Hreqs) as (Hmany & Hcore & Hother).
  split; [exact Hmany|]. split; [exact Hcore|]. split; [exact Hother|].
  split; [|reflexivity].
  intros Hc Ht. by apply (topic_tier_case b buf).
Qed.

Lemma tiers_below_requirements_witness :
  Matcher.calculate_overlap_score
    (mkEntities [] ["motor"; "pcb"] [] [] (6 # 10) 0)
    [mkEntities ["REQ-1"] ["pcb"; "motor"; "thermal"] [] [] (6 # 10) 0]
  = ("high",
     (inject_Z (Z.of_nat (size ((list_to_set ["motor"; "pcb"] : gset string)
                               ∩ ⋃ [list_to_set ["pcb"; "motor"; "thermal"]])))
      * (15 # 10))%Q)
  ∧ Matcher.calculate_overlap_score
      (mkEntities [] [] [] ["pcb_design"; "thermal_management"; "security_features"] (6 # 10) 0)
      [mkEntities [] [] [] ["thermal_management"; "pcb_design"] (6 # 10) 0;
       mkEntities [] ["motor"] [] ["security_features"] (6 # 10) 0]
    = ("medium", 10808639105689192 # 4503599627370496).
Proof.
  split.
  - refine (proj1 (tiers_below_requirements
                     (mkEntities [] ["motor"; "pcb"] [] [] (6 # 10) 0)
                     [mkEntities ["REQ-1"] ["pcb"; "motor"; "thermal"] [] [] (6 # 10) 0] _) _).
    + compute_done.
    + vm_compute. lia.
  - refine (eq_trans
              (proj1 (proj2 (proj2 (proj2
                 (tiers_below_requirements
                    (mkEntities [] [] []
                       ["pcb_design"; "thermal_management"; "security_features"] (6 # 10) 0)
                    [mkEntities [] [] [] ["thermal_management"; "pcb_design"] (6 # 10) 0;
                     mkEntities [] ["motor"] [] ["security_features"] (6 # 10) 0] _)))) _ _) _).
    + compute_done.
    + compute_done.
    + vm_compute. lia.
    + vm_compute. reflexivity.
Defined.

(** ** More on the live buffer *)

Lemma string_length_app (s t : string) :
  String.length (s +:+ t) = (String.length s + String.length t)%nat.
Proof.
  induction s as [|c s IH]; [by rewrite app_nil_string|].
  rewrite app_cons_string. cbn [String.length]. by rewrite IH.
Qed.

Lemma app_inj_suffix (s s' t : string) : s +:+ t = s' +:+ t -> s = s'.
Proof.
  revert s'. induction s as [|c s IH]; intros [|c' s'] H; [done| | |].
  - apply (f_equal String.length) in H. rewrite app_nil_string, app_cons_string in H.
    cbn [String.length] in H. rewrite string_length_app in H. lia.
  - apply (f_equal String.length) in H. rewrite app_nil_string, app_cons_string in H.
    cbn [String.length] in H. rewrite string_length_app in H. lia.
  - rewrite !app_cons_string in H. injection H as -> H. f_equal. by apply IH.
Qed.

Lemma channel_key_inj (ch ch' : string) :
  Buffer._get_channel_key ch = Buffer._get_channel_key ch' -> ch = ch'.
Proof.
  unfold Buffer._get_channel_key. intros H.
  apply (String.app_inj "channel:") in H. by apply app_inj_suffix in H.
Qed.

Lemma live_other (now : Z) (st st' : Redis.Store) (key : string) :
  st' !! key = st !! key -> Redis.live now st' key = Redis.live now st key.
Proof. unfold Redis.live. by intros ->. Qed.

Lemma zadd_other (now : Z) (key member : string) (score : Z) (st : Redis.Store) (key' : string) :
  key' ≠ key -> Redis.zadd now key member score st !! key' = st !! key'.
Proof.
  intros Hne. unfold Redis.zadd.
  destruct (Redis.live now st key); by rewrite lookup_insert_ne.
Qed.

Lemma zremrangebyrank_other (now : Z) (key : string) (start stop : Z) (st : Redis.Store)
    (key' : string) :
  key' ≠ key -> Redis.zremrangebyrank now key start stop st !! key' = st !! key'.
Proof.
  intros Hne. unfold Redis.zremrangebyrank.
  destruct (Redis.live now st key) as [k|]; [|done].
  destruct (Redis.rank_range _ start stop) as [[lo hi]|]; [|done].
  cbv zeta. destruct (_ ++ _)%list; [by rewrite lookup_delete_ne|by rewrite lookup_insert_ne].
Qed.

Lemma expire_other (now : Z) (key : string) (seconds : Z) (st : Redis.Store) (key' : string) :
  key' ≠ key -> Redis.expire now key seconds st !! key' = st !! key'.
Proof.
  intros Hne. unfold Redis.expire.
  destruct (Redis.live now st key); [by rewrite lookup_insert_ne|done].
Qed.

Section MoreBuffer.

Import BufferInv.
Variable to_json : Buffer.LiveContextMessage -> string.
Variable from_json : string -> Buffer.Parse.

Lemma add_message_other (connected : bool) (faults : Buffer.AddFaults) (now : Z) (ch : string)
    (m : Buffer.LiveContextMessage) (st : Redis.Store) (key' : string) :
  key' ≠ Buffer._get_channel_key ch ->
  fst (Buffer.add_message to_json connected faults now ch m st) !! key' = st !! key'.
Proof.
  intros Hne. unfold Buffer.add_message.
  destruct connected; [|done]. cbn [negb].
  destruct faults as [[e1|] [e2|] [e3|]];
    cbn [Eff.try_except Eff.bind Eff.call Eff.modify Eff.ret Eff.raise fst
         Buffer.zadd_fault Buffer.zremrangebyrank_fault Buffer.expire_fault];
    rewrite ?expire_other, ?zremrangebyrank_other, ?zadd_other by done; done.
Qed.

Lemma get_recent_context_other (connected : bool) (zf : option string) (now : Z) (ch : string)
    (maxm maxage : Z) (st st' : Redis.Store) :
  st' !! Buffer._get_channel_key ch = st !! Buffer._get_channel_key ch ->
  snd (Buffer.get_recent_context from_json connected zf now ch maxm maxage st')
  = snd (Buffer.get_recent_context from_json connected zf now ch maxm maxage st).
Proof.
  intros H. destruct connected; [|done]. destruct zf as [e|]; [done|].
  rewrite !get_recent_context_run. cbn [snd].
  unfold Redis.zrevrange. by rewrite (live_other now st st').
Qed.

(** X5.  Whatever the store held before (a set left oversize by a faulted
    trim included), after a fault-free [add_message] the key of the channel
    holds between 1 and 30 entries, each of them the new one or one that was
    there, and every other key is as it was. *)
Theorem add_restores_the_cap (st : Redis.Store) (now : Z) (ch : string)
    (m : Buffer.LiveContextMessage) :
  let key := Buffer._get_channel_key ch in
  let st' := fst (Buffer.add_message to_json true Buffer.no_faults now ch m st) in
  (∃ k, st' !! key = Some k
        ∧ (1 <= length (Redis.zmembers k) <= 30)%nat
        ∧ ∀ e, e ∈ Redis.zmembers k -> e = (to_json m, now) ∨ e ∈ members_at now st key)
  ∧ ∀ key', key' ≠ key -> st' !! key' = st !! key'.
Proof.
  intros key st'. split; [|by intros key' Hne; apply add_message_other].
  subst st'. rewrite add_message_store. cbn [fst]. fold key.
  set (zs1 := Redis.zinsert _ _).
  eexists. split; [apply lookup_insert_eq|]. cbn [Redis.zmembers].
  assert (length zs1 = S (length (Redis.zremove (to_json m) (members_at now st key)))) as Hlen
    by apply zinsert_length.
  split; [rewrite length_drop; lia|].
  intros e He. apply list_elem_of_lookup in He as [i Hi]. rewrite lookup_drop in Hi.
  apply list_elem_of_lookup_2 in Hi.
  apply zinsert_elem in Hi as [->|Hi]; [by left|right].
  by apply zremove_elem in Hi as [Hi _].
Qed.

(** X6.  Channels are isolated: an [add_message] on one channel, faulty or
    not, changes nothing of what [get_recent_context] returns for another
    channel. *)
Theorem channels_are_isolated (st : Redis.Store) (connected reading : bool)
    (faults : Buffer.AddFaults) (zf : option string) (t now : Z) (ch ch' : string)
    (m : Buffer.LiveContextMessage) (max_messages max_age_minutes : Z) :
  ch ≠ ch' ->
  snd (Buffer.get_recent_context from_json reading zf now ch' max_messages max_age_minutes
         (fst (Buffer.add_message to_json connected faults t ch m st)))
  = snd (Buffer.get_recent_context from_json reading zf now ch' max_messages max_age_minutes st).
Proof.
  intros Hne. apply get_recent_context_other, add_message_other.
  intros H. by apply channel_key_inj in H.
Qed.



Lemma rank_range_head (len stop : Z) :
  (0 < len)%Z -> (0 <= stop)%Z ->
  ∃ hi, Redis.rank_range len 0 stop = Some (0%Z, hi) ∧ (0 <= hi)%Z ∧ (hi <= stop)%Z.
Proof.
  intros Hlen Hstop. unfold Redis.rank_range. cbv zeta.
  change (0 <? 0)%Z with false. cbv iota. change (0 <? 0)%Z with false. cbv iota.
  destruct (Z.ltb_spec stop 0); [lia|].
  destruct (Z.gtb_spec 0 stop); [lia|].
  destruct (Z.geb_spec 0 len); [lia|]. cbn [orb].
  eexists. split; [reflexivity|]. destruct (Z.geb_spec stop len); lia.
Qed.

Lemma zrevrange_head (now : Z) (key : string) (stop : Z) (st : Redis.Store)
    (k : Redis.ZKey) (x : Redis.entry) (zs : list Redis.entry) :
  Redis.live now st key = Some k -> Redis.zmembers k = (zs ++ [x])%list -> (0 <= stop)%Z ->
  ∃ rest, Redis.zrevrange now key 0 stop st = x :: rest.
Proof.
  intros Hlive Hzs Hstop. unfold Redis.zrevrange. rewrite Hlive, Hzs, rev_app_distr.
  cbn [rev app].
  destruct (rank_range_head (Z.of_nat (length (x :: rev zs))) stop) as (hi & -> & Hhi & _);
    [cbn [length]; lia|done|].
  cbn [skipn Z.to_nat]. replace (hi - 0 + 1)%Z with (Z.succ hi) by lia.
  rewrite Z2Nat.inj_succ by done. cbn [firstn]. by eexists.
Qed.

Lemma zrevrange_length (now : Z) (key : string) (stop : Z) (st : Redis.Store) :
  (0 <= stop)%Z -> (Z.of_nat (length (Redis.zrevrange now key 0 stop st)) <= stop + 1)%Z.
Proof.
  intros Hstop. unfold Redis.zrevrange.
  destruct (Redis.live now st key) as [k|]; [|cbn [length]; lia].
  destruct (rev (Redis.zmembers k)) as [|z zs]; [destruct (Redis.rank_range _ _ _) as [[]|]; rewrite ?drop_nil, ?take_nil; cbn [length]; lia|].
  destruct (rank_range_head (Z.of_nat (length (z :: zs))) stop) as (hi & -> & Hhi & Hle);
    [cbn [length]; lia|done|].
  rewrite length_take. lia.
Qed.

Lemma zrevrange_whole (now : Z) (key : string) (st : Redis.Store) :
  Redis.zrevrange now key 0 (-1) st = rev (members_at now st key).
Proof.
  unfold Redis.zrevrange, members_at.
  destruct (Redis.live now st key) as [k|]; [|done].
  destruct (rev (Redis.zmembers k)) as [|z zs] eqn:E; [done|].
  unfold Redis.rank_range. cbv zeta.
  change (0 <? 0)%Z with false. change (-1 <? 0)%Z with true. cbv iota.
  change (0 <? 0)%Z with false. cbv iota.
  set (len := Z.of_nat (length (z :: zs))).
  assert (0 < len)%Z by (subst len; cbn [length]; lia).
  destruct (Z.gtb_spec 0 (len + -1)); [lia|].
  destruct (Z.geb_spec 0 len); [lia|]. cbn [orb].
  destruct (Z.geb_spec (len + -1) len); [lia|].
  replace (Z.to_nat 0) with 0%nat by done. rewrite drop_0.
  replace (Z.to_nat (len + -1 - 0 + 1)) with (length (z :: zs)) by lia.
  apply firstn_all.
Qed.

Lemma parse_recent_length (cutoff : Z) (raw : list Redis.entry) :
  (length (answered (Buffer.parse_recent from_json cutoff raw)) <= length raw)%nat.
Proof.
  destruct (parse_recent_cases from_json cutoff raw) as [->|(j & s & e & _ & _ & _ & ->)];
    cbn [answered length]; [|lia].
  rewrite length_map. apply tagged_length.
Qed.



Lemma get_recent_context_total (connected : bool) (zf : option string) (now : Z) (ch : string)
    (maxm maxage : Z) (st : Redis.Store) :
  ∃ msgs,
    Buffer.get_recent_context from_json connected zf now ch maxm maxage st = (st, Eff.Done msgs)
    ∧ (length msgs <= length (Redis.zrevrange now (Buffer._get_channel_key ch) 0 (maxm - 1) st))%nat.
Proof.
  destruct connected; [|exists []; split; [done|cbn [length]; lia]].
  destruct zf as [e|]; [exists []; split; [done|cbn [length]; lia]|].
  rewrite get_recent_context_run. eexists. split; [done|]. apply parse_recent_length.
Qed.


(** A read asking for at least one message never raises, never writes,
    and returns at most [max_messages] messages, connected or not, faulty
    or not. *)
Lemma read_is_bounded (connected : bool) (zrevrange_fault : option string)
    (st : Redis.Store) (now : Z) (ch : string) (max_messages max_age_minutes : Z) :
  (1 <= max_messages)%Z ->
  ∃ msgs,
    Buffer.get_recent_context from_json connected zrevrange_fault now ch max_messages
                              max_age_minutes st
    = (st, Eff.Done msgs)
    ∧ (Z.of_nat (length msgs) <= max_messages)%Z.
Proof.
  intros Hmax.
  destruct (get_recent_context_total connected zrevrange_fault now ch max_messages
              max_age_minutes st) as (msgs & Hrun & Hlen).
  exists msgs. split; [done|].
  pose proof (zrevrange_length now (Buffer._get_channel_key ch) (max_messages - 1) st). lia.
Qed.

(** [max_messages = 0] does not mean no message: the stop index becomes
    -1 and ZREVRANGE returns the whole set. *)
Lemma read_of_zero_is_whole (connected : bool) (zrevrange_fault : option string)
    (st : Redis.Store) (now : Z) (ch : string) (n max_age_minutes : Z) :
  (Z.of_nat (length (members_at now st (Buffer._get_channel_key ch))) <= n)%Z ->
  Buffer.get_recent_context from_json connected zrevrange_fault now ch 0 max_age_minutes st
  = Buffer.get_recent_context from_json connected zrevrange_fault now ch n max_age_minutes st.
Proof.
  intros Hn. destruct connected; [|done]. destruct zrevrange_fault as [e|]; [done|].
  rewrite !get_recent_context_run. replace (0 - 1)%Z with (-1)%Z by done.
  rewrite zrevrange_whole, zrevrange_all by lia. done.
Qed.

(** X8.  [max_messages] bounds the read only from 1 up.  A read asking
    for at least one message never raises, never writes, and returns at
    most [max_messages] messages, connected or not, faulty or not; a read
    with [max_messages = 0] answers as if every entry of the channel had
    been asked for. *)
Theorem max_messages_bounds_the_read (connected : bool) (zrevrange_fault : option string)
    (st : Redis.Store) (now : Z) (ch : string) (max_age_minutes : Z) :
  (∀ max_messages : Z,
     (1 <= max_messages)%Z ->
     ∃ msgs,
       Buffer.get_recent_context from_json connected zrevrange_fault now ch max_messages
                                 max_age_minutes st
       = (st, Eff.Done msgs)
       ∧ (Z.of_nat (length msgs) <= max_messages)%Z)
  ∧ (∀ n : Z,
       (Z.of_nat (length (members_at now st (Buffer._get_channel_key ch))) <= n)%Z ->
       Buffer.get_recent_context from_json connected zrevrange_fault now ch 0
                                 max_age_minutes st
       = Buffer.get_recent_context from_json connected zrevrange_fault now ch n
                                   max_age_minutes st).
Proof.
  split.
  - intros max_messages. apply read_is_bounded.
  - intros n. apply read_of_zero_is_whole.
Qed.

(** X9.  When EXPIRE faults on the first add to a channel,
    [add_message] answers [False], yet the key is left holding the message
    with no expiry at all: a later read, however late, still returns it
    when its age window allows. *)
Theorem expire_fault_leaves_no_ttl (st : Redis.Store) (t : Z) (ch : string)
    (m : Buffer.LiveContextMessage) (e : string) :
  let key := Buffer._get_channel_key ch in
  let run := Buffer.add_message to_json true (Buffer.mkAddFaults None None (Some e)) t ch m st in
  Redis.live t st key = None ->
  snd run = Eff.Done false
  ∧ fst run !! key = Some (Redis.mkZKey [(to_json m, t)] None)
  ∧ (from_json (to_json m) = Buffer.Parsed m ->
     ∀ now max_messages max_age_minutes,
       (now - max_age_minutes * 60 <= t)%Z -> (1 <= max_messages)%Z ->
       snd (Buffer.get_recent_context from_json true None now ch max_messages
              max_age_minutes (fst run))
       = Eff.Done [m]).
Proof.
  intros key run Hgone.
  assert (run = (<[key := Redis.mkZKey [(to_json m, t)] None]> st, Eff.Done false)) as ->.
  { subst run. unfold Buffer.add_message. fold key.
    unfold Eff.try_except, Eff.bind, Eff.call, Eff.modify, Eff.raise, Eff.ret.
    cbn [negb Buffer.zadd_fault Buffer.zremrangebyrank_fault Buffer.expire_fault].
    unfold Redis.zadd at 1. rewrite Hgone.
    unfold Redis.zremrangebyrank. rewrite live_insert by done. cbn [Redis.zmembers length].
    done. }
  cbn [fst snd]. split; [done|]. split; [apply lookup_insert_eq|].
  intros Hrt now maxm maxage Hage Hmax. rewrite get_recent_context_run. cbn [snd].
  edestruct (zrevrange_head now key (maxm - 1) (<[key := Redis.mkZKey [(to_json m, t)] None]> st))
    as [rest Hrest];
    [by apply live_insert|cbn [Redis.zmembers]; by rewrite app_nil_l|lia|].
  pose proof (zrevrange_prefix now key (maxm - 1)
                (<[key := Redis.mkZKey [(to_json m, t)] None]> st)) as [n Hn].
  unfold members_at in Hn. rewrite live_insert in Hn by done. cbn [Redis.zmembers rev app] in Hn.
  rewrite Hrest in Hn. destruct n as [|n]; [done|]. cbn [take] in Hn. rewrite take_nil in Hn.
  injection Hn as ->. fold key. rewrite Hrest. cbn [Buffer.parse_recent].
  replace (t >=? now - maxage * 60)%Z with true by (symmetry; apply Z.geb_le; lia).
  by rewrite Hrt.
Qed.

End MoreBuffer.

(** ** Buffer maintenance *)

Section Maintenance.

Import BufferInv.

Lemma live_lookup (now : Z) (st : Redis.Store) (key : string) (k : Redis.ZKey) :
  Redis.live now st key = Some k -> st !! key = Some k.
Proof.
  unfold Redis.live. destruct (st !! key) as [k'|]; [|done].
  destruct (Redis.expires_at k') as [e|]; [destruct (e <? now)%Z|]; congruence.
Qed.

Lemma expire_members (now : Z) (key : string) (seconds : Z) (st : Redis.Store) (key' : string) :
  Redis.zmembers <$> Redis.expire now key seconds st !! key' = Redis.zmembers <$> st !! key'.
Proof.
  destruct (decide (key' = key)) as [->|Hne]; [|by rewrite expire_other].
  unfold Redis.expire. destruct (Redis.live now st key) as [k|] eqn:E; [|done].
  apply live_lookup in E. by rewrite lookup_insert_eq, E.
Qed.

Lemma ttl_other (now : Z) (st st' : Redis.Store) (key : string) :
  st' !! key = st !! key -> Redis.ttl now key st' = Redis.ttl now key st.
Proof. unfold Redis.ttl, Redis.live. by intros ->. Qed.

Lemma ttl_expire (now : Z) (key : string) (seconds : Z) (st : Redis.Store) :
  (0 < seconds)%Z -> (Redis.ttl now key st ≠ -2)%Z ->
  Redis.ttl now key (Redis.expire now key seconds st) = seconds.
Proof.
  intros Hpos Hlive. unfold Redis.ttl in *. unfold Redis.expire.
  destruct (Redis.live now st key) as [k|] eqn:E; [|done].
  rewrite live_insert by (cbn [Redis.expires_at]; intros e [= <-]; lia).
  cbn [Redis.expires_at]. lia.
Qed.

Lemma extend_from_any (ttl_fault expire_fault : nat -> option string) (now : Z)
    (chs : list string) :
  ∀ (i : nat) (c : Z) (st : Redis.Store),
    ∃ st' n,
      Buffer.extend_from ttl_fault expire_fault now i chs c st = (st', Eff.Done (c + n)%Z)
      ∧ (0 <= n <= Z.of_nat (length chs))%Z
      ∧ ∀ key, lifted now chs st st' key.
Proof.
  induction chs as [|ch chs IH]; intros i c st.
  - exists st, 0%Z. cbn [Buffer.extend_from Eff.ret length]. rewrite Z.add_0_r.
    split; [done|]. split; [lia|]. intros key. split; [done|by left].
  - cbn [Buffer.extend_from]. unfold Eff.bind at 1.
    set (key := Buffer._get_channel_key ch).
    assert (∃ st1 n1,
      Eff.try_except
        (let* st0 := Eff.call (ttl_fault i) Eff.get in
         if (Redis.ttl now key st0 >? 0)%Z && (Redis.ttl now key st0 <? 3600)%Z
         then let* _ := Eff.call (expire_fault i)
                          (Eff.modify (Redis.expire now key Buffer.BUFFER_TTL)) in
              Eff.ret (c + 1)%Z
         else Eff.ret c)
        (fun _ => Eff.ret c) st = (st1, Eff.Done (c + n1)%Z)
      ∧ (0 <= n1 <= 1)%Z ∧ ∀ key', lifted now [ch] st st1 key') as (st1 & n1 & -> & Hn1 & H1).
    { unfold Eff.try_except, Eff.bind, Eff.call, Eff.get, Eff.modify, Eff.raise, Eff.ret.
      destruct (ttl_fault i) as [e|].
      { exists st, 0%Z. rewrite Z.add_0_r. split; [done|]. split; [lia|].
        intros key'. split; [done|by left]. }
      destruct (Z.gtb_spec (Redis.ttl now key st) 0) as [Hlo|Hlo]; cbn [andb].
      2:{ exists st, 0%Z. rewrite Z.add_0_r. split; [done|]. split; [lia|].
          intros key'. split; [done|by left]. }
      destruct (Z.ltb_spec (Redis.ttl now key st) 3600) as [Hhi|Hhi].
      2:{ exists st, 0%Z. rewrite Z.add_0_r. split; [done|]. split; [lia|].
          intros key'. split; [done|by left]. }
      destruct (expire_fault i) as [e|].
      { exists st, 0%Z. rewrite Z.add_0_r. split; [done|]. split; [lia|].
        intros key'. split; [done|by left]. }
      exists (Redis.expire now key Buffer.BUFFER_TTL st), 1%Z. split; [done|]. split; [lia|].
      intros key'. split; [apply expire_members|].
      destruct (decide (key' = key)) as [->|Hne]; [right|left; by apply expire_other].
      split; [lia|]. split; [apply ttl_expire; [done|lia]|].
      exists ch. split; [by left|done]. }
    destruct (IH (S i) (c + n1)%Z st1) as (st' & n & -> & Hn & H2).
    exists st', (n1 + n)%Z. split; [by rewrite Z.add_assoc|].
    split; [cbn [length]; lia|].
    intros key'. destruct (H1 key') as [Hm1 Ht1], (H2 key') as [Hm2 Ht2].
    split; [by rewrite Hm2|].
    destruct Ht2 as [Heq2|(Hr2 & Hnew2 & ch2 & Hch2 & ->)].
    + destruct Ht1 as [Heq1|(Hr1 & Hnew1 & ch1 & Hch1 & ->)].
      * left. by rewrite Heq2.
      * right. split; [done|]. split; [by rewrite (ttl_other now st1 st')|].
        apply list_elem_of_singleton in Hch1 as ->. exists ch. split; [by left|done].
    + destruct Ht1 as [Heq1|(Hr1 & Hnew1 & ch1 & Hch1 & Hkey)].
      * right. rewrite <- (ttl_other now st st1) by done. split; [done|]. split; [done|].
        exists ch2. split; [by right|done].
      * rewrite Hnew1 in Hr2. unfold Buffer.BUFFER_TTL in Hr2. lia.
Qed.

Lemma extend_from_reaches (now : Z) (chs : list string) :
  ∀ (i : nat) (c : Z) (st : Redis.Store) (ch : string),
    ch ∈ chs ->
    let key := Buffer._get_channel_key ch in
    let st' := fst (Buffer.extend_from (fun _ => None) (fun _ => None) now i chs c st) in
    ¬ (0 < Redis.ttl now key st' < 3600)%Z.
Proof.
  induction chs as [|ch0 chs IH]; intros i c st ch Hch; [by apply elem_of_nil in Hch|].
  cbn zeta. set (key0 := Buffer._get_channel_key ch0).
  assert (∃ st1 c1,
            Buffer.extend_from (fun _ => None) (fun _ => None) now i (ch0 :: chs) c st
            = Buffer.extend_from (fun _ => None) (fun _ => None) now (S i) chs c1 st1
            ∧ ¬ (0 < Redis.ttl now key0 st1 < 3600)%Z) as (st1 & c1 & -> & Hhead).
  { cbn [Buffer.extend_from]. fold key0.
    unfold Eff.bind at 1, Eff.try_except, Eff.bind, Eff.call, Eff.get, Eff.modify, Eff.ret.
    destruct (Z.gtb_spec (Redis.ttl now key0 st) 0) as [Hlo|Hlo]; cbn [andb].
    2:{ exists st, c. split; [done|lia]. }
    destruct (Z.ltb_spec (Redis.ttl now key0 st) 3600) as [Hhi|Hhi].
    2:{ exists st, c. split; [done|lia]. }
    eexists _, _. split; [done|].
    rewrite ttl_expire; [unfold Buffer.BUFFER_TTL; lia|done|lia]. }
  apply elem_of_cons in Hch as [->|Hch]; [|by apply IH].
  destruct (extend_from_any (fun _ => None) (fun _ => None) now chs (S i) c1 st1)
    as (st' & n & -> & _ & H2). cbn [fst].
  destruct (H2 key0) as [_ [Heq|(Hr & _)]]; [|done].
  by rewrite (ttl_other now st1 st').
Qed.

(** [extend_ttl_for_active_channels] never raises, counts between 0 and
    the number of listed channels, leaves the members of every key as they
    were, and changes a key only by lifting a time to live between 0 and
    3600 seconds of a listed channel to [BUFFER_TTL]; whatever faults. *)
Lemma extend_lifts_only (connected : bool) (ttl_fault expire_fault : nat -> option string)
    (now : Z) (channel_ids : list string) (st : Redis.Store) :
  ∃ st' extended_count,
    Buffer.extend_ttl_for_active_channels connected ttl_fault expire_fault now channel_ids st
    = (st', Eff.Done extended_count)
    ∧ (0 <= extended_count <= Z.of_nat (length channel_ids))%Z
    ∧ ∀ key,
        Redis.zmembers <$> st' !! key = Redis.zmembers <$> st !! key
        ∧ (st' !! key = st !! key
           ∨ ((0 < Redis.ttl now key st < 3600)%Z
              ∧ Redis.ttl now key st' = Buffer.BUFFER_TTL
              ∧ ∃ ch, ch ∈ channel_ids ∧ key = Buffer._get_channel_key ch)).
Proof.
  unfold Buffer.extend_ttl_for_active_channels. destruct connected; cbn [negb].
  - destruct (extend_from_any ttl_fault expire_fault now channel_ids 0 0 st)
      as (st' & n & Hrun & Hn & H).
    exists st', n. split; [by rewrite Hrun|]. split; [done|]. intros key. apply H.
  - exists st, 0%Z. split; [done|]. split; [lia|]. intros key. split; [done|by left].
Qed.

(** Without faults, after [extend_ttl_for_active_channels] every listed
    channel whose time to live was between 0 and 3600 seconds has
    [BUFFER_TTL] seconds left, and every other listed channel has what it
    had. *)
Lemma extend_reaches_listed (now : Z) (channel_ids : list string)
    (st : Redis.Store) (ch : string) :
  ch ∈ channel_ids ->
  let st' := fst (Buffer.extend_ttl_for_active_channels true (fun _ => None) (fun _ => None)
                    now channel_ids st) in
  let before := Redis.ttl now (Buffer._get_channel_key ch) st in
  Redis.ttl now (Buffer._get_channel_key ch) st'
  = if (before >? 0)%Z && (before <? 3600)%Z then Buffer.BUFFER_TTL else before.
Proof.
  intros Hch st' before.
  pose proof (extend_from_reaches now channel_ids 0 0 st ch Hch) as Hshort.
  cbn zeta in Hshort. fold st' in Hshort.
  destruct (extend_from_any (fun _ => None) (fun _ => None) now channel_ids 0 0 st)
    as (st2 & n & Hrun & _ & H).
  assert (st' = st2) as Hst by (subst st'; unfold Buffer.extend_ttl_for_active_channels;
                                cbn [negb]; by rewrite Hrun).
  destruct (H (Buffer._get_channel_key ch)) as [_ [Heq|(Hr & Hnew & _)]].
  - rewrite <- Hst in Heq. rewrite (ttl_other now st st') in * by done. fold before in Hshort |- *.
    destruct (Z.gtb_spec before 0); cbn [andb]; [|done].
    destruct (Z.ltb_spec before 3600); [lia|done].
  - rewrite Hst, Hnew. fold before in Hr.
    destruct (Z.gtb_spec before 0); cbn [andb]; [|lia].
    destruct (Z.ltb_spec before 3600); [done|lia].
Qed.


Lemma keys_live (now : Z) (pattern : string) (st : Redis.Store) (key : string) :
  key ∈ Redis.keys now pattern st ->
  Redis.glob_match pattern key = true ∧ ∃ k, Redis.live now st key = Some k.
Proof.
  unfold Redis.keys. rewrite list_elem_of_In, filter_In. intros [_ H].
  apply andb_prop in H as [Hm Hl]. split; [done|].
  destruct (Redis.live now st key) as [k|]; [by exists k|done].
Qed.

Lemma count_expired_run (ttl_fault : string -> option string) (probe_time : string -> Z)
    (channel_keys : list string) :
  ∀ (c : Z) (st : Redis.Store),
    (∃ e, Buffer.count_expired ttl_fault probe_time channel_keys c st = (st, Eff.Raised e))
    ∨ ∃ n, Buffer.count_expired ttl_fault probe_time channel_keys c st = (st, Eff.Done (c + n)%Z)
           ∧ (0 <= n <= Z.of_nat (length channel_keys))%Z
           ∧ ((0 < n)%Z -> ∃ key, key ∈ channel_keys
                                  ∧ Redis.ttl (probe_time key) key st = (-2)%Z).
Proof.
  induction channel_keys as [|key rest IH]; intros c st.
  - right. exists 0%Z. cbn [Buffer.count_expired Eff.ret length]. rewrite Z.add_0_r.
    split; [done|]. split; lia.
  - assert (Buffer.count_expired ttl_fault probe_time (key :: rest) c st
            = match ttl_fault key with
              | Some e => (st, Eff.Raised e)
              | None => Buffer.count_expired ttl_fault probe_time rest
                          (if (Redis.ttl (probe_time key) key st =? -2)%Z
                           then (c + 1)%Z else c) st
              end) as ->.
    { cbn [Buffer.count_expired]. unfold Eff.bind, Eff.call, Eff.get, Eff.raise.
      by destruct (ttl_fault key). }
    destruct (ttl_fault key) as [e|]; [left; by exists e|].
    destruct (Z.eqb_spec (Redis.ttl (probe_time key) key st) (-2)) as [Hgone|Hthere].
    + destruct (IH (c + 1)%Z st) as [[e ->]|(n & -> & Hn & Hwhy)]; [left; by exists e|].
      right. exists (1 + n)%Z. split; [by rewrite Z.add_assoc|].
      split; [cbn [length]; lia|]. intros _. exists key. split; [by left|done].
    + destruct (IH c st) as [[e ->]|(n & -> & Hn & Hwhy)]; [left; by exists e|].
      right. exists n. split; [done|]. split; [cbn [length]; lia|].
      intros Hpos. destruct (Hwhy Hpos) as (key' & Hin & Hgone).
      exists key'. split; [by right|done].
Qed.

(** X10.  [extend_ttl_for_active_channels] lifts the short channels and
    does nothing else.  Whatever faults, it never raises, counts between 0
    and the number of listed channels, leaves the members of every key as
    they were, and changes a key only by lifting a time to live between 0
    and 3600 seconds of a listed channel to [BUFFER_TTL].  Without faults,
    every listed channel whose time to live was between 0 and 3600 seconds
    ends with [BUFFER_TTL] seconds left, and every other listed channel
    with what it had. *)
Theorem extend_lifts_short_channels (now : Z) (channel_ids : list string)
    (st : Redis.Store) :
  (∀ (connected : bool) (ttl_fault expire_fault : nat -> option string),
     ∃ st' extended_count,
       Buffer.extend_ttl_for_active_channels connected ttl_fault expire_fault now
                                             channel_ids st
       = (st', Eff.Done extended_count)
       ∧ (0 <= extended_count <= Z.of_nat (length channel_ids))%Z
       ∧ ∀ key,
           Redis.zmembers <$> st' !! key = Redis.zmembers <$> st !! key
           ∧ (st' !! key = st !! key
              ∨ ((0 < Redis.ttl now key st < 3600)%Z
                 ∧ Redis.ttl now key st' = Buffer.BUFFER_TTL
                 ∧ ∃ ch, ch ∈ channel_ids ∧ key = Buffer._get_channel_key ch)))
  ∧ (∀ ch : string,
       ch ∈ channel_ids ->
       let st' := fst (Buffer.extend_ttl_for_active_channels true (fun _ => None)
                         (fun _ => None) now channel_ids st) in
       let before := Redis.ttl now (Buffer._get_channel_key ch) st in
       Redis.ttl now (Buffer._get_channel_key ch) st'
       = if (before >? 0)%Z && (before <? 3600)%Z then Buffer.BUFFER_TTL else before).
Proof.
  split.
  - intros connected ttl_fault expire_fault. apply extend_lifts_only.
  - intros ch Hch. by apply extend_reaches_listed.
Qed.

(** X11.  [cleanup_expired_channels] deletes nothing and never raises;
    its count is positive only when a key that KEYS listed has an expiry
    instant that the clock passed before its TTL probe, so with no time
    passing it is 0. *)
Theorem cleanup_deletes_nothing (connected : bool) (keys_fault : option string)
    (ttl_fault : string -> option string) (now : Z) (probe_time : string -> Z)
    (st : Redis.Store) :
  ∃ cleaned_count,
    Buffer.cleanup_expired_channels connected keys_fault ttl_fault now probe_time st
    = (st, Eff.Done cleaned_count)
    ∧ (0 <= cleaned_count)%Z
    ∧ ((0 < cleaned_count)%Z ->
       ∃ key k e, st !! key = Some k ∧ Redis.expires_at k = Some e
                  ∧ (now <= e < probe_time key)%Z).
Proof.
  unfold Buffer.cleanup_expired_channels. destruct connected; cbn [negb].
  2:{ exists 0%Z. split; [done|]. split; lia. }
  unfold Eff.try_except, Eff.bind at 1, Eff.call, Eff.get, Eff.raise, Eff.ret.
  destruct keys_fault as [e|]; [exists 0%Z; split; [done|]; split; lia|].
  destruct (count_expired_run ttl_fault probe_time
              (Redis.keys now "channel:*:context" st) 0 st)
    as [[e ->]|(n & -> & Hn & Hwhy)]; [exists 0%Z; split; [done|]; split; lia|].
  exists n. split; [done|]. split; [lia|]. intros Hpos.
  destruct (Hwhy Hpos) as (key & Hin & Hgone).
  apply keys_live in Hin as [_ [k Hlive]].
  pose proof (live_some _ _ _ _ Hlive) as [Hk Hexp].
  exists key, k. unfold Redis.ttl, Redis.live in Hgone. rewrite Hk in Hgone.
  destruct (Redis.expires_at k) as [e|] eqn:Ee; [|cbv iota in Hgone; rewrite Ee in Hgone; lia].
  exists e. split; [done|]. split; [done|]. specialize (Hexp e eq_refl).
  destruct (Z.ltb_spec e (probe_time key)); [lia|]. cbv iota in Hgone.
  rewrite Ee in Hgone. lia.
Qed.

End Maintenance.

(** Instances on the sample traffic. *)

Lemma channels_are_isolated_witness :
  snd (Buffer.get_recent_context Samples.from_json true None 20 "firmware-team" 30 120
         (fst (Buffer.add_message Samples.to_json true Buffer.no_faults 10 "hardware-team"
                 (Samples.plain "1") ∅)))
  = snd (Buffer.get_recent_context Samples.from_json true None 20 "firmware-team" 30 120 ∅).
Proof.
  apply (channels_are_isolated Samples.to_json Samples.from_json ∅ true true Buffer.no_faults
           None 10 20 "hardware-team" "firmware-team" (Samples.plain "1") 30 120).
  discriminate.
Defined.


Lemma expire_fault_leaves_no_ttl_witness :
  snd (Buffer.add_message Samples.to_json true (Buffer.mkAddFaults None None (Some "timeout"))
         10 "hardware-team" (Samples.plain "1") ∅)
  = Eff.Done false
  ∧ snd (Buffer.get_recent_context Samples.from_json true None 1000000 "hardware-team" 30 20000
           (fst (Buffer.add_message Samples.to_json true
                   (Buffer.mkAddFaults None None (Some "timeout"))
                   10 "hardware-team" (Samples.plain "1") ∅)))
    = Eff.Done [Samples.plain "1"].
Proof.
  destruct (expire_fault_leaves_no_ttl Samples.to_json Samples.from_json ∅ 10 "hardware-team"
              (Samples.plain "1") "timeout") as (Hret & _ & Hread).
  - reflexivity.
  - split; [exact Hret|]. apply Hread; [reflexivity|lia|lia].
Defined.

(** ** More on hybrid retrieval *)

Lemma str_in_elem (x : string) (l : list string) : Matcher.str_in x l = true ↔ x ∈ l.
Proof.
  unfold Matcher.str_in. rewrite existsb_exists. split.
  - intros (y & Hy & Heq). apply String.eqb_eq in Heq as ->. by apply list_elem_of_In.
  - intros Hx. exists x. split; [by apply list_elem_of_In|apply String.eqb_refl].
Qed.

Lemma overlaps_elem (a b : list string) :
  Retrieval.overlaps a b = true ↔ ∃ c, c ∈ a ∧ c ∈ b.
Proof.
  unfold Retrieval.overlaps. rewrite existsb_exists. split.
  - intros (c & Hc & Hin). exists c. split; [by apply list_elem_of_In|by apply str_in_elem].
  - intros (c & Hc & Hin). exists c. split; [by apply list_elem_of_In|by apply str_in_elem].
Qed.

Lemma sorted_take_drop {A} (R : A -> A -> Prop) (n : nat) (l : list A) (x y : A) :
  StronglySorted R l -> x ∈ take n l -> y ∈ drop n l -> R x y.
Proof.
  intros Hs Hx Hy. rewrite <- (take_drop n l) in Hs.
  by eapply StronglySorted_app_1_elem_of.
Qed.

Section MoreRetrieval.

Import Retrieval.

Variable encode : string -> list Q.

(** What stage 1 returns: the first [limit] of the matching rows, newest
    first. *)
Lemma sql_filter_sorted (db : option Database) (now : Z) (user_components : list string)
    (time_filter_days : Z) (author_filter decision_type_filter : option string) (limit : Z)
    (candidates : list DecisionRow) :
  sql_filter db now user_components time_filter_days author_filter decision_type_filter limit
  = Eff.Done candidates ->
  ∃ d sorted,
    db = Some d ∧ (0 <= limit)%Z
    ∧ candidates = take (Z.to_nat limit) sorted
    ∧ StronglySorted (fun a b => (timestamp b <= timestamp a)%Z) sorted
    ∧ ∀ row, row ∈ sorted
             ↔ row ∈ decisions d
               ∧ where_clause now user_components time_filter_days author_filter
                              decision_type_filter row = true.
Proof.
  unfold sql_filter. destruct db as [d|]; [|discriminate].
  destruct (days_ago now time_filter_days) as [cutoff|e]; [|discriminate].
  destruct (Z.ltb_spec limit 0) as [Hneg|Hlim]; [discriminate|].
  intros [= <-]. eexists d, _. split; [done|]. split; [done|]. split; [done|].
  split; [apply order_by_sorted|].
  intros row. unfold order_by_timestamp_desc.
  rewrite stable_sort_elem, list_elem_of_In, filter_In, <- list_elem_of_In. done.
Qed.

(** X12.  A stage-1 query that succeeds returns at most [limit] rows of the
    table, each embedded, inside the time window, sharing a component with
    the user's when any are given, and by the author and of the type asked
    for; every matching row is returned when fewer than [limit] come back,
    and a matching row left out is no newer than any returned one. *)
Theorem sql_filter_newest_matching (db : option Database) (now : Z)
    (user_components : list string) (time_filter_days : Z)
    (author_filter decision_type_filter : option string) (limit : Z)
    (candidates : list DecisionRow) :
  sql_filter db now user_components time_filter_days author_filter decision_type_filter limit
  = Eff.Done candidates ->
  ∃ d, db = Some d
    ∧ (Z.of_nat (length candidates) <= limit)%Z
    ∧ (∀ row, row ∈ candidates ->
         row ∈ decisions d
         ∧ embedding_status row = "embedded"
         ∧ (now - time_filter_days * microseconds_per_day <= timestamp row)%Z
         ∧ (user_components ≠ [] ->
            ∃ c, c ∈ affected_components row ∧ c ∈ user_components)
         ∧ (∀ a, author_filter = Some a -> a ≠ "" -> author_user_id row = a)
         ∧ (∀ t, decision_type_filter = Some t -> t ≠ "" -> decision_type row = t))
    ∧ (∀ row, row ∈ decisions d ->
         where_clause now user_components time_filter_days author_filter
                      decision_type_filter row = true ->
         ((Z.of_nat (length candidates) < limit)%Z -> row ∈ candidates)
         ∧ ((row ∈ candidates -> False) ->
            ∀ c, c ∈ candidates -> (timestamp row <= timestamp c)%Z)).
Proof.
  intros Hrun.
  apply sql_filter_sorted in Hrun as (d & sorted & -> & Hlim & -> & Hdesc & Hsorted).
  exists d. split; [done|].
  split; [rewrite length_take; lia|].
  split.
  - intros row Hrow.
    assert (row ∈ sorted) as Hin
      by (apply elem_of_take in Hrow as (i & Hi & _); by eapply list_elem_of_lookup_2).
    apply Hsorted in Hin as [Hd Hw]. split; [done|].
    unfold where_clause in Hw.
    repeat (apply andb_prop in Hw as [Hw ?]).
    split; [by apply String.eqb_eq|]. split; [lia|].
    split; [|split].
    + intros Hne. destruct user_components as [|u us]; [done|].
      cbn [list_truthy] in *. by apply overlaps_elem.
    + intros a -> Hne. destruct a as [|c a]; [done|]. cbn [str_given default] in *.
      by apply String.eqb_eq.
    + intros t -> Hne. destruct t as [|c t]; [done|]. cbn [str_given default] in *.
      by apply String.eqb_eq.
  - intros row Hd Hw.
    assert (row ∈ sorted) as Hin by (by apply Hsorted).
    split.
    + intros Hshort. rewrite length_take in Hshort.
      rewrite take_ge by lia. done.
    + intros Hout c Hc.
      rewrite <- (take_drop (Z.to_nat limit) sorted) in Hin.
      apply elem_of_app in Hin as [Hin|Hin]; [done|].
      by apply (sorted_take_drop (fun a b => (timestamp b <= timestamp a)%Z)
                  (Z.to_nat limit) sorted c row).
Qed.

(** X13.  A user without a profile row resolves to no components, and
    with no components stage 1 does not filter by component at all: when
    fewer than [limit] rows come back, every embedded row inside the time
    window is among them, whatever it affects. *)
Theorem profile_less_user_is_unfiltered (d : Database) (user_id : string) (now : Z)
    (time_filter_days limit : Z) (candidates : list DecisionRow) :
  (∀ p, p ∈ user_profiles d -> p_user_id p ≠ user_id) ->
  resolve_components (Some d) user_id None = Eff.Done []
  ∧ (sql_filter (Some d) now [] time_filter_days None None limit = Eff.Done candidates ->
     (Z.of_nat (length candidates) < limit)%Z ->
     ∀ row, row ∈ decisions d ->
            embedding_status row = "embedded" ->
            (now - time_filter_days * microseconds_per_day <= timestamp row)%Z ->
            row ∈ candidates).
Proof.
  intros Hnone. split.
  - cbn [resolve_components get_user_components].
    destruct (find _ (user_profiles d)) as [p|] eqn:Hfind; [|done].
    apply find_some in Hfind as [Hin Heq]. apply String.eqb_eq in Heq.
    apply list_elem_of_In in Hin. by destruct (Hnone p Hin).
  - intros Hrun Hshort row Hrow Hemb Htime.
    apply sql_filter_sorted in Hrun as (d' & sorted & [= <-] & Hlim & -> & _ & Hsorted).
    rewrite length_take in Hshort. rewrite take_ge by lia.
    apply Hsorted. split; [done|]. unfold where_clause.
    rewrite Hemb. cbn [list_truthy str_given]. rewrite String.eqb_refl, !andb_true_r.
    cbn [andb]. apply Z.geb_le. lia.
Qed.




Lemma slice_to_length {A} (n : Z) (l : list A) :
  (0 <= n)%Z -> Z.of_nat (length (PyList.slice_to n l)) = Z.min n (Z.of_nat (length l)).
Proof.
  intros Hn. unfold PyList.slice_to.
  destruct (Z.ltb_spec n 0); [lia|]. rewrite length_take. lia.
Qed.

(** The similarity the loop gives one candidate. *)
Lemma score_candidates_scores (q : list Q) (cs : list DecisionRow) (rs : list RetrievalResult) :
  score_candidates q cs = Eff.Done rs ->
  length rs = length cs
  ∧ ∀ r, r ∈ rs ->
      ∃ c, c ∈ cs
        ∧ r = to_result c (r_similarity_score r) (embedding c)
        ∧ match embedding c with
          | Some (x :: v) => np_dot q (x :: v) = Eff.Done (r_similarity_score r)
          | _ => r_similarity_score r = 0%Q
          end.
Proof.
  revert rs. induction cs as [|c cs IH]; intros rs Hrs; cbn [score_candidates] in Hrs.
  - injection Hrs as <-. split; [done|]. intros r Hr. by apply elem_of_nil in Hr.
  - destruct (match embedding c with
              | Some (x :: v) => np_dot q (x :: v)
              | _ => Eff.Done 0%Q
              end) as [sim|e] eqn:Hsim; [|discriminate].
    destruct (score_candidates q cs) as [rs'|e]; [|discriminate].
    injection Hrs as <-. destruct (IH rs' eq_refl) as [Hlen Hall].
    split; [cbn [length]; by rewrite Hlen|].
    intros r Hr. apply elem_of_cons in Hr as [->|Hr].
    + exists c. split; [by left|]. split; [done|]. cbn [to_result r_similarity_score].
      destruct (embedding c) as [[|x v]|]; congruence.
    + destruct (Hall r Hr) as (c' & Hc' & Hre & Hsc). exists c'. split; [by right|done].
Qed.

Lemma np_dot_done (u v : list Q) :
  (∃ d, np_dot u v = Eff.Done d) ↔ length u = length v.
Proof.
  revert v. induction u as [|x u IH]; intros [|y v]; cbn [np_dot length].
  - split; [done|by eexists].
  - split; [by intros [d Hd]|done].
  - split; [by intros [d Hd]|done].
  - rewrite Nat.succ_inj_wd, <- IH. split.
    + intros [d Hd]. destruct (np_dot u v) as [d'|e]; [by eexists|done].
    + intros [d ->]. by eexists.
Qed.

Lemma sql_filter_limit db now uc days author dtype limit candidates :
  sql_filter db now uc days author dtype limit = Eff.Done candidates ->
  (0 <= limit)%Z ∧ (Z.of_nat (length candidates) <= limit)%Z.
Proof.
  unfold sql_filter. destruct db as [d|]; [|discriminate].
  destruct (days_ago now days) as [cutoff|e]; [|discriminate].
  destruct (Z.ltb_spec limit 0) as [Hneg|Hlim]; [discriminate|].
  intros [= <-]. split; [done|]. rewrite length_take. lia.
Qed.

Lemma semantic_results_length (query_text : string) (candidates : list DecisionRow)
    (limit : Z) (results : list RetrievalResult) :
  semantic_search encode query_text candidates limit = Eff.Done results ->
  (0 <= limit)%Z ->
  Z.of_nat (length results) = Z.min limit (Z.of_nat (length candidates)).
Proof.
  unfold semantic_search. destruct candidates as [|c cs]; cbn [list_truthy negb].
  { intros [= <-] ?. cbn [length]. lia. }
  destruct (score_candidates (encode query_text) (c :: cs)) as [scored|e] eqn:Hscored;
    [|discriminate].
  intros [= <-] Hlim. apply score_candidates_scores in Hscored as [Hlen _].
  rewrite slice_to_length by done.
  unfold sort_by_similarity. by rewrite stable_sort_length, Hlen.
Qed.


(** X15.  [semantic_search] succeeds exactly when every non-empty
    embedding among the candidates has the dimension of the query
    embedding: one embedding of another length fails the whole search. *)
Theorem semantic_search_needs_matching_dimensions (query_text : string)
    (candidates : list DecisionRow) (limit : Z) :
  (∃ results, semantic_search encode query_text candidates limit = Eff.Done results)
  ↔ ∀ c e, c ∈ candidates -> embedding c = Some e -> e ≠ [] ->
           length e = length (encode query_text).
Proof.
  unfold semantic_search.
  assert ((∃ rs, score_candidates (encode query_text) candidates = Eff.Done rs)
          ↔ ∀ c e, c ∈ candidates -> embedding c = Some e -> e ≠ [] ->
                   length e = length (encode query_text)) as Hloop.
  { induction candidates as [|c cs IH]; cbn [score_candidates].
    - split; [intros _ c e Hc; by apply elem_of_nil in Hc|by eexists].
    - split.
      + intros [rs Hrs] c' e Hc' He Hne.
        destruct (match embedding c with
                  | Some (x :: v) => np_dot (encode query_text) (x :: v)
                  | _ => Eff.Done 0%Q
                  end) as [sim|err] eqn:Hsim; [|discriminate].
        destruct (score_candidates (encode query_text) cs) as [rs'|err] eqn:Hrest;
          [|discriminate].
        apply elem_of_cons in Hc' as [->|Hc'].
        * rewrite He in Hsim. destruct e as [|x v]; [done|].
          symmetry. apply np_dot_done. by eexists.
        * apply (proj1 IH (ex_intro _ rs' eq_refl) c' e); done.
      + intros Hall.
        assert (∃ sim, match embedding c with
                       | Some (x :: v) => np_dot (encode query_text) (x :: v)
                       | _ => Eff.Done 0%Q
                       end = Eff.Done sim) as [sim ->].
        { destruct (embedding c) as [[|x v]|] eqn:He; [by eexists| |by eexists].
          apply np_dot_done. symmetry. apply (Hall c (x :: v)); [by left|done|done]. }
        destruct (proj2 IH) as [rs' ->]; [|by eexists].
        intros c' e Hc'. apply Hall. by right. }
  destruct candidates as [|c cs]; cbn [list_truthy negb].
  - split; [intros _ c e Hc; by apply elem_of_nil in Hc|by eexists].
  - rewrite <- Hloop. split.
    + intros [results Hres].
      destruct (score_candidates (encode query_text) (c :: cs)) as [rs|err];
        [by eexists|discriminate].
    + intros [rs ->]. by eexists.
Qed.

(** X16.  A [hybrid_search] that succeeds was given a non-negative limit,
    found at most [min 100 (5 * limit)] candidates, and reports
    [final_results = len results = min limit candidates_found] with the
    query type "sql_only" for a blank query and "hybrid" otherwise. *)
Theorem hybrid_search_counts (db : option Database) (now : Z) (ticks : Ticks)
    (user_id query_text : string) (user_components : option (list string))
    (time_filter_days limit : Z) (results : list RetrievalResult) (stats : RetrievalStats) :
  hybrid_search encode db now ticks user_id query_text user_components time_filter_days limit
  = Eff.Done (results, stats) ->
  (0 <= limit)%Z
  ∧ (0 <= candidates_found stats <= Z.min 100 (limit * 5))%Z
  ∧ final_results stats = Z.of_nat (length results)
  ∧ final_results stats = Z.min limit (candidates_found stats)
  ∧ query_type stats = (if Py.blank query_text then "sql_only" else "hybrid").
Proof.
  unfold hybrid_search.
  destruct (resolve_components db user_id user_components) as [uc|e]; [|discriminate].
  destruct (sql_filter db now uc time_filter_days None None (Z.min 100 (limit * 5)))
    as [candidates|e] eqn:Hsql; [|discriminate].
  pose proof (sql_filter_limit _ _ _ _ _ _ _ _ Hsql) as [Hmin Hlen].
  assert (0 <= limit)%Z as Hlim by lia.
  destruct (Py.blank query_text).
  - intros [= <- <-]. cbn [candidates_found final_results query_type].
    rewrite length_map, slice_to_length by done. repeat split; lia.
  - destruct (semantic_search encode query_text candidates limit) as [rs|e] eqn:Hsem;
      [|discriminate].
    intros [= <- <-]. cbn [candidates_found final_results query_type].
    apply semantic_results_length in Hsem; [|done]. repeat split; lia.
Qed.

End MoreRetrieval.

(** Instances on the sample table. *)

Lemma sql_filter_newest_matching_witness :
  ∃ d, Some Samples.database = Some d
    ∧ (Z.of_nat (length [Samples.row 3 "motor driver replaced" ["motor"; "firmware"] 300]) <= 1)%Z
    ∧ (∀ row, row ∈ [Samples.row 3 "motor driver replaced" ["motor"; "firmware"] 300] ->
         row ∈ Retrieval.decisions d
         ∧ Retrieval.embedding_status row = "embedded"
         ∧ (Samples.clock - 30 * Retrieval.microseconds_per_day <= Retrieval.timestamp row)%Z
         ∧ (["motor"] ≠ [] ->
            ∃ c, c ∈ Retrieval.affected_components row ∧ c ∈ ["motor"])
         ∧ (∀ a, None = Some a -> a ≠ "" -> Retrieval.author_user_id row = a)
         ∧ (∀ t, None = Some t -> t ≠ "" -> Retrieval.decision_type row = t))
    ∧ (∀ row, row ∈ Retrieval.decisions d ->
         Retrieval.where_clause Samples.clock ["motor"] 30 None None row = true ->
         ((Z.of_nat (length [Samples.row 3 "motor driver replaced" ["motor"; "firmware"] 300]) < 1)%Z ->
          row ∈ [Samples.row 3 "motor driver replaced" ["motor"; "firmware"] 300])
         ∧ ((row ∈ [Samples.row 3 "motor driver replaced" ["motor"; "firmware"] 300] -> False) ->
            ∀ c, c ∈ [Samples.row 3 "motor driver replaced" ["motor"; "firmware"] 300] ->
                 (Retrieval.timestamp row <= Retrieval.timestamp c)%Z)).
Proof.
  apply (sql_filter_newest_matching (Some Samples.database) Samples.clock ["motor"] 30 None None 1
           [Samples.row 3 "motor driver replaced" ["motor"; "firmware"] 300]).
  reflexivity.
Defined.

Lemma profile_less_user_is_unfiltered_witness :
  Retrieval.resolve_components (Some Samples.database) "carol" None = Eff.Done []
  ∧ (Retrieval.sql_filter (Some Samples.database) Samples.clock [] 30 None None 10
     = Eff.Done [Samples.row 3 "motor driver replaced" ["motor"; "firmware"] 300;
                 Samples.row 2 "pcb stackup changed" ["pcb"] 200;
                 Samples.row 1 "motor torque raised" ["motor"] 100] ->
     (Z.of_nat (length [Samples.row 3 "motor driver replaced" ["motor"; "firmware"] 300;
                        Samples.row 2 "pcb stackup changed" ["pcb"] 200;
                        Samples.row 1 "motor torque raised" ["motor"] 100]) < 10)%Z ->
     ∀ row, row ∈ Retrieval.decisions Samples.database ->
            Retrieval.embedding_status row = "embedded" ->
            (Samples.clock - 30 * Retrieval.microseconds_per_day <= Retrieval.timestamp row)%Z ->
            row ∈ [Samples.row 3 "motor driver replaced" ["motor"; "firmware"] 300;
                   Samples.row 2 "pcb stackup changed" ["pcb"] 200;
                   Samples.row 1 "motor torque raised" ["motor"] 100]).
Proof.
  apply (profile_less_user_is_unfiltered Samples.database "carol" Samples.clock 30 10
           [Samples.row 3 "motor driver replaced" ["motor"; "firmware"] 300;
            Samples.row 2 "pcb stackup changed" ["pcb"] 200;
            Samples.row 1 "motor torque raised" ["motor"] 100]).
  intros p Hp. apply list_elem_of_singleton in Hp as ->. discriminate.
Defined.


Lemma hybrid_search_counts_witness :
  ∃ results stats,
    Retrieval.hybrid_search Samples.encode (Some Samples.database) Samples.clock Samples.ticks
                            "alice" "torque" None 30 1
    = Eff.Done (results, stats)
    ∧ (0 <= 1)%Z
    ∧ (0 <= Retrieval.candidates_found stats <= Z.min 100 (1 * 5))%Z
    ∧ Retrieval.final_results stats = Z.of_nat (length results)
    ∧ Retrieval.final_results stats = Z.min 1 (Retrieval.candidates_found stats)
    ∧ Retrieval.query_type stats = (if Py.blank "torque" then "sql_only" else "hybrid").
Proof.
  destruct (Retrieval.hybrid_search Samples.encode (Some Samples.database) Samples.clock Samples.ticks
              "alice" "torque" None 30 1) as [[results stats]|e] eqn:Hrun.
  - exists results, stats. split; [reflexivity|].
    exact (hybrid_search_counts Samples.encode (Some Samples.database) Samples.clock Samples.ticks
             "alice" "torque" None 30 1 results stats Hrun).
  - vm_compute in Hrun. discriminate.
Defined.

(** ** More on gap detection *)

Lemma StronglySorted_weaken {A} (R R' : A -> A -> Prop) (l : list A) :
  (∀ a b, R a b -> R' a b) -> StronglySorted R l -> StronglySorted R' l.
Proof.
  intros Himp Hs. induction Hs as [|x l Hs IH Hx]; constructor; [done|].
  eapply Forall_impl; [exact Hx|]. intros b. apply Himp.
Qed.

Section MoreGaps.

Import Gaps.

(** The order of the two reports: an entry is followed only by entries
    whose key [(severity == 'warning', timestamp)] is not greater. *)
Lemma insert_by_key {A} (key : A -> bool * Z) (x : A) (l : list A) :
  StronglySorted (fun a b => key_greater (key b) (key a) = false) l ->
  StronglySorted (fun a b => key_greater (key b) (key a) = false)
                 (PyList.insert_by (fun y x => key_greater (key y) (key x)) x l).
Proof.
  induction l as [|y l IH]; intros Hs; cbn [PyList.insert_by].
  - repeat constructor.
  - apply StronglySorted_inv in Hs as [Hl Hy].
    destruct (key_greater (key y) (key x)) eqn:Hgt.
    + constructor; [by apply IH|].
      apply Forall_forall. intros z Hz. apply insert_by_elem in Hz as [->|Hz].
      * revert Hgt. unfold key_greater. destruct (key x) as [[] ?], (key y) as [[] ?];
          cbn [fst snd negb andb orb Bool.eqb]; intros; try done; lia.
      * by apply (proj1 (Forall_forall _ _) Hy).
    + constructor; [by constructor|]. constructor; [done|].
      eapply Forall_impl; [exact Hy|]. cbn beta. intros z. revert Hgt. unfold key_greater.
      destruct (key x) as [[] ?], (key y) as [[] ?], (key z) as [[] ?];
        cbn [fst snd negb andb orb Bool.eqb]; intros; try done; lia.
Qed.

Lemma stable_sort_by_key {A} (key : A -> bool * Z) (l : list A) :
  StronglySorted (fun a b => key_greater (key b) (key a) = false)
                 (PyList.stable_sort (fun y x => key_greater (key y) (key x)) l).
Proof.
  unfold PyList.stable_sort. induction l as [|x l IH]; cbn [foldr].
  - constructor.
  - by apply insert_by_key.
Qed.

Lemma key_not_greater (wa wb : bool) (ta tb : Z) :
  key_greater (wb, tb) (wa, ta) = false ->
  (wb = true -> wa = true) ∧ (wa = wb -> (tb <= ta)%Z).
Proof.
  unfold key_greater. destruct wa, wb; cbn [fst snd negb andb orb Bool.eqb];
    intros H; split; intros; try done; lia.
Qed.

Variable findall_changes : string -> list (string * string).

(** X17.  Both reports come out with every "warning" entry before every
    other entry, and newest first within entries of the same kind: the key
    [(severity == 'warning', timestamp)] sorted in reverse puts [True]
    first. *)
Theorem reports_list_warnings_first (t : Tables) (decisions : list Decision) :
  StronglySorted
    (fun a b =>
       (g_severity b = "warning" -> g_severity a = "warning")
       ∧ (String.eqb (g_severity a) "warning" = String.eqb (g_severity b) "warning" ->
          (g_timestamp b <= g_timestamp a)%Z))
    (_detect_missing_stakeholders t decisions)
  ∧ StronglySorted
      (fun a b =>
         (c_severity b = "warning" -> c_severity a = "warning")
         ∧ (String.eqb (c_severity a) "warning" = String.eqb (c_severity b) "warning" ->
            (c_timestamp b <= c_timestamp a)%Z))
      (_detect_conflicts findall_changes decisions).
Proof.
  split.
  - unfold _detect_missing_stakeholders.
    eapply StronglySorted_weaken;
      [|apply (stable_sort_by_key
                 (fun g => (String.eqb (g_severity g) "warning", g_timestamp g)))].
    cbn beta. intros a b H. apply key_not_greater in H as [Hw Ht]. split; [|done].
    rewrite <- !String.eqb_eq. done.
  - unfold _detect_conflicts.
    eapply StronglySorted_weaken;
      [|apply (stable_sort_by_key
                 (fun c => (String.eqb (c_severity c) "warning", c_timestamp c)))].
    cbn beta. intros a b H. apply key_not_greater in H as [Hw Ht]. split; [|done].
    rewrite <- !String.eqb_eq. done.
Qed.


Lemma consecutive_length {A} (l : list A) : length (consecutive l) = (length l - 1)%nat.
Proof.
  induction l as [|x l IH]; [done|]. destruct l as [|y l]; [done|].
  cbn [consecutive length] in *. lia.
Qed.

Lemma contradictions_length (requirement : string) (previous current : Decision) :
  (length (contradictions requirement previous current) <= 5)%nat.
Proof.
  unfold contradictions, contradiction_patterns. cbn [flat_map].
  repeat (destruct (_ || _); cbn [app length]); lia.
Qed.

Lemma flat_map_length_bound {A B} (f : A -> list B) (n : nat) (l : list A) :
  (∀ x, length (f x) <= n)%nat -> (length (flat_map f l) <= n * length l)%nat.
Proof.
  intros Hf. induction l as [|x l IH]; cbn [flat_map length]; [lia|].
  rewrite length_app. specialize (Hf x). lia.
Qed.

(** X18.  [_analyze_requirement_conflicts] compares neighbours only: it
    reports at most five conflicts for each of the [len - 1] pairs of
    decisions adjacent in time, each conflict carries the later decision's
    timestamp, and no decision of the group lies strictly between the two
    decisions of a conflict. *)
Theorem requirement_conflicts_join_neighbours (requirement : string)
    (decisions : list Decision) :
  (length (_analyze_requirement_conflicts requirement decisions)
   <= 5 * (length decisions - 1))%nat
  ∧ ∀ c, c ∈ _analyze_requirement_conflicts requirement decisions ->
      ∃ previous current,
        previous ∈ decisions ∧ current ∈ decisions
        ∧ c_decisions c = [_format_decision_summary previous;
                           _format_decision_summary current]
        ∧ c_timestamp c = timestamp current
        ∧ ∀ d, d ∈ decisions ->
               (timestamp d <= timestamp previous)%Z ∨ (timestamp current <= timestamp d)%Z.
Proof.
  unfold _analyze_requirement_conflicts. split.
  - destruct (Z.of_nat (length decisions) <=? 1)%Z; [cbn [length]; lia|].
    etransitivity.
    + apply (flat_map_length_bound _ 5). intros [p c]. apply contradictions_length.
    + rewrite consecutive_length. unfold PyList.sorted_asc. rewrite stable_sort_length. lia.
  - intros c Hc. destruct (Z.of_nat (length decisions) <=? 1)%Z; [by apply elem_of_nil in Hc|].
    apply list_elem_of_In, in_flat_map in Hc as ([previous current] & Hpair & Hc).
    apply list_elem_of_In in Hpair, Hc.
    apply consecutive_elem in Hpair as (l1 & l2 & Hsplit).
    pose proof (sorted_asc_sorted timestamp decisions) as Hsorted. rewrite Hsplit in Hsorted.
    assert (∀ d, d ∈ decisions ↔ d ∈ (l1 ++ previous :: current :: l2)%list) as Hmem.
    { intros d. rewrite <- Hsplit. unfold PyList.sorted_asc. by rewrite stable_sort_elem. }
    exists previous, current.
    split; [apply Hmem; set_solver|]. split; [apply Hmem; set_solver|].
    assert (c_decisions c = [_format_decision_summary previous;
                             _format_decision_summary current]
            ∧ c_timestamp c = timestamp current) as [Hd Ht].
    { unfold contradictions in Hc.
      apply list_elem_of_In, in_flat_map in Hc as ([pos neg] & _ & Hc).
      destruct (_ || _); [|done]. by destruct Hc as [<-|[]]. }
    split; [done|]. split; [done|].
    intros d Hd'. apply Hmem in Hd'.
    apply StronglySorted_app in Hsorted as (Hcross & _ & Htail).
    apply StronglySorted_inv in Htail as [Htail Hprev].
    apply StronglySorted_inv in Htail as [_ Hcur].
    apply elem_of_app in Hd' as [Hd'|Hd'].
    + left. apply (Hcross d previous); [done|by left].
    + apply elem_of_cons in Hd' as [->|Hd']; [left; lia|].
      apply elem_of_cons in Hd' as [->|Hd']; [right; lia|].
      right. by apply (proj1 (Forall_forall _ _) Hcur).
Qed.

Lemma dict_set_elem {V} (key : string) (value : V) (d : list (string * V)) (k : string) (v : V) :
  (k, v) ∈ dict_set key value d -> (k = key ∧ v = value) ∨ (k, v) ∈ d.
Proof.
  induction d as [|[k' v'] d IH]; cbn [dict_set].
  - intros [= -> ->]%list_elem_of_singleton. by left.
  - destruct (String.eqb_spec k' key) as [->|Hne].
    + intros [[= -> ->]|Hin]%elem_of_cons; [by left|right; by right].
    + intros [[= -> ->]|Hin]%elem_of_cons; [right; by left|].
      destruct (IH Hin) as [?|?]; [by left|right; by right].
Qed.

Lemma dict_set_keeps {V} (key : string) (value : V) (d : list (string * V)) (k : string) (v : V) :
  (k, v) ∈ d -> k ≠ key -> (k, v) ∈ dict_set key value d.
Proof.
  induction d as [|[k' v'] d IH]; cbn [dict_set]; [by intros ?%elem_of_nil|].
  intros [[= <- <-]|Hin]%elem_of_cons Hne.
  - destruct (String.eqb_spec k key) as [->|_]; [done|by left].
  - destruct (String.eqb_spec k' key) as [->|_]; right; [done|by apply IH].
Qed.

Lemma dict_set_has {V} (key : string) (value : V) (d : list (string * V)) :
  (key, value) ∈ dict_set key value d.
Proof.
  induction d as [|[k' v'] d IH]; cbn [dict_set]; [by left|].
  destruct (String.eqb_spec k' key) as [->|_]; [by left|by right].
Qed.

Lemma users_of_snoc (rows : list User) (row : User) :
  users_of (rows ++ [row]) = dict_set (u_user_id row) row (users_of rows).
Proof. unfold users_of. by rewrite foldl_app. Qed.

(** Every entry of the users dictionary is a profile row under its own
    id. *)
Lemma users_of_row (rows : list User) (x : string) (data : User) :
  (x, data) ∈ users_of rows -> data ∈ rows ∧ u_user_id data = x.
Proof.
  induction rows as [|row rows IH] using rev_ind; [by intros ?%elem_of_nil|].
  rewrite users_of_snoc. intros [[-> ->]|Hin]%dict_set_elem; [set_solver|].
  destruct (IH Hin). set_solver.
Qed.

(** With [user_id] a key of the table, every row is in the dictionary. *)
Lemma users_of_all (rows : list User) (data : User) :
  NoDup (map u_user_id rows) -> data ∈ rows -> (u_user_id data, data) ∈ users_of rows.
Proof.
  induction rows as [|row rows IH] using rev_ind; [by intros _ ?%elem_of_nil|].
  rewrite map_app, users_of_snoc. intros Hnd [Hin|Hin]%elem_of_app;
    [|apply list_elem_of_singleton in Hin as ->].
  - apply NoDup_app in Hnd as (Hnd & Hdisj & _).
    apply dict_set_keeps; [by apply IH|].
    intros Heq. apply (Hdisj (u_user_id data)); [by apply list_elem_of_fmap_2|].
    rewrite Heq. by left.
  - apply dict_set_has.
Qed.

(** An entry of [missing], against the dictionary. *)
Lemma missing_entry (users : list (string * User)) (participants : gset string)
    (author : string) (affected : list string) (m : Missing) :
  m ∈ missing_of users participants author (component_owners users affected) ->
  (∃ data, (m_user_id m, data) ∈ users
           ∧ m_owned_component m ∈ u_owned_components data
           ∧ m_user_name m = u_user_name data)
  ∧ m_owned_component m ∈ affected
  ∧ (m_user_id m ∉ participants) ∧ m_user_id m ≠ author.
Proof.
  unfold missing_of, component_owners. intros Hm.
  apply list_elem_of_In, in_flat_map in Hm as ([[uid uname] comp] & Hown & Hm).
  apply in_flat_map in Hown as (component & Hcomp & Hown).
  apply in_flat_map in Hown as ([uid' data] & Hdata & Hown).
  destruct (Matcher.str_in component (u_owned_components data)) eqn:Hin; [|done].
  destruct Hown as [[= <- <- <-]|[]].
  destruct (negb (bool_decide (uid' ∈ participants)) && negb (uid' =? author)%string)
    eqn:Hcond; [|done].
  destruct Hm as [<-|[]]. cbn [m_user_id m_owned_component m_user_name].
  apply andb_true_iff in Hcond as [Hp Ha].
  apply negb_true_iff, bool_decide_eq_false in Hp.
  apply negb_true_iff, String.eqb_neq in Ha.
  split; [|split; [by apply list_elem_of_In|done]].
  exists data. split; [by apply list_elem_of_In|]. split; [|done].
  apply existsb_exists in Hin as (y & Hy & Heq). apply String.eqb_eq in Heq as ->.
  by apply list_elem_of_In.
Qed.

(** X19.  Every gap of [_detect_missing_stakeholders] belongs to one of
    the decisions and names at least one stakeholder, each of them a
    profile row that owns an affected component and is neither a
    participant of the thread nor the author; and when [user_id] is a key
    of [user_profiles], every such owner of every decision is named in a
    gap of that decision. *)
Theorem stakeholder_gaps_name_outsiders (t : Tables) (decisions : list Decision) :
  (∀ g, g ∈ _detect_missing_stakeholders t decisions ->
     ∃ d, d ∈ decisions
       ∧ g_decision_id g = decision_id d ∧ g_thread_id g = thread_id d
       ∧ g_missing_stakeholders g ≠ []
       ∧ ∀ m, m ∈ g_missing_stakeholders g ->
           (m_user_id m ∉ participants_of t (thread_id d))
           ∧ m_user_id m ≠ author_user_id d
           ∧ m_owned_component m ∈ affected_components d
           ∧ ∃ row, row ∈ user_profiles t ∧ u_user_id row = m_user_id m
                    ∧ m_owned_component m ∈ u_owned_components row)
  ∧ (NoDup (map u_user_id (user_profiles t)) ->
     ∀ d row component,
       d ∈ decisions -> row ∈ user_profiles t ->
       component ∈ affected_components d -> component ∈ u_owned_components row ->
       (u_user_id row ∉ participants_of t (thread_id d)) ->
       u_user_id row ≠ author_user_id d ->
       ∃ g, g ∈ _detect_missing_stakeholders t decisions
            ∧ g_decision_id g = decision_id d
            ∧ u_user_id row ∈ map m_user_id (g_missing_stakeholders g)).
Proof.
  unfold _detect_missing_stakeholders. split.
  - intros g Hg. apply stable_sort_elem, list_elem_of_omap in Hg as (d & Hd & Hg).
    exists d. split; [done|]. unfold decision_gap in Hg.
    destruct (missing_of _ _ _ _) as [|m0 ms] eqn:Hmissing; [done|].
    cbn [list_truthy] in Hg. injection Hg as <-.
    cbn [g_decision_id g_thread_id g_missing_stakeholders].
    split; [done|]. split; [done|]. split; [done|].
    intros m Hm. rewrite <- Hmissing in Hm.
    apply missing_entry in Hm as ((data & Hdata & Hown & _) & Haff & Hp & Ha).
    split; [done|]. split; [done|]. split; [done|].
    apply users_of_row in Hdata as [Hrow Hid]. by exists data.
  - intros Hkey d row component Hd Hrow Hcomp Hown Hp Ha.
    assert (u_user_id row
            ∈ map m_user_id
                (missing_of (users_of (user_profiles t)) (participants_of t (thread_id d))
                   (author_user_id d)
                   (component_owners (users_of (user_profiles t)) (affected_components d))))
      as Hmissing.
    { apply missing_users. split; [|done].
      exists component, row. split; [done|]. split; [by apply users_of_all|done]. }
    destruct (decision_gap t (users_of (user_profiles t)) d) as [g|] eqn:Hgap.
    + exists g. split; [apply stable_sort_elem, list_elem_of_omap; by exists d|].
      unfold decision_gap in Hgap. destruct (list_truthy _); [|done].
      injection Hgap as <-. by cbn [g_decision_id g_missing_stakeholders].
    + unfold decision_gap in Hgap.
      destruct (missing_of _ _ _ _) as [|m0 ms]; [by apply elem_of_nil in Hmissing|done].
Qed.

End MoreGaps.

Section Grouping.

Import Gaps.

(** X20.  The grouping loop of [_detect_conflicts] leaves no repeated key
    and no empty group, and files under each key exactly the decisions that
    list it, in order, once for every time a decision lists it. *)
Theorem grouping_files_every_listing (keys : Decision -> list string) (ds : list Decision) :
  NoDup (map fst (group_by keys ds))
  ∧ ∀ k g, (k, g) ∈ group_by keys ds
           ↔ g ≠ []
             ∧ g = flat_map (fun d => flat_map (fun k' => if String.eqb k' k then [d] else [])
                                               (keys d)) ds.
Proof.
  destruct (files_outer keys ds [] []) as [Hnd Hlook].
  { split; [constructor|]. intros k. done. }
  split; [done|]. intros k g. rewrite dict_lookup_elem by done.
  unfold group_by. rewrite Hlook. cbn [app]. rewrite app_nil_r. fold (filed_under keys k ds).
  destruct (filed_under keys k ds) as [|g0 gs].
  - split; [done|]. by intros [? ->].
  - split; [intros [= <-]; done|]. by intros [_ ->].
Qed.

End Grouping.

(** ** More on the ingest pipeline *)

Lemma pretty_N_go_length (x : N) :
  ∀ s, (String.length s <= String.length (pretty_N_go x s))%nat.
Proof.
  induction x as [x IH] using (well_founded_induction N.lt_wf_0). intros s.
  destruct (decide (x = 0%N)) as [->|Hne]; [by rewrite pretty_N_go_0|].
  rewrite pretty_N_go_step by lia.
  etransitivity; [|apply IH; apply N.div_lt; lia]. cbn [String.length]. lia.
Qed.

Lemma pretty_positive_nonempty (p : positive) : pretty p ≠ "".
Proof.
  unfold pretty, pretty_positive, pretty, pretty_N.
  destruct (decide (N.pos p = 0%N)) as [|_]; [done|].
  rewrite pretty_N_go_step by lia. intros H.
  pose proof (pretty_N_go_length (N.pos p `div` 10)
                (String (pretty_N_char (N.pos p `mod` 10)) "")) as Hlen.
  rewrite H in Hlen. cbn [String.length] in Hlen. lia.
Qed.

Lemma pretty_Z_nonempty (z : Z) : pretty z ≠ "".
Proof.
  destruct z as [|p|p]; [done|apply pretty_positive_nonempty|].
  unfold pretty, pretty_Z. by rewrite app_cons_string.
Qed.

Lemma str_given_app (a b : string) : b ≠ "" -> Retrieval.str_given (Some (a +:+ b)) = true.
Proof.
  intros Hb. destruct a as [|c a]; [|by rewrite app_cons_string].
  rewrite app_nil_string. by destruct b.
Qed.

Section MoreOrchestrator.

Import Orchestrator.

Variable to_json : Buffer.LiveContextMessage -> string.
Variable from_json : string -> Buffer.Parse.
Variable self : Connections.
Variable env : Env.

#[local] Abbreviation gap_row := (Orchestrator.gap_row self env).
#[local] Abbreviation decision_row := Orchestrator.decision_row.
#[local] Abbreviation decision_recorded := (Orchestrator.decision_recorded self env).

Lemma gap_id_truthy : opt_truthy (Some (_generate_gap_id self env)) = true.
Proof.
  unfold opt_truthy, _generate_gap_id.
  destruct (negb (db_pool self)); [by rewrite app_cons_string|].
  destruct (gap_id_query env) as [result|e]; [|by rewrite app_cons_string].
  pose proof (pretty_Z_nonempty result). by destruct (pretty result).
Qed.

Lemma create_gap_run (b : ExtractedEntities) (mcs : list Matching) (uid : string) (w : World) :
  _create_gap_if_needed self env b mcs uid w
  = if db_pool self && negb (user_was_mentioned mcs uid)
       && match insert_gap_fault env with None => true | Some _ => false end
    then (mkWorld (store w) (decisions_table w) (gaps_table w ++ [gap_row b mcs uid])
                  (stats w),
          Eff.Done (Some (_generate_gap_id self env)))
    else (w, Eff.Done None).
Proof.
  unfold _create_gap_if_needed, user_was_mentioned.
  destruct (db_pool self); cbn [negb andb]; [|done].
  unfold Eff.try_except, Eff.bind, Eff.call, Eff.modify, Eff.ret, Eff.raise.
  destruct (existsb _ mcs); cbn [negb andb]; [done|].
  by destruct (insert_gap_fault env).
Qed.


Lemma none_found_fields :
  none_found !! "context_injected" = Some (VBool false)
  ∧ none_found !! "gap_created" = Some (VBool false)
  ∧ none_found !! "decision_created" = None ∧ none_found !! "decision_id" = None.
Proof. by vm_compute. Qed.

Lemma check_failed_fields (e : string) :
  check_failed e !! "context_injected" = Some (VBool false)
  ∧ check_failed e !! "gap_created" = Some (VBool false)
  ∧ check_failed e !! "decision_created" = None ∧ check_failed e !! "decision_id" = None.
Proof. by vm_compute. Qed.

Lemma injected_fields (g : bool) (c : string) (s : Q) (n : Z) (r : string) :
  injected g c s n r !! "context_injected" = Some (VBool true)
  ∧ injected g c s n r !! "gap_created" = Some (VBool g)
  ∧ injected g c s n r !! "confidence" = Some (VStr c)
  ∧ injected g c s n r !! "decision_created" = None
  ∧ injected g c s n r !! "decision_id" = None.
Proof. by vm_compute. Qed.

(** What the context check does to the world and which flags it answers:
    [rows] are the gap rows it inserted. *)
Lemma check_context_shape (ch : string) (b : ExtractedEntities) (uid mid text : string)
    (w : World) :
  ∃ w1 ctx (inj gap : bool) (rows : list GapRecord),
    _check_context_injection from_json self env ch b uid mid text w = (w1, Eff.Done ctx)
    ∧ w1 = mkWorld (store w) (decisions_table w) (gaps_table w ++ rows) (stats w)
    ∧ ctx !! "context_injected" = Some (VBool inj)
    ∧ ctx !! "gap_created" = Some (VBool gap)
    ∧ ctx !! "decision_created" = None ∧ ctx !! "decision_id" = None
    ∧ (gap = true -> inj = true ∧ db_pool self = true ∧ insert_gap_fault env = None)
    ∧ (rows = [] ∨ ∃ mcs, rows = [gap_row b mcs uid] ∧ user_was_mentioned mcs uid = false)
    ∧ (gap = true -> rows ≠ [])
    ∧ (rows ≠ [] -> gap = true ∨ ∃ e, response env = Eff.Raised e).
Proof.
  assert (Hw : ∀ w : World,
             w = mkWorld (store w) (decisions_table w) (gaps_table w ++ []) (stats w))
    by (intros [? ? ? ?]; cbn; by rewrite app_nil_r).
  unfold _check_context_injection, on_store.
  unfold Eff.try_except at 1. unfold Eff.bind at 1.
  destruct (get_recent_context_answers from_json (redis_connected self) (zrevrange_fault env)
              (buffer_now env) ch 30 120 (store w)) as [msgs ->].
  assert (set_store (fun _ => store w) w = w) as -> by (by destruct w).
  destruct msgs as [|msg msgs]; cbn [list_truthy negb].
  { exists w, none_found, false, false, []. split; [done|]. split; [apply Hw|].
    destruct none_found_fields as (? & ? & ? & ?). repeat split; try done. by left. }
  destruct (Matcher.should_inject_context b _ "medium") as [[should c] s].
  destruct should; cbn [negb].
  2:{ exists w, none_found, false, false, []. split; [done|]. split; [apply Hw|].
      destruct none_found_fields as (? & ? & ? & ?). repeat split; try done. by left. }
  set (mcs := flat_map _ (msg :: msgs)).
  unfold Eff.bind at 1.
  destruct (list_truthy mcs) eqn:Hmcs.
  - rewrite create_gap_run.
    destruct (db_pool self && negb (user_was_mentioned mcs uid)
              && match insert_gap_fault env with None => true | Some _ => false end) eqn:Hgap.
    + apply andb_prop in Hgap as [Hgap Hfault]. apply andb_prop in Hgap as [Hpool Hmen].
      apply negb_true_iff in Hmen.
      unfold Eff.bind, Eff.ret. destruct (response env) as [txt|e] eqn:Hresp.
      * eexists _, _, true, true, [gap_row b mcs uid]. split; [reflexivity|].
        split; [done|]. rewrite gap_id_truthy.
        destruct (injected_fields true c s (Z.of_nat (length mcs)) txt) as (? & ? & ? & ? & ?).
        repeat split; try done.
        -- by destruct (insert_gap_fault env).
        -- right. by exists mcs.
        -- intros _. by left.
      * eexists _, _, false, false, [gap_row b mcs uid]. split; [reflexivity|].
        split; [done|].
        destruct (check_failed_fields e) as (? & ? & ? & ?).
        repeat split; try done.
        -- right. by exists mcs.
        -- intros _. right. by exists e.
    + unfold Eff.bind, Eff.ret. destruct (response env) as [txt|e].
      * eexists _, _, true, false, []. split; [reflexivity|]. split; [apply Hw|].
        cbn [opt_truthy Retrieval.str_given].
        destruct (injected_fields false c s (Z.of_nat (length mcs)) txt) as (? & ? & ? & ? & ?).
        repeat split; try done. by left.
      * eexists _, _, false, false, []. split; [reflexivity|]. split; [apply Hw|].
        destruct (check_failed_fields e) as (? & ? & ? & ?).
        repeat split; try done. by left.
  - unfold Eff.bind, Eff.ret. destruct (response env) as [txt|e].
    + eexists _, _, true, false, []. split; [reflexivity|]. split; [apply Hw|].
      cbn [opt_truthy Retrieval.str_given].
      destruct (injected_fields false c s (Z.of_nat (length mcs)) txt) as (? & ? & ? & ? & ?).
      repeat split; try done. by left.
    + eexists _, _, false, false, []. split; [reflexivity|]. split; [apply Hw|].
      destruct (check_failed_fields e) as (? & ? & ? & ?).
      repeat split; try done. by left.
Qed.


Lemma create_decision_run (mid ch uid text : string) (entities : ExtractedEntities)
    (ts : Datetime) (w : World) :
  ∃ w1 r,
    (if Worthy._is_decision_worthy entities text
     then _create_decision_record self env mid ch uid text entities ts
     else Eff.ret None) w = (w1, Eff.Done r)
    ∧ store w1 = store w ∧ gaps_table w1 = gaps_table w
    ∧ context_injections (stats w1) = context_injections (stats w)
    ∧ gaps_created (stats w1) = gaps_created (stats w)
    ∧ decisions_table w1
      = (decisions_table w
         ++ if decision_recorded entities text
            then [decision_row mid ch uid text entities ts] else [])%list
    ∧ r = (if decision_recorded entities text
           then Some (strftime_ymd_hms ts +:+ "_" +:+ String.substring 0 8 mid) else None).
Proof.
  unfold decision_recorded.
  destruct (Worthy._is_decision_worthy entities text); cbn [andb].
  2:{ exists w, None. rewrite app_nil_r. by repeat split. }
  unfold _create_decision_record.
  destruct (db_pool self); cbn [negb andb].
  2:{ exists w, None. rewrite app_nil_r. by repeat split. }
  unfold Eff.try_except, Eff.bind, Eff.call, Eff.modify, Eff.ret, Eff.raise.
  destruct (insert_decision_fault env) as [e|].
  - eexists _, _. split; [reflexivity|]. cbn. rewrite app_nil_r. by repeat split.
  - eexists _, _. split; [reflexivity|]. cbn. by repeat split.
Qed.

(** One ingest whose extraction succeeds, step by step: the rows it
    inserts, the flags it answers and the counters it moves. *)
Lemma ingest_run (mid ch uid text : string) (ts : option Datetime) (w : World)
    (entities : ExtractedEntities) :
  extraction env = Eff.Done entities ->
  ∃ w' d (inj gap : bool) (rows : list GapRecord),
    process_incoming_message to_json from_json self env mid ch uid text ts w
    = (w', Eff.Done d)
    ∧ d !! "decision_created" = Some (VBool (decision_recorded entities text))
    ∧ d !! "decision_id"
      = Some (if decision_recorded entities text
              then VStr (strftime_ymd_hms (default (datetime_now env) ts) +:+ "_"
                         +:+ String.substring 0 8 mid)
              else VNone)
    ∧ decisions_table w'
      = (decisions_table w
         ++ if decision_recorded entities text
            then [decision_row mid ch uid text entities (default (datetime_now env) ts)]
            else [])%list
    ∧ d !! "context_injected" = Some (VBool inj)
    ∧ d !! "gap_created" = Some (VBool gap)
    ∧ context_injections (stats w')
      = (context_injections (stats w) + if inj then 1 else 0)%Z
    ∧ gaps_created (stats w') = (gaps_created (stats w) + if gap then 1 else 0)%Z
    ∧ gaps_table w' = (gaps_table w ++ rows)%list
    ∧ (gap = true -> inj = true ∧ db_pool self = true ∧ insert_gap_fault env = None)
    ∧ (rows = [] ∨ ∃ mcs, rows = [gap_row entities mcs uid]
                          ∧ user_was_mentioned mcs uid = false)
    ∧ (gap = true -> rows ≠ [])
    ∧ (rows ≠ [] -> gap = true ∨ ∃ e, response env = Eff.Raised e).
Proof.
  intros Hext. unfold process_incoming_message.
  unfold Eff.try_except at 1. unfold Eff.bind at 1. rewrite Hext.
  unfold Eff.bind at 1.
  destruct (create_decision_run mid ch uid text entities (default (datetime_now env) ts) w)
    as (w1 & r & -> & Hs1 & Hg1 & Hci1 & Hgc1 & Hd1 & Hr).
  unfold Eff.bind at 1. unfold on_store at 1.
  destruct (add_message_answers to_json (redis_connected self) (add_faults env)
              (buffer_now env) ch
              (Buffer.mkMessage mid uid text
                 (Buffer.mkEntityDict (Some (reqs entities)) (Some (components entities))
                    (Some (users_mentioned entities)) (Some (topics entities))
                    (Some (confidence entities)))
                 r (isoformat (default (datetime_now env) ts)) ch)
              (store w1)) as [st2 ->].
  unfold Eff.bind at 1.
  set (w2 := set_store (fun _ => st2) w1).
  assert (∃ w3,
            (if negb (redis_connected self && Buffer.faultless (add_faults env))
             then Eff.modify (set_stats (fun s =>
                    mkStats (messages_processed s) (context_injections s) (gaps_created s)
                            (avg_processing_time_ms s) (redis_failures s + 1) (sql_failures s)))
             else Eff.ret tt) w2 = (w3, Eff.Done tt)
            ∧ decisions_table w3 = decisions_table w1 ∧ gaps_table w3 = gaps_table w1
            ∧ context_injections (stats w3) = context_injections (stats w1)
            ∧ gaps_created (stats w3) = gaps_created (stats w1))
    as (w3 & -> & Hd3 & Hg3 & Hci3 & Hgc3).
  { destruct (negb _); eexists; (split; [reflexivity|]); by cbn. }
  unfold Eff.bind at 1.
  destruct (check_context_shape ch entities uid mid text w3)
    as (w4 & ctx & inj & gap & rows & -> & -> & Hinj & Hgap & Hdc & Hdi & Hflag & Hrows
        & Hsome & Hwhy).
  unfold Eff.bind, Eff.modify, Eff.ret.
  eexists _, _, inj, gap, rows. split; [reflexivity|].
  cbn [stats set_stats decisions_table gaps_table context_injections gaps_created].
  rewrite (union_lookup_base _ _ "decision_created" Hdc),
          (union_lookup_base _ _ "decision_id" Hdi),
          (union_lookup_ctx _ _ "context_injected" _ Hinj),
          (union_lookup_ctx _ _ "gap_created" _ Hgap).
  rewrite Hinj, Hgap. cbn [value_truthy].
  rewrite Hd3, Hd1, Hg3, Hg1, Hci3, Hci1, Hgc3, Hgc1, Hr.
  split.
  { destruct (decision_recorded entities text); [|by vm_compute].
    rewrite lookup_insert_eq. unfold opt_truthy. by rewrite str_given_app. }
  split.
  { rewrite lookup_insert_ne by done. rewrite lookup_insert_eq.
    by destruct (decision_recorded entities text). }
  repeat split; try done; by apply Hflag.
Qed.

(** X21.  When extraction succeeds, a decision row is inserted exactly
    when the message is decision-worthy, there is a pool and the insert
    does not fault: then one row is appended to [decisions], with the id
    made of the timestamp and the first eight characters of the message id,
    the thread [channel_message], the author, the text, the entities and
    the status "pending", and the result carries that id; otherwise the
    table is as it was and the result says that no decision was created. *)
Theorem decision_is_recorded_once (mid ch uid text : string) (ts : option Datetime)
    (w : World) (entities : ExtractedEntities) :
  extraction env = Eff.Done entities ->
  let recorded :=
    Worthy._is_decision_worthy entities text && db_pool self
    && match insert_decision_fault env with None => true | Some _ => false end in
  let timestamp := default (datetime_now env) ts in
  let decision_id := strftime_ymd_hms timestamp +:+ "_" +:+ String.substring 0 8 mid in
  ∃ w' d,
    process_incoming_message to_json from_json self env mid ch uid text ts w
    = (w', Eff.Done d)
    ∧ d !! "decision_created" = Some (VBool recorded)
    ∧ d !! "decision_id" = Some (if recorded then VStr decision_id else VNone)
    ∧ decisions_table w'
      = (decisions_table w
         ++ if recorded
            then [mkDecisionRecord decision_id (ch +:+ "_" +:+ mid) timestamp uid text
                                   (components entities) (reqs entities) "pending"]
            else [])%list.
Proof.
  intros Hext recorded timestamp decision_id.
  destruct (ingest_run mid ch uid text ts w entities Hext)
    as (w' & d & inj & gap & rows & Hrun & Hdc & Hdi & Hd & _).
  by exists w', d.
Qed.

(** X22.  When extraction succeeds, the two flags of the result are
    booleans, the counters [context_injections] and [gaps_created] move by
    one exactly when their flag is set, and [gaps] only grows, by at most
    one row, a warning of type "missing_stakeholder" assigned to the author
    of the message.  A set [gap_created] flag means an injected context, a
    pool and exactly one new row; a new row without the flag happens only
    when the response generation raises. *)
Theorem gap_flag_means_one_gap_row (mid ch uid text : string) (ts : option Datetime)
    (w : World) (entities : ExtractedEntities) :
  extraction env = Eff.Done entities ->
  ∃ w' d (context_injected gap_created : bool) (rows : list GapRecord),
    process_incoming_message to_json from_json self env mid ch uid text ts w
    = (w', Eff.Done d)
    ∧ d !! "context_injected" = Some (VBool context_injected)
    ∧ d !! "gap_created" = Some (VBool gap_created)
    ∧ context_injections (stats w')
      = (context_injections (stats w) + if context_injected then 1 else 0)%Z
    ∧ gaps_created (stats w') = (gaps_created (stats w) + if gap_created then 1 else 0)%Z
    ∧ gaps_table w' = (gaps_table w ++ rows)%list
    ∧ (length rows <= 1)%nat
    ∧ (∀ row, row ∈ rows ->
         gr_assignee_id row = uid ∧ gr_type row = "missing_stakeholder"
         ∧ gr_severity row = "warning")
    ∧ (gap_created = true ->
       context_injected = true ∧ db_pool self = true ∧ length rows = 1%nat)
    ∧ (rows ≠ [] -> gap_created = true ∨ ∃ e, response env = Eff.Raised e).
Proof.
  intros Hext.
  destruct (ingest_run mid ch uid text ts w entities Hext)
    as (w' & d & inj & gap & rows & Hrun & _ & _ & _ & Hinj & Hgap & Hci & Hgc & Hg
        & Hflag & Hrows & Hsome & Hwhy).
  exists w', d, inj, gap, rows. repeat split; try done.
  - destruct Hrows as [->|(mcs & -> & _)]; cbn [length]; lia.
  - destruct Hrows as [->|(mcs & -> & _)]; [by apply elem_of_nil in H|].
    by apply list_elem_of_singleton in H as ->.
  - destruct Hrows as [->|(mcs & -> & _)]; [by apply elem_of_nil in H|].
    by apply list_elem_of_singleton in H as ->.
  - destruct Hrows as [->|(mcs & -> & _)]; [by apply elem_of_nil in H|].
    by apply list_elem_of_singleton in H as ->.
  - by apply Hflag.
  - by apply Hflag.
  - destruct Hrows as [->|(mcs & -> & _)]; [by destruct (Hsome H)|done].
Qed.


(** A message that carries a requirement ID against a buffer that holds its
    own entities. *)
Lemma own_requirements_match (b b' : ExtractedEntities) :
  reqs b ≠ [] -> reqs b' = reqs b ->
  ∃ score, Matcher.calculate_overlap_score b [b'] = ("high", score)
           ∧ Matcher.should_inject_context b [b'] "medium" = (true, "high", score).
Proof.
  intros Hreqs Heq.
  assert ((list_to_set (reqs b) ∩ Matcher.aggregate reqs [b'] : gset string) ≠ ∅) as Hshared.
  { rewrite aggregate_union. cbn [map union_list]. rewrite Heq.
    destruct (reqs b) as [|r rs]; [done|]. set_solver. }
  assert (Matcher.calculate_overlap_score b [b']
          = ("high", (inject_Z (set_len (list_to_set (reqs b) ∩ Matcher.aggregate reqs [b']))
                      * 2)%Q)) as Hscore.
  { unfold Matcher.calculate_overlap_score. cbn [list_truthy negb].
    by rewrite (set_len_pos _ Hshared). }
  eexists. split; [exact Hscore|].
  unfold Matcher.should_inject_context, Matcher.should_inject_context_with.
  assert (list_truthy (reqs b) = true) as -> by (by destruct (reqs b)).
  cbn [negb andb]. rewrite Hscore.
  rewrite Qpositive_scaled; [done| |done].
  pose proof (set_len_pos _ Hshared) as H. apply Z.gtb_lt in H. lia.
Qed.

Lemma zrevrange_singleton (now : Z) (key : string) (stop : Z) (st : Redis.Store)
    (x : Redis.entry) (exp : option Z) :
  Redis.live now st key = Some (Redis.mkZKey [x] exp) -> (0 <= stop)%Z ->
  Redis.zrevrange now key 0 stop st = [x].
Proof.
  intros Hlive Hstop.
  destruct (zrevrange_head now key stop st _ x [] Hlive eq_refl Hstop) as [rest Hrest].
  destruct (zrevrange_prefix now key stop st) as [n Hn].
  unfold BufferInv.members_at in Hn. rewrite Hlive in Hn. cbn [Redis.zmembers rev app] in Hn.
  rewrite Hrest in Hn. destruct n as [|n]; [done|]. cbn [take] in Hn. rewrite take_nil in Hn.
  by rewrite Hrest, Hn.
Qed.

Lemma faultless_no_faults (faults : Buffer.AddFaults) :
  Buffer.faultless faults = true -> faults = Buffer.no_faults.
Proof. by destruct faults as [[?|] [?|] [?|]]. Qed.

(** X23.  The first message of a channel matches itself: when it carries
    a requirement ID, the buffer is connected and faultless, its JSON
    survives the round trip and the response is generated, the context
    check finds the message that was just added, so context is injected
    with confidence "high" and one matching context; and a gap assigned to
    the author is filed exactly when there is a pool, the author is not
    among the users the message mentions and the insert does not fault. *)
Theorem first_requirement_message_matches_itself (mid ch uid text : string)
    (ts : option Datetime) (w : World) (entities : ExtractedEntities) (txt : string) :
  extraction env = Eff.Done entities ->
  reqs entities ≠ [] ->
  redis_connected self = true ->
  Buffer.faultless (add_faults env) = true ->
  zrevrange_fault env = None ->
  Redis.live (buffer_now env) (store w) (Buffer._get_channel_key ch) = None ->
  (∀ decision_id,
     from_json (to_json (Buffer.mkMessage mid uid text
                           (Buffer.mkEntityDict (Some (reqs entities))
                              (Some (components entities)) (Some (users_mentioned entities))
                              (Some (topics entities)) (Some (confidence entities)))
                           decision_id (isoformat (default (datetime_now env) ts)) ch))
     = Buffer.Parsed
         (Buffer.mkMessage mid uid text
            (Buffer.mkEntityDict (Some (reqs entities))
               (Some (components entities)) (Some (users_mentioned entities))
               (Some (topics entities)) (Some (confidence entities)))
            decision_id (isoformat (default (datetime_now env) ts)) ch)) ->
  response env = Eff.Done txt ->
  let gap :=
    db_pool self && negb (Matcher.str_in ("@" +:+ uid) (users_mentioned entities))
    && match insert_gap_fault env with None => true | Some _ => false end in
  ∃ w' d,
    process_incoming_message to_json from_json self env mid ch uid text ts w
    = (w', Eff.Done d)
    ∧ d !! "context_injected" = Some (VBool true)
    ∧ d !! "confidence" = Some (VStr "high")
    ∧ d !! "matching_contexts_count" = Some (VInt 1)
    ∧ d !! "response" = Some (VStr txt)
    ∧ d !! "gap_created" = Some (VBool gap)
    ∧ ∃ rows, gaps_table w' = (gaps_table w ++ rows)%list
              ∧ map gr_assignee_id rows = (if gap then [uid] else []).
Proof.
  intros Hext Hreqs Hconn Hfaults Hzf Hfresh Hrt Hresp gap.
  unfold process_incoming_message.
  unfold Eff.try_except at 1. unfold Eff.bind at 1. rewrite Hext.
  unfold Eff.bind at 1.
  destruct (create_decision_run mid ch uid text entities (default (datetime_now env) ts) w)
    as (w1 & r & -> & Hs1 & Hg1 & _ & _ & _ & _).
  unfold Eff.bind at 1. unfold on_store at 1.
  rewrite Hconn, (faultless_no_faults _ Hfaults), add_message_store.
  set (msg := Buffer.mkMessage mid uid text _ r _ ch).
  set (key := Buffer._get_channel_key ch).
  assert (BufferInv.members_at (buffer_now env) (store w1) key = []) as ->
    by (unfold BufferInv.members_at, key; by rewrite Hs1, Hfresh).
  cbn [Redis.zremove List.filter Redis.zinsert length Nat.sub drop].
  set (st2 := <[key := _]> (store w1)).
  unfold Eff.bind at 1. cbn [negb]. unfold Eff.ret at 1.
  unfold Eff.bind at 1.
  set (w2 := set_store (fun _ => st2) w1).
  assert (_check_context_injection from_json self env ch entities uid mid text w2
          = (mkWorld st2 (decisions_table w1)
               (gaps_table w ++ if gap then [gap_row entities
                                               [mkMatching msg "high"
                                                  (snd (Matcher.calculate_overlap_score entities
                                                          [entities_of_message msg]))] uid]
                                else [])
               (stats w1),
             Eff.Done (injected gap "high"
                         (snd (Matcher.calculate_overlap_score entities
                                 [entities_of_message msg]))
                         1 txt))) as ->.
  { unfold _check_context_injection, on_store.
    unfold Eff.try_except at 1. unfold Eff.bind at 1.
    rewrite Hconn, Hzf, get_recent_context_run. fold key. cbn [store w2 set_store].
    rewrite (zrevrange_singleton _ key 29 st2 (to_json msg, buffer_now env)
               (Some (buffer_now env + Buffer.BUFFER_TTL)%Z));
      [|apply live_insert; cbn [Redis.expires_at]; intros e [= <-];
        unfold Buffer.BUFFER_TTL; lia|lia].
    cbn [Buffer.parse_recent].
    replace (buffer_now env >=? buffer_now env - 120 * 60)%Z with true
      by (symmetry; apply Z.geb_le; lia).
    subst msg. rewrite Hrt. set (msg := Buffer.mkMessage mid uid text _ r _ ch).
    cbn [BufferInv.answered list_truthy negb map].
    destruct (own_requirements_match entities (entities_of_message msg) Hreqs eq_refl)
      as (score & Hscore & Hinject).
    rewrite Hinject. cbn [negb flat_map]. rewrite Hscore. cbn [snd].
    replace (Matcher.str_in "high" ["high"; "medium"]) with true by done.
    cbn [app list_truthy length Z.of_nat Pos.of_succ_nat].
    unfold Eff.bind at 1. rewrite create_gap_run.
    assert (user_was_mentioned [mkMatching msg "high" score] uid
            = Matcher.str_in ("@" +:+ uid) (users_mentioned entities)) as ->
      by (unfold user_was_mentioned; cbn; by rewrite orb_false_r).
    fold gap. unfold Eff.bind, Eff.ret. rewrite Hresp.
    destruct gap.
    - rewrite gap_id_truthy. subst w2. unfold set_store.
      cbn [store decisions_table gaps_table stats]. by rewrite Hg1.
    - cbn [opt_truthy Retrieval.str_given]. subst w2. unfold set_store.
      cbn [store decisions_table gaps_table stats]. rewrite Hg1, app_nil_r. by destruct w1. }
  unfold Eff.bind, Eff.modify, Eff.ret.
  eexists _, _. split; [reflexivity|].
  cbn [gaps_table set_stats].
  destruct (injected_fields gap "high"
              (snd (Matcher.calculate_overlap_score entities [entities_of_message msg]))
              1 txt) as (Hinj & Hgapf & Hconf & _ & _).
  split; [by apply union_lookup_ctx|].
  split; [by apply union_lookup_ctx|].
  split; [apply union_lookup_ctx; by vm_compute|].
  split; [apply union_lookup_ctx; by vm_compute|].
  split; [by apply union_lookup_ctx|].
  eexists. split; [reflexivity|]. by destruct gap.
Qed.

End MoreOrchestrator.

(** Instances on alice's message. *)

Lemma decision_is_recorded_once_witness :
  ∃ w' d,
    Orchestrator.process_incoming_message Samples.to_json Samples.sent_from_json
      (Orchestrator.mkConnections true true) Samples.calm
      "msg_001" "hardware-team" "alice" "Updated REQ-245 motor torque" None Samples.world0
    = (w', Eff.Done d)
    ∧ d !! "decision_created" = Some (Orchestrator.VBool true)
    ∧ d !! "decision_id" = Some (Orchestrator.VStr "20240115_143000_msg_001")
    ∧ Orchestrator.decisions_table w'
      = [Orchestrator.mkDecisionRecord "20240115_143000_msg_001" "hardware-team_msg_001"
           Samples.stamp "alice" "Updated REQ-245 motor torque" ["motor"] ["REQ-245"]
           "pending"].
Proof.
  exact (decision_is_recorded_once Samples.to_json Samples.sent_from_json
           (Orchestrator.mkConnections true true) Samples.calm
           "msg_001" "hardware-team" "alice" "Updated REQ-245 motor torque" None
           Samples.world0 Samples.req_entities eq_refl).
Defined.

Lemma gap_flag_means_one_gap_row_witness :
  ∃ w' d (context_injected gap_created : bool) (rows : list Orchestrator.GapRecord),
    Orchestrator.process_incoming_message Samples.to_json Samples.sent_from_json
      (Orchestrator.mkConnections true true) Samples.calm
      "msg_001" "hardware-team" "alice" "Updated REQ-245 motor torque" None Samples.world0
    = (w', Eff.Done d)
    ∧ d !! "context_injected" = Some (Orchestrator.VBool context_injected)
    ∧ d !! "gap_created" = Some (Orchestrator.VBool gap_created)
    ∧ Orchestrator.context_injections (Orchestrator.stats w')
      = (Orchestrator.context_injections (Orchestrator.stats Samples.world0)
         + if context_injected then 1 else 0)%Z
    ∧ Orchestrator.gaps_created (Orchestrator.stats w')
      = (Orchestrator.gaps_created (Orchestrator.stats Samples.world0)
         + if gap_created then 1 else 0)%Z
    ∧ Orchestrator.gaps_table w' = (Orchestrator.gaps_table Samples.world0 ++ rows)%list
    ∧ (length rows <= 1)%nat
    ∧ (∀ row, row ∈ rows ->
         Orchestrator.gr_assignee_id row = "alice"
         ∧ Orchestrator.gr_type row = "missing_stakeholder"
         ∧ Orchestrator.gr_severity row = "warning")
    ∧ (gap_created = true ->
       context_injected = true
       ∧ Orchestrator.db_pool (Orchestrator.mkConnections true true) = true
       ∧ length rows = 1%nat)
    ∧ (rows ≠ [] ->
       gap_created = true ∨ ∃ e, Orchestrator.response Samples.calm = Eff.Raised e).
Proof.
  exact (gap_flag_means_one_gap_row Samples.to_json Samples.sent_from_json
           (Orchestrator.mkConnections true true) Samples.calm
           "msg_001" "hardware-team" "alice" "Updated REQ-245 motor torque" None
           Samples.world0 Samples.req_entities eq_refl).
Defined.

Lemma first_requirement_message_matches_itself_witness :
  ∃ w' d,
    Orchestrator.process_incoming_message Samples.link_to_json Samples.link_from_json
      (Orchestrator.mkConnections true true) Samples.calm
      "msg_001" "hardware-team" "alice" "Updated REQ-245 motor torque" None Samples.world0
    = (w', Eff.Done d)
    ∧ d !! "context_injected" = Some (Orchestrator.VBool true)
    ∧ d !! "confidence" = Some (Orchestrator.VStr "high")
    ∧ d !! "matching_contexts_count" = Some (Orchestrator.VInt 1)
    ∧ d !! "response" = Some (Orchestrator.VStr "Related discussion found")
    ∧ d !! "gap_created" = Some (Orchestrator.VBool true)
    ∧ ∃ rows, Orchestrator.gaps_table w'
              = (Orchestrator.gaps_table Samples.world0 ++ rows)%list
              ∧ map Orchestrator.gr_assignee_id rows = ["alice"].
Proof.
  apply (first_requirement_message_matches_itself Samples.link_to_json Samples.link_from_json
           (Orchestrator.mkConnections true true) Samples.calm
           "msg_001" "hardware-team" "alice" "Updated REQ-245 motor torque" None
           Samples.world0 Samples.req_entities "Related discussion found").
  - reflexivity.
  - discriminate.
  - reflexivity.
  - reflexivity.
  - reflexivity.
  - reflexivity.
  - intros [d|]; reflexivity.
  - reflexivity.
Defined.

(** ** The response cache *)

Section DictFacts.

Import Gaps Responder.

Context {V : Type}.

Lemma dict_lookup_set (key : string) (value : V) (d : list (string * V)) (k : string) :
  dict_lookup k (dict_set key value d)
  = if String.eqb key k then Some value else dict_lookup k d.
Proof.
  induction d as [|[k' v'] d IH]; cbn [dict_set].
  - rewrite dict_lookup_cons. by destruct (String.eqb key k).
  - destruct (String.eqb_spec k' key) as [->|Hne]; rewrite !dict_lookup_cons.
    + by destruct (String.eqb key k).
    + rewrite IH. destruct (String.eqb_spec k' k) as [->|_]; [|done].
      by destruct (String.eqb_spec key k) as [->|_].
Qed.

Lemma dict_lookup_del (key : string) (d : list (string * V)) (k : string) :
  dict_lookup k (dict_del key d) = if String.eqb key k then None else dict_lookup k d.
Proof.
  unfold dict_del. induction d as [|[k' v'] d IH]; cbn [List.filter fst].
  - by destruct (String.eqb key k).
  - destruct (String.eqb_spec k' key) as [->|Hne]; cbn [negb].
    + rewrite IH, dict_lookup_cons. by destruct (String.eqb key k).
    + rewrite !dict_lookup_cons, IH. destruct (String.eqb_spec k' k) as [->|_]; [|done].
      by destruct (String.eqb_spec key k) as [->|_].
Qed.

Lemma dict_del_elem (key : string) (d : list (string * V)) (kv : string * V) :
  kv ∈ dict_del key d ↔ kv ∈ d ∧ fst kv ≠ key.
Proof.
  unfold dict_del. rewrite list_elem_of_In, filter_In, <- list_elem_of_In.
  by rewrite negb_true_iff, String.eqb_neq.
Qed.

Lemma dict_del_keys (key : string) (d : list (string * V)) :
  NoDup (map fst d) ->
  NoDup (map fst (dict_del key d))
  ∧ (key ∈ map fst d -> S (length (dict_del key d)) = length d)
  ∧ (length (dict_del key d) <= length d)%nat.
Proof.
  unfold dict_del. induction d as [|[k' v'] d IH]; cbn [List.filter map fst length].
  - intros _. split; [constructor|]. split; [by intros ?%elem_of_nil|lia].
  - intros [Hk' Hd]%NoDup_cons. destruct (IH Hd) as (Hnd & Hlen & Hle).
    destruct (String.eqb_spec k' key) as [->|Hne]; cbn [negb map fst length].
    + split; [done|]. split; [|lia]. intros _.
      assert (List.filter (fun kv : string * V => negb (fst kv =? key)) d = d) as ->; [|done].
      apply forallb_filter_id, forallb_forall. intros [k v] Hin.
      apply negb_true_iff, String.eqb_neq. cbn [fst]. intros ->. apply Hk'.
      apply list_elem_of_fmap. exists (key, v). split; [done|by apply list_elem_of_In].
    + split; [|split; [|lia]].
      * apply NoDup_cons. split; [|done]. intros Hin.
        apply list_elem_of_fmap in Hin as (kv & Heq & Hin).
        apply list_elem_of_In, filter_In in Hin as [Hin _]. apply Hk'.
        apply list_elem_of_fmap. exists kv. split; [done|by apply list_elem_of_In].
      * intros [->|Hin]%elem_of_cons; [done|]. by rewrite Hlen.
Qed.

Lemma dict_set_keys (key : string) (value : V) (d : list (string * V)) :
  NoDup (map fst d) ->
  NoDup (map fst (dict_set key value d))
  ∧ (length (dict_set key value d) <= S (length d))%nat.
Proof.
  induction d as [|[k' v'] d IH]; cbn [dict_set map fst length].
  - intros _. split; [apply NoDup_singleton|lia].
  - intros [Hk' Hd]%NoDup_cons. destruct (String.eqb_spec k' key) as [->|Hne];
      cbn [map fst length].
    + split; [by apply NoDup_cons|lia].
    + destruct (IH Hd) as [Hnd Hlen]. split; [|lia].
      apply NoDup_cons. split; [|done]. intros Hin.
      apply list_elem_of_fmap in Hin as ([k v] & Heq & Hin). cbn [fst] in Heq. subst k'.
      apply dict_set_elem in Hin as [[-> _]|Hin]; [done|].
      apply Hk'. apply list_elem_of_fmap. by exists (k, v).
Qed.

End DictFacts.

Lemma string_compare_trans (a : string) :
  ∀ b c, (a ?= b)%string ≠ Gt -> (b ?= c)%string ≠ Gt -> (a ?= c)%string ≠ Gt.
Proof.
  induction a as [|x a IH]; intros [|y b] [|z c]; cbn [String.compare]; try done.
  unfold Ascii.compare.
  destruct (N.compare_spec (N_of_ascii x) (N_of_ascii y)) as [Hxy|Hxy|Hxy];
    destruct (N.compare_spec (N_of_ascii y) (N_of_ascii z)) as [Hyz|Hyz|Hyz];
    destruct (N.compare_spec (N_of_ascii x) (N_of_ascii z)) as [Hxz|Hxz|Hxz];
    try done; try lia.
  apply IH.
Qed.

Lemma string_leb_trans (a b c : string) :
  String.leb a b = true -> String.leb b c = true -> String.leb a c = true.
Proof.
  unfold String.leb. intros Hab Hbc.
  pose proof (string_compare_trans a b c) as H.
  destruct (a ?= b)%string, (b ?= c)%string, (a ?= c)%string; try done; by destruct H.
Qed.

Lemma sorted_strings_sorted (l : list string) :
  StronglySorted (fun a b => String.leb a b = true) (Responder.sorted_strings l).
Proof.
  unfold Responder.sorted_strings, PyList.stable_sort.
  induction l as [|x l IH]; cbn [foldr]; [constructor|].
  revert IH. generalize (foldr (PyList.insert_by (fun y x => negb (String.leb x y))) [] l).
  intros s Hs. induction s as [|y s IHs]; cbn [PyList.insert_by].
  - repeat constructor.
  - apply StronglySorted_inv in Hs as [Hs Hy].
    destruct (String.leb x y) eqn:Hle; cbn [negb].
    + constructor; [by constructor|]. constructor; [done|].
      eapply Forall_impl; [exact Hy|]. cbn beta. intros z Hz. by eapply string_leb_trans.
    + constructor; [by apply IHs|].
      apply Forall_forall. intros z Hz. apply insert_by_elem in Hz as [->|Hz].
      * by destruct (String.leb_total x y) as [H|H]; [congruence|].
      * by apply (proj1 (Forall_forall _ _) Hy).
Qed.

Lemma sorted_strings_perm (l l' : list string) :
  l ≡ₚ l' -> Responder.sorted_strings l = Responder.sorted_strings l'.
Proof.
  intros Hperm.
  apply (StronglySorted_unique_strong (fun a b => String.leb a b = true)).
  - intros a b _ _. apply String.leb_antisym.
  - apply sorted_strings_sorted.
  - apply sorted_strings_sorted.
  - unfold Responder.sorted_strings. by rewrite !stable_sort_perm.
Qed.

Section CacheFacts.

Import Gaps Responder.

Variable hash : string -> Z.
Variable max_size : Z.
Variable ttl_minutes : Z.

#[local] Abbreviation _generate_key := (Responder._generate_key hash).
#[local] Abbreviation get := (Responder.get hash ttl_minutes).
#[local] Abbreviation set := (Responder.set hash max_size).
#[local] Abbreviation generate_response :=
  (Responder.generate_response hash max_size ttl_minutes).
#[local] Abbreviation ttl_seconds := (Responder.ttl_seconds ttl_minutes).

(** What [set] leaves when it does not raise. *)
Lemma set_run (now : Z) (msg : string) (srcs : list string) (r : ContextualResponse)
    (cache cache' : Cache) (u : unit) :
  set now msg srcs r cache = (cache', Eff.Done u) ->
  ∃ kept, cache' = dict_set (_generate_key msg srcs) (r, now) kept
          ∧ (kept = cache ∧ (Z.of_nat (length cache) < max_size)%Z
             ∨ ∃ oldest, oldest_key cache = Some oldest ∧ kept = dict_del oldest cache
                         ∧ (max_size <= Z.of_nat (length cache))%Z).
Proof.
  unfold Responder.set, Eff.bind, Eff.get, Eff.modify, Eff.ret, Eff.raise.
  destruct (Z.geb_spec (Z.of_nat (length cache)) max_size) as [Hfull|Hroom].
  - destruct (oldest_key cache) as [oldest|] eqn:Hold; [|discriminate].
    intros [= <-]. eexists. split; [reflexivity|]. right. exists oldest. by repeat split.
  - intros [= <-]. eexists. split; [reflexivity|]. left. split; [done|lia].
Qed.

Lemma get_fresh (now : Z) (msg : string) (srcs : list string) (r : ContextualResponse)
    (ts : Z) (cache : Cache) :
  dict_lookup (_generate_key msg srcs) cache = Some (r, ts) ->
  (now - ts < ttl_seconds)%Z ->
  get now msg srcs cache = (cache, Eff.Done (Some r)).
Proof.
  intros Hlook Hfresh. unfold Responder.get, Eff.bind, Eff.get, Eff.ret. rewrite Hlook.
  by destruct (Z.ltb_spec (now - ts) ttl_seconds); [|lia].
Qed.

(** X24.  A response that [set] has stored is served until its TTL runs
    out: a [get] for the same message and sources less than [ttl_seconds]
    later returns it and leaves the cache alone, and so does
    [generate_response] for a request that created no gap, without using
    what the uncached responder would answer. *)
Theorem cached_response_is_served (now now' : Z) (msg : string) (srcs : list string)
    (r : ContextualResponse) (cache cache' : Cache) :
  set now msg srcs r cache = (cache', Eff.Done tt) ->
  (now' - now < ttl_seconds)%Z ->
  get now' msg srcs cache' = (cache', Eff.Done (Some r))
  ∧ ∀ now_set uncached matching_contexts,
      map (fun ctx => Buffer.message_id (Orchestrator.mc_message ctx)) matching_contexts = srcs ->
      generate_response now' now_set uncached msg matching_contexts false cache'
      = (cache', Eff.Done r).
Proof.
  intros Hset Hfresh. apply set_run in Hset as (kept & -> & _).
  assert (get now' msg srcs (dict_set (_generate_key msg srcs) (r, now) kept)
          = (dict_set (_generate_key msg srcs) (r, now) kept, Eff.Done (Some r))) as Hget.
  { apply (get_fresh _ _ _ _ now); [|done]. by rewrite dict_lookup_set, String.eqb_refl. }
  split; [done|]. intros now_set uncached mcs <-.
  unfold Responder.generate_response. unfold Eff.bind at 1. by rewrite Hget.
Qed.


Lemma oldest_fold (rest : Cache) :
  ∀ (seen : Cache) (bk : string) (bts : Z),
    (∃ v, (bk, (v, bts)) ∈ seen) ->
    (∀ k v ts, (k, (v, ts)) ∈ seen -> (bts <= ts)%Z) ->
    let best := foldl (fun best kv => if (snd (snd kv) <? snd best)%Z
                                      then (fst kv, snd (snd kv)) else best)
                      (bk, bts) rest in
    (∃ v, (fst best, (v, snd best)) ∈ (seen ++ rest)%list)
    ∧ ∀ k v ts, (k, (v, ts)) ∈ (seen ++ rest)%list -> (snd best <= ts)%Z.
Proof.
  induction rest as [|[k [v ts]] rest IH]; intros seen bk bts Hin Hleast; cbn [foldl].
  - rewrite app_nil_r. by split.
  - cbn [fst snd]. replace (seen ++ (k, (v, ts)) :: rest)%list
      with ((seen ++ [(k, (v, ts))]) ++ rest)%list by (by rewrite <- app_assoc).
    destruct (Z.ltb_spec ts bts) as [Hlt|Hge]; apply IH.
    + exists v. set_solver.
    + intros k' v' ts' [Hin'|Hin']%elem_of_app.
      * specialize (Hleast _ _ _ Hin'). lia.
      * apply list_elem_of_singleton in Hin'. injection Hin' as -> -> ->. lia.
    + destruct Hin as [v0 Hin]. exists v0. set_solver.
    + intros k' v' ts' [Hin'|Hin']%elem_of_app.
      * by apply (Hleast k' v').
      * apply list_elem_of_singleton in Hin'. by injection Hin' as -> -> ->.
Qed.

Lemma oldest_key_least (cache : Cache) :
  cache ≠ [] ->
  ∃ k v ts, oldest_key cache = Some k ∧ (k, (v, ts)) ∈ cache
            ∧ ∀ k' v' ts', (k', (v', ts')) ∈ cache -> (ts <= ts')%Z.
Proof.
  destruct cache as [|[k [v ts]] rest]; [done|]. intros _. cbn [oldest_key].
  destruct (oldest_fold rest [(k, (v, ts))] k ts) as [[v0 Hin] Hleast].
  - exists v. by left.
  - intros k' v' ts' Hin. apply list_elem_of_singleton in Hin. injection Hin as -> -> ->. lia.
  - eexists _, v0, _. split; [reflexivity|]. by split.
Qed.

(** X25.  [set] keeps the cache within [max_size]: on a cache with no
    repeated key and at most [max_size >= 1] entries it does not raise,
    leaves no repeated key and at most [max_size] entries, stores the
    response under its key with the time of the call, and drops no other
    entry unless it was one of least timestamp. *)
Theorem cache_stays_within_max_size (now : Z) (msg : string) (srcs : list string)
    (r : ContextualResponse) (cache : Cache) :
  NoDup (map fst cache) ->
  (Z.of_nat (length cache) <= max_size)%Z ->
  (1 <= max_size)%Z ->
  ∃ cache',
    set now msg srcs r cache = (cache', Eff.Done tt)
    ∧ NoDup (map fst cache')
    ∧ (Z.of_nat (length cache') <= max_size)%Z
    ∧ dict_lookup (_generate_key msg srcs) cache' = Some (r, now)
    ∧ ∀ k v ts, (k, (v, ts)) ∈ cache -> k ≠ _generate_key msg srcs ->
        (k, (v, ts)) ∈ cache'
        ∨ ∀ k' v' ts', (k', (v', ts')) ∈ cache -> (ts <= ts')%Z.
Proof.
  intros Hnd Hlen Hmax.
  unfold Responder.set, Eff.bind, Eff.get, Eff.modify, Eff.ret, Eff.raise.
  destruct (Z.geb_spec (Z.of_nat (length cache)) max_size) as [Hfull|Hroom].
  - destruct (oldest_key_least cache) as (k0 & v0 & ts0 & -> & Hin0 & Hleast);
      [by destruct cache; [cbn [length] in Hfull; lia|]|].
    destruct (dict_del_keys k0 cache Hnd) as (Hnd1 & Hlen1 & _).
    destruct (dict_set_keys (_generate_key msg srcs) (r, now) _ Hnd1) as [Hnd2 Hlen2].
    eexists. split; [reflexivity|]. split; [done|].
    split.
    { rewrite <- Hlen1 in Hfull, Hlen.
      - lia.
      - apply list_elem_of_fmap. by exists (k0, (v0, ts0)).
      - apply list_elem_of_fmap. by exists (k0, (v0, ts0)). }
    split; [by rewrite dict_lookup_set, String.eqb_refl|].
    intros k v ts Hin Hne. destruct (decide (k = k0)) as [->|Hne0].
    + right. apply (dict_lookup_elem _ _ _ Hnd) in Hin, Hin0.
      rewrite Hin in Hin0. injection Hin0 as -> ->. done.
    + left. apply dict_set_keeps; [|done]. by apply dict_del_elem.
  - destruct (dict_set_keys (_generate_key msg srcs) (r, now) _ Hnd) as [Hnd2 Hlen2].
    eexists. split; [reflexivity|]. split; [done|]. split; [lia|].
    split; [by rewrite dict_lookup_set, String.eqb_refl|].
    intros k v ts Hin Hne. left. by apply dict_set_keeps.
Qed.

Lemma get_shrinks (now : Z) (msg : string) (srcs : list string) (cache : Cache) :
  ∃ cache' found,
    get now msg srcs cache = (cache', Eff.Done found)
    ∧ (∀ kv, kv ∈ cache' -> kv ∈ cache)
    ∧ (found = None
       ∨ ∃ r ts, found = Some r ∧ cache' = cache
                 ∧ dict_lookup (_generate_key msg srcs) cache = Some (r, ts)
                 ∧ (now - ts < ttl_seconds)%Z).
Proof.
  unfold Responder.get, Eff.bind, Eff.get, Eff.modify, Eff.ret.
  destruct (dict_lookup _ cache) as [[r ts]|] eqn:Hlook.
  - destruct (Z.ltb_spec (now - ts) ttl_seconds) as [Hfresh|Hold].
    + eexists _, _. split; [reflexivity|]. split; [done|]. right. by exists r, ts.
    + eexists _, _. split; [reflexivity|]. split; [|by left].
      intros kv Hkv. by apply dict_del_elem in Hkv as [Hkv _].
  - eexists _, _. split; [reflexivity|]. split; [done|by left].
Qed.

(** X26.  A response for a request that created a gap, or one whose
    confidence is neither "high" nor "medium", is never stored:
    [generate_response] does not raise and adds nothing to the cache; with
    a gap it answers what the uncached responder answers, and otherwise it
    answers that or an entry of the cache that is still fresh. *)
Theorem uncacheable_responses_are_not_stored (now_get now_set : Z)
    (uncached : ContextualResponse) (msg : string)
    (matching_contexts : list Orchestrator.Matching) (gap_created : bool) (cache : Cache) :
  gap_created = true
  ∨ Matcher.str_in (confidence uncached) ["high"; "medium"] = false ->
  ∃ cache' response,
    generate_response now_get now_set uncached msg matching_contexts gap_created cache
    = (cache', Eff.Done response)
    ∧ (∀ kv, kv ∈ cache' -> kv ∈ cache)
    ∧ (gap_created = true -> response = uncached)
    ∧ (response = uncached
       ∨ ∃ ts, dict_lookup
                 (_generate_key msg
                    (map (fun ctx => Buffer.message_id (Orchestrator.mc_message ctx))
                         matching_contexts))
                 cache = Some (response, ts)
               ∧ (now_get - ts < ttl_seconds)%Z).
Proof.
  intros Hwhy. unfold Responder.generate_response. unfold Eff.bind at 1.
  destruct (get_shrinks now_get msg
              (map (fun ctx => Buffer.message_id (Orchestrator.mc_message ctx))
                   matching_contexts) cache)
    as (cache1 & found & Hget & Hsub & Hfound).
  fold get. rewrite Hget.
  assert (negb gap_created && Matcher.str_in (confidence uncached) ["high"; "medium"] = false)
    as Hskip by (destruct Hwhy as [->| ->]; [done|by rewrite andb_false_r]).
  destruct found as [r|].
  - destruct gap_created.
    + rewrite Hskip. unfold Eff.bind, Eff.ret. eexists _, _. split; [reflexivity|].
      split; [done|]. split; [done|by left].
    + unfold Eff.ret. eexists _, _. split; [reflexivity|]. split; [done|].
      split; [done|]. right.
      destruct Hfound as [?|(r' & ts & [= <-] & _ & Hlook & Hfresh)]; [done|]. by exists ts.
  - rewrite Hskip. unfold Eff.bind, Eff.ret.
    exists cache1, uncached. split; [by destruct gap_created|].
    split; [done|]. split; [done|by left].
Qed.

(** X27.  The cache key does not depend on the order of the context
    sources. *)
Theorem cache_key_ignores_source_order (msg : string) (srcs srcs' : list string) :
  srcs ≡ₚ srcs' -> _generate_key msg srcs = _generate_key msg srcs'.
Proof.
  intros Hperm. unfold Responder._generate_key. by rewrite (sorted_strings_perm srcs srcs').
Qed.

End CacheFacts.

(** Instances on a sample response. *)

Lemma cached_response_is_served_witness :
  Responder.get Samples.str_hash 30 1000 "motor torque?" ["msg_001"]
    [(Responder._generate_key Samples.str_hash "motor torque?" ["msg_001"],
      (Samples.answer, 100%Z))]
  = ([(Responder._generate_key Samples.str_hash "motor torque?" ["msg_001"],
       (Samples.answer, 100%Z))],
     Eff.Done (Some Samples.answer))
  ∧ ∀ now_set uncached matching_contexts,
      map (fun ctx => Buffer.message_id (Orchestrator.mc_message ctx)) matching_contexts
      = ["msg_001"] ->
      Responder.generate_response Samples.str_hash 100 30 1000 now_set uncached
        "motor torque?" matching_contexts false
        [(Responder._generate_key Samples.str_hash "motor torque?" ["msg_001"],
          (Samples.answer, 100%Z))]
      = ([(Responder._generate_key Samples.str_hash "motor torque?" ["msg_001"],
           (Samples.answer, 100%Z))],
         Eff.Done Samples.answer).
Proof.
  apply (cached_response_is_served Samples.str_hash 100 30 100 1000 "motor torque?"
           ["msg_001"] Samples.answer []).
  - reflexivity.
  - unfold Responder.ttl_seconds. lia.
Defined.

(** With room for two entries and two stored, the entry stored at 20 is
    evicted and the one stored at 50 is kept. *)
Lemma cache_stays_within_max_size_witness :
  (∃ cache',
    Responder.set Samples.str_hash 2 100 "motor torque?" ["msg_001"] Samples.answer Samples.full_cache
    = (cache', Eff.Done tt)
    ∧ NoDup (map fst cache')
    ∧ (Z.of_nat (length cache') <= 2)%Z
    ∧ Gaps.dict_lookup (Responder._generate_key Samples.str_hash "motor torque?" ["msg_001"])
                       cache'
      = Some (Samples.answer, 100%Z)
    ∧ ∀ k v ts, (k, (v, ts)) ∈ Samples.full_cache ->
        k ≠ Responder._generate_key Samples.str_hash "motor torque?" ["msg_001"] ->
        (k, (v, ts)) ∈ cache'
        ∨ ∀ k' v' ts', (k', (v', ts')) ∈ Samples.full_cache -> (ts <= ts')%Z)
  ∧ Responder.set Samples.str_hash 2 100 "motor torque?" ["msg_001"] Samples.answer Samples.full_cache
    = ([ (Responder._generate_key Samples.str_hash "gear ratio?" ["msg_001"],
          (Samples.answer, 50%Z));
         (Responder._generate_key Samples.str_hash "motor torque?" ["msg_001"],
          (Samples.answer, 100%Z)) ],
       Eff.Done tt).
Proof.
  split.
  - apply (cache_stays_within_max_size Samples.str_hash 2 100 "motor torque?" ["msg_001"]
             Samples.answer Samples.full_cache).
    + vm_compute. apply NoDup_cons. split; [|apply NoDup_singleton].
      intros H. apply list_elem_of_singleton in H. discriminate H.
    + cbn [length Samples.full_cache]. lia.
    + lia.
  - vm_compute. reflexivity.
Defined.

Lemma uncacheable_responses_are_not_stored_witness :
  ∃ cache' response,
    Responder.generate_response Samples.str_hash 100 30 1000 1001 Samples.answer
      "motor torque?" [] true []
    = (cache', Eff.Done response)
    ∧ (∀ kv, kv ∈ cache' -> kv ∈ ([] : Responder.Cache))
    ∧ (true = true -> response = Samples.answer)
    ∧ (response = Samples.answer
       ∨ ∃ ts, Gaps.dict_lookup
                 (Responder._generate_key Samples.str_hash "motor torque?"
                    (map (fun ctx => Buffer.message_id (Orchestrator.mc_message ctx)) []))
                 ([] : Responder.Cache) = Some (response, ts)
               ∧ (1000 - ts < Responder.ttl_seconds 30)%Z).
Proof.
  apply (uncacheable_responses_are_not_stored Samples.str_hash 100 30 1000 1001 Samples.answer
           "motor torque?" [] true []).
  left. reflexivity.
Defined.

Lemma cache_key_ignores_source_order_witness :
  Responder._generate_key Samples.str_hash "motor torque?" ["msg_002"; "msg_001"]
  = Responder._generate_key Samples.str_hash "motor torque?" ["msg_001"; "msg_002"].
Proof.
  apply (cache_key_ignores_source_order Samples.str_hash "motor torque?"
           ["msg_002"; "msg_001"] ["msg_001"; "msg_002"]).
  apply Permutation_swap.
Defined.

(** ** Broken dependencies *)

Lemma flat_map_nil {A B} (f : A -> list B) (l : list A) :
  (∀ x, x ∈ l -> f x = []) -> flat_map f l = [].
Proof.
  induction l as [|x l IH]; intros H; cbn [flat_map]; [done|].
  rewrite (H x) by (by left). rewrite IH; [done|]. intros y Hy. apply H. by right.
Qed.

Section BrokenDependencies.

Import Gaps.

Lemma dependents_of_elem (dependencies : list (string * list string)) (component dep : string) :
  dep ∈ dependents_of dependencies component
  ↔ ∃ deps, (dep, deps) ∈ dependencies ∧ component ∈ deps.
Proof.
  unfold dependents_of. rewrite list_elem_of_In, in_flat_map. split.
  - intros ([dependent deps] & Hin & Hdep).
    destruct (Matcher.str_in component deps) eqn:Hc; [|done].
    destruct Hdep as [<-|[]]. exists deps.
    split; [by apply list_elem_of_In|by apply str_in_elem].
  - intros (deps & Hin & Hc). exists (dep, deps). split; [by apply list_elem_of_In|].
    apply str_in_elem in Hc. rewrite Hc. by left.
Qed.

Lemma missing_dependent_owners_elem (t : Tables) (participants : gset string)
    (dependents : list string) (o : MissingOwner) :
  o ∈ missing_dependent_owners t participants dependents
  ↔ ∃ row, row ∈ user_profiles t
           ∧ o = mkMissingOwner (u_user_id row) (u_user_name row) (o_dependent_component o)
           ∧ o_dependent_component o ∈ dependents
           ∧ o_dependent_component o ∈ u_owned_components row
           ∧ (u_user_id row ∉ participants).
Proof.
  unfold missing_dependent_owners. rewrite list_elem_of_In, in_flat_map. split.
  - intros (row & Hrow & Ho). apply in_flat_map in Ho as (dep & Hdep & Ho).
    destruct (Matcher.str_in dep (u_owned_components row)) eqn:Hown; [|done].
    destruct (bool_decide (u_user_id row ∈ participants)) eqn:Hp; [done|].
    destruct Ho as [<-|[]]. exists row. cbn [o_dependent_component].
    split; [by apply list_elem_of_In|]. split; [done|].
    split; [by apply list_elem_of_In|]. split; [by apply str_in_elem|].
    by apply bool_decide_eq_false in Hp.
  - intros (row & Hrow & Ho & Hdep & Hown & Hp). exists row.
    split; [by apply list_elem_of_In|]. apply in_flat_map.
    exists (o_dependent_component o). split; [by apply list_elem_of_In|].
    apply str_in_elem in Hown. rewrite Hown.
    rewrite (bool_decide_eq_false_2 _ Hp). cbn [negb andb]. left. symmetry. exact Ho.
Qed.

(** X28.  [_detect_broken_dependencies] reports the absent owners of
    dependents, and nothing else.  Every entry has severity "warning",
    comes from a decision and one of its affected components, lists as
    dependents exactly the keys of the dependency map whose list holds that
    component (at least one), and lists at least one missing owner; each
    missing owner is a profile row owning one of those dependents, whose
    user is not among the participants of the decision's thread.
    Conversely, every such owner is listed in an entry for that decision
    and component.  With the dependency map of [DecisionGraphBuilder], a
    decision that affects only components which no list of the map names
    (the six below) gives no entry. *)
Theorem broken_dependencies_name_absent_owners (dependencies : list (string * list string))
    (t : Tables) (decisions : list Decision) :
  (∀ b, b ∈ _detect_broken_dependencies dependencies t decisions ->
     b_severity b = "warning"
     ∧ ∃ d, d ∈ decisions
         ∧ b_decision_id b = decision_id d ∧ b_timestamp b = timestamp d
         ∧ b_affected_component b ∈ affected_components d
         ∧ b_dependent_components b ≠ []
         ∧ (∀ dep, dep ∈ b_dependent_components b
                   ↔ ∃ deps, (dep, deps) ∈ dependencies ∧ b_affected_component b ∈ deps)
         ∧ b_missing_owners b ≠ []
         ∧ ∀ o, o ∈ b_missing_owners b ->
             o_dependent_component o ∈ b_dependent_components b
             ∧ (o_user_id o ∉ participants_of t (thread_id d))
             ∧ ∃ row, row ∈ user_profiles t ∧ u_user_id row = o_user_id o
                      ∧ o_dependent_component o ∈ u_owned_components row)
  ∧ (∀ d component dep deps row,
       d ∈ decisions -> component ∈ affected_components d ->
       (dep, deps) ∈ dependencies -> component ∈ deps ->
       row ∈ user_profiles t -> dep ∈ u_owned_components row ->
       (u_user_id row ∉ participants_of t (thread_id d)) ->
       ∃ b, b ∈ _detect_broken_dependencies dependencies t decisions
            ∧ b_decision_id b = decision_id d ∧ b_affected_component b = component
            ∧ mkMissingOwner (u_user_id row) (u_user_name row) dep ∈ b_missing_owners b)
  ∧ ((∀ d component, d ∈ decisions -> component ∈ affected_components d ->
        component ∈ ["Motor-XYZ"; "PCB-Rev3"; "Enclosure"; "BOM"; "Requirements";
                     "Test-Fixtures"]) ->
     _detect_broken_dependencies component_dependencies t decisions = []).
Proof.
  split; [|split].
  - intros b Hb. unfold _detect_broken_dependencies in Hb.
    apply list_elem_of_In, in_flat_map in Hb as (d & Hd & Hb).
    apply in_flat_map in Hb as (component & Hcomp & Hb).
    destruct (dependents_of dependencies component) as [|dep0 deps0] eqn:Hdeps; [done|].
    cbn [list_truthy] in Hb.
    destruct (missing_dependent_owners t _ (dep0 :: deps0)) as [|o0 os] eqn:Hmissing; [done|].
    cbn [list_truthy] in Hb. destruct Hb as [<-|[]].
    cbn [b_severity b_decision_id b_timestamp b_affected_component b_dependent_components
         b_missing_owners].
    split; [done|]. exists d. split; [by apply list_elem_of_In|].
    split; [done|]. split; [done|]. split; [by apply list_elem_of_In|].
    split; [done|]. split; [intros dep; rewrite <- Hdeps; apply dependents_of_elem|].
    split; [done|]. intros o Ho. rewrite <- Hmissing in Ho.
    apply missing_dependent_owners_elem in Ho as (row & Hrow & Ho & Hdep & Hown & Hp).
    split; [done|]. rewrite Ho. cbn [o_user_id]. split; [done|]. by exists row.
  - intros d component dep deps row Hd Hcomp Hdep Hc Hrow Hown Hp.
    assert (dep ∈ dependents_of dependencies component) as Hdeps
      by (apply dependents_of_elem; by exists deps).
    assert (mkMissingOwner (u_user_id row) (u_user_name row) dep
            ∈ missing_dependent_owners t (participants_of t (thread_id d))
                (dependents_of dependencies component)) as Hmissing
      by (apply missing_dependent_owners_elem; by exists row).
    destruct (dependents_of dependencies component) as [|dep0 deps0] eqn:Edeps;
      [by apply elem_of_nil in Hdeps|].
    destruct (missing_dependent_owners t (participants_of t (thread_id d)) (dep0 :: deps0))
      as [|o0 os] eqn:Emissing; [by apply elem_of_nil in Hmissing|].
    exists (mkBroken (decision_id d) (excerpt (decision_text d)) component (dep0 :: deps0)
                     (o0 :: os) (timestamp d) "warning"
                     ("Inform owners of " +:+ join ", " (dep0 :: deps0)
                      +:+ " about changes to " +:+ component)).
    split; [|done].
    unfold _detect_broken_dependencies. apply list_elem_of_In, in_flat_map.
    exists d. split; [by apply list_elem_of_In|]. apply in_flat_map.
    exists component. split; [by apply list_elem_of_In|].
    rewrite Edeps. cbn [list_truthy]. rewrite Emissing. cbn [list_truthy]. by left.
  - intros Hroots. unfold _detect_broken_dependencies.
    apply flat_map_nil. intros d Hd. apply flat_map_nil. intros component Hcomp.
    assert (dependents_of component_dependencies component = []) as ->; [|done].
    specialize (Hroots d component Hd Hcomp).
    repeat (apply elem_of_cons in Hroots as [->|Hroots]; [by vm_compute|]).
    by apply elem_of_nil in Hroots.
Qed.

End BrokenDependencies.

(** ** Entity extraction *)

Section ExtractionFacts.

Import Extractor.

Variable findall_reqs : string -> list string.
Variable findall_users : string -> list string.
Variable search : string -> string -> bool.

#[local] Abbreviation _extract_with_regex :=
  (Extractor._extract_with_regex findall_reqs findall_users search).
#[local] Abbreviation extract_entities_fast :=
  (Extractor.extract_entities_fast findall_reqs findall_users search).

Lemma names_found_elem (patterns : list (string * string)) (text name : string) :
  name ∈ names_found search patterns text
  ↔ ∃ pattern, (pattern, name) ∈ patterns ∧ search pattern text = true.
Proof.
  unfold names_found. rewrite list_elem_of_In, in_flat_map. split.
  - intros ([pattern name'] & Hin & Hname).
    destruct (search pattern text) eqn:Hs; [|done]. destruct Hname as [<-|[]].
    exists pattern. split; [by apply list_elem_of_In|done].
  - intros (pattern & Hin & Hs). exists (pattern, name).
    split; [by apply list_elem_of_In|]. rewrite Hs. by left.
Qed.

(** What the fallback extracts. *)
Lemma regex_entities (text : string) :
  let entities := _extract_with_regex text in
  confidence entities = (6 # 10)%Q
  ∧ reqs entities = findall_reqs text
  ∧ users_mentioned entities = map (fun m => "@" +:+ m) (findall_users text)
  ∧ NoDup (components entities) ∧ NoDup (topics entities)
  ∧ (∀ c, c ∈ components entities
          ↔ ∃ pattern, (pattern, c) ∈ component_patterns
                       ∧ search pattern (Py.lower text) = true)
  ∧ (∀ c, c ∈ topics entities
          ↔ ∃ pattern, (pattern, c) ∈ topic_patterns
                       ∧ search pattern (Py.lower text) = true).
Proof.
  cbn zeta. unfold Extractor._extract_with_regex.
  cbn [confidence reqs users_mentioned components topics].
  split; [done|]. split; [done|]. split; [done|].
  split; [apply NoDup_elements|]. split; [apply NoDup_elements|].
  split; intros c; by rewrite elem_of_elements, elem_of_list_to_set, names_found_elem.
Qed.

(** X29.  [extract_entities_fast] consults one client at most and falls
    back to the patterns.  The time written into the result is the elapsed
    time in milliseconds.  With an Anthropic client the OpenAI client is
    never consulted.  When the consulted client answers with entities, the
    result carries them unchanged.  In every other case (no client, an
    empty answer, an exception) the result is the pattern extraction:
    confidence 0.6, the requirement IDs found in the message as written,
    the mentions with their "@", and as components and topics, without
    repetition, exactly the names whose pattern is found in the lower-cased
    message. *)
Theorem extraction_falls_back_to_patterns (self : Clients)
    (haiku openai : Eff.outcome (option ExtractedEntities)) (start_time end_time : Q)
    (message_text user_id channel_id : string) :
  let result :=
    extract_entities_fast self haiku openai start_time end_time message_text user_id
                          channel_id in
  let consulted :=
    if anthropic_client self then haiku
    else if openai_client self then openai else Eff.Done None in
  extraction_time_ms result = ((end_time - start_time) * 1000)%Q
  ∧ (anthropic_client self = true ->
     ∀ openai', extract_entities_fast self haiku openai' start_time end_time message_text
                                      user_id channel_id = result)
  ∧ (∀ entities, consulted = Eff.Done (Some entities) ->
       reqs result = reqs entities ∧ components result = components entities
       ∧ users_mentioned result = users_mentioned entities
       ∧ topics result = topics entities ∧ confidence result = confidence entities)
  ∧ ((∀ entities, consulted ≠ Eff.Done (Some entities)) ->
     confidence result = (6 # 10)%Q
     ∧ reqs result = findall_reqs message_text
     ∧ users_mentioned result = map (fun m => "@" +:+ m) (findall_users message_text)
     ∧ NoDup (components result) ∧ NoDup (topics result)
     ∧ (∀ c, c ∈ components result
             ↔ ∃ pattern, (pattern, c) ∈ component_patterns
                          ∧ search pattern (Py.lower message_text) = true)
     ∧ (∀ c, c ∈ topics result
             ↔ ∃ pattern, (pattern, c) ∈ topic_patterns
                          ∧ search pattern (Py.lower message_text) = true)).
Proof.
  cbn zeta. unfold Extractor.extract_entities_fast.
  set (consulted := if anthropic_client self then haiku
                    else if openai_client self then openai else Eff.Done None).
  split; [by destruct consulted as [[e|]|]|].
  split; [intros Ha openai'; subst consulted; by rewrite Ha|].
  split.
  - intros entities ->. by cbn.
  - intros Hnone.
    assert (match consulted with
            | Eff.Done (Some entities) => timed entities ((end_time - start_time) * 1000)
            | _ => timed (_extract_with_regex message_text) ((end_time - start_time) * 1000)
            end = timed (_extract_with_regex message_text) ((end_time - start_time) * 1000))
      as ->.
    { destruct consulted as [[e|]|]; [by destruct (Hnone e)|done|done]. }
    apply (regex_entities message_text).
Qed.

(** X30.  On the pattern fallback the third criterion of
    [_is_decision_worthy] is dead: the confidence 0.6 never exceeds 0.8, so
    a message is decision-worthy exactly when a requirement ID is found in
    it, or at least two components are found and it holds a decision
    keyword; the topics found play no part. *)
Theorem pattern_fallback_decisions (self : Clients)
    (haiku openai : Eff.outcome (option ExtractedEntities)) (start_time end_time : Q)
    (message_text user_id channel_id : string) :
  (∀ entities,
     (if anthropic_client self then haiku
      else if openai_client self then openai else Eff.Done None)
     ≠ Eff.Done (Some entities)) ->
  let entities :=
    extract_entities_fast self haiku openai start_time end_time message_text user_id
                          channel_id in
  Worthy._is_decision_worthy entities message_text = true
  ↔ findall_reqs message_text ≠ []
    ∨ ((2 <= length (components entities))%nat
       ∧ Worthy.has_decision_keyword message_text = true).
Proof.
  intros Hnone. cbn zeta. unfold Extractor.extract_entities_fast.
  set (consulted := if anthropic_client self then haiku
                    else if openai_client self then openai else Eff.Done None) in *.
  assert (match consulted with
          | Eff.Done (Some entities) => timed entities ((end_time - start_time) * 1000)
          | _ => timed (_extract_with_regex message_text) ((end_time - start_time) * 1000)
          end = timed (_extract_with_regex message_text) ((end_time - start_time) * 1000))
    as ->.
  { destruct consulted as [[e|]|]; [by destruct (Hnone e)|done|done]. }
  unfold Worthy._is_decision_worthy, timed, Extractor._extract_with_regex.
  cbn [reqs components topics confidence].
  replace (Qle_bool (6 # 10) (8 # 10)) with true by done. cbn [negb andb].
  destruct (findall_reqs message_text) as [|r rs]; cbn [list_truthy].
  - destruct (Z.geb_spec (Z.of_nat (length (elements
                 (list_to_set (names_found search component_patterns (Py.lower message_text))
                  : gset string)))) 2) as [Hge|Hlt]; cbn [andb].
    + destruct (Worthy.has_decision_keyword message_text).
      * split; [intros _; right; split; [lia|done]|done].
      * split; [done|]. intros [?|[_ ?]]; done.
    + split; [done|]. intros [?|[? _]]; [done|lia].
  - split; [intros _; by left|done].
Qed.

End ExtractionFacts.

(** The fallback on alice's message. *)
Lemma pattern_fallback_decisions_witness :
  Worthy._is_decision_worthy
    (Extractor.extract_entities_fast Samples.findall_reqs Samples.findall_users
       Samples.search (Extractor.mkClients false false) (Eff.Done None) (Eff.Done None)
       0 (15 # 100) "Updated REQ-245 motor torque" "alice" "hardware-team")
    "Updated REQ-245 motor torque" = true
  ↔ Samples.findall_reqs "Updated REQ-245 motor torque" ≠ []
    ∨ ((2 <= length (components
                       (Extractor.extract_entities_fast Samples.findall_reqs
                          Samples.findall_users Samples.search
                          (Extractor.mkClients false false) (Eff.Done None) (Eff.Done None)
                          0 (15 # 100) "Updated REQ-245 motor torque" "alice"
                          "hardware-team")))%nat
       ∧ Worthy.has_decision_keyword "Updated REQ-245 motor torque" = true).
Proof.
  apply (pattern_fallback_decisions Samples.findall_reqs Samples.findall_users Samples.search
           (Extractor.mkClients false false) (Eff.Done None) (Eff.Done None) 0 (15 # 100)
           "Updated REQ-245 motor torque" "alice" "hardware-team").
  intros entities. discriminate.
Defined.
